(** * gcpjson: incremental sync and daily aggregation of JSON log objects

    A shallow embedding of [src/index.ts] (the incremental sync pipeline and
    its watermark resolver) and of the aggregation script (the content
    normalizer, the date path matcher and [processLogs]), followed by the
    properties of the specification that were checked against it.

    Conventions of the embedding:
    - a JavaScript string is the list of its UTF-16 code units ([list N]);
    - a [Date] is its time value, milliseconds since the epoch, as a [Z];
    - the listing of the bucket, the clock, the time zone and the local
      directory are explicit arguments; the local directory is a finite map
      from file names to contents; the downloads and the writes of a run are
      recorded, in order, in a trace;
    - listing the bucket, reading the metadata of an object and writing a
      local file are taken to succeed, a download may fail;
    - console output and the resource limits of the engine are not
      modelled. *)

From Stdlib Require Import ZArith NArith Lia.
From stdpp Require Import base option list sorting strings gmap.

Local Open Scope Z_scope.
#[local] Set Warnings "-register-all".


(** ** JavaScript strings *)

Abbreviation jsstring := (list N).

Module JsString.

(** The code units of an ASCII literal. *)
Definition str (s : string) : jsstring :=
  (λ b, N.of_nat (Byte.to_nat b)) <$> String.list_byte_of_string s.

(** The same, every apostrophe of the literal standing for a double quote
    (code unit 34), so that JSON texts can be written down legibly. *)
Definition dq (s : string) : jsstring :=
  (λ c, if (c =? 39)%N then 34%N else c) <$> str s.

Definition LF : N := 10.

(** WhiteSpace and LineTerminator code units, the ones [String.prototype.trim]
    removes. *)
Definition is_white (c : N) : bool :=
  ((9 <=? c) && (c <=? 13) || (c =? 32) || (c =? 160) || (c =? 5760)
   || (8192 <=? c) && (c <=? 8202) || (c =? 8232) || (c =? 8233)
   || (c =? 8239) || (c =? 8287) || (c =? 12288) || (c =? 65279))%N.

Fixpoint trimStart (s : jsstring) : jsstring :=
  match s with
  | c :: t => if is_white c then trimStart t else s
  | [] => []
  end.

Definition trimEnd (s : jsstring) : jsstring := reverse (trimStart (reverse s)).

Definition trim (s : jsstring) : jsstring := trimEnd (trimStart s).

(** [s.startsWith(p)] *)
Fixpoint startsWith (s p : jsstring) {struct p} : bool :=
  match p, s with
  | [], _ => true
  | a :: p', b :: s' => (a =? b)%N && startsWith s' p'
  | _ :: _, [] => false
  end.

(** [s.endsWith(p)] *)
Definition endsWith (s p : jsstring) : bool :=
  (length p <=? length s)%nat && startsWith (drop (length s - length p) s) p.

(** [s.includes(p)] *)
Fixpoint includes (s p : jsstring) : bool :=
  startsWith s p ||
  match s with
  | [] => false
  | _ :: t => includes t p
  end.

(** [s.split("\n")]: the empty string splits into one empty line. *)
Fixpoint split_lines (s : jsstring) : list jsstring :=
  match s with
  | [] => [[]]
  | c :: t =>
      if (c =? LF)%N then [] :: split_lines t
      else match split_lines t with
           | l :: ls => (c :: l) :: ls
           | [] => [[c]]
           end
  end.

(** [s.padStart(n, fill)]: the filler is [fill] repeated and cut to the
    missing length. *)
Definition padStart (s : jsstring) (n : nat) (fill : jsstring) : jsstring :=
  if (n <=? length s)%nat then s
  else
    let k := (n - length s)%nat in
    take k (concat (replicate k fill)) ++ s.

(** Decimal digits *)
Definition is_digit (c : N) : bool := ((48 <=? c) && (c <=? 57))%N.

Definition digit_char (d : Z) : N := Z.to_N (48 + d).

(** The decimal digits of a natural number, most significant first. *)
Fixpoint digits_fuel (fuel : nat) (n : Z) (acc : jsstring) : jsstring :=
  match fuel with
  | O => acc
  | S fuel' =>
      let acc' := digit_char (n mod 10) :: acc in
      if n <? 10 then acc' else digits_fuel fuel' (n / 10) acc'
  end.

(** The longest run of digits at the head of [s], and the rest. *)
Fixpoint span_digits (s : jsstring) : jsstring * jsstring :=
  match s with
  | c :: t =>
      if is_digit c then
        let '(ds, rest) := span_digits t in (c :: ds, rest)
      else ([], s)
  | [] => ([], [])
  end.

(** [Number.prototype.toString] on an integer below 10^21. *)
Definition Number_toString (n : Z) : jsstring :=
  let mag := Z.abs n in
  let ds := digits_fuel (S (Z.to_nat (Z.log2 mag))) mag [] in
  if n <? 0 then 45%N :: ds else ds.

End JsString.

Import JsString.

(** ** Dates *)

Module JsDate.

Definition msPerDay : Z := 86400000.

(** [Day(t)] and [TimeWithinDay(t)] of ECMA-262. *)
Definition Day (t : Z) : Z := t / msPerDay.
Definition TimeWithinDay (t : Z) : Z := t mod msPerDay.

(** Day number of the civil date [y]-[m]-[d] of the proleptic Gregorian
    calendar, [m] counted from 1; day 0 is 1970-01-01. *)
Definition days_from_civil (y m d : Z) : Z :=
  let y' := if m <=? 2 then y - 1 else y in
  let era := y' / 400 in
  let yoe := y' - era * 400 in
  let doy := (153 * (if m >? 2 then m - 3 else m + 9) + 2) / 5 + d - 1 in
  let doe := yoe * 365 + yoe / 4 - yoe / 100 + doy in
  era * 146097 + doe - 719468.

(** The civil date (year, month counted from 1, day of the month) of a day
    number: [YearFromTime], [MonthFromTime] + 1 and [DateFromTime]. *)
Definition civil_from_days (z : Z) : Z * Z * Z :=
  let z' := z + 719468 in
  let era := z' / 146097 in
  let doe := z' - era * 146097 in
  let yoe := (doe - doe / 1460 + doe / 36524 - doe / 146096) / 365 in
  let doy := doe - (365 * yoe + yoe / 4 - yoe / 100) in
  let mp := (5 * doy + 2) / 153 in
  let d := doy - (153 * mp + 2) / 5 + 1 in
  let m := if mp <? 10 then mp + 3 else mp - 9 in
  (yoe + era * 400 + (if m <=? 2 then 1 else 0), m, d).

Definition YearFromTime (t : Z) : Z := (civil_from_days (Day t)).1.1.
(** Counted from 0, as in ECMA-262. *)
Definition MonthFromTime (t : Z) : Z := (civil_from_days (Day t)).1.2 - 1.
Definition DateFromTime (t : Z) : Z := (civil_from_days (Day t)).2.

(** [MakeDay(year, month, date)]: months outside 0..11 carry into the year,
    the day of the month is added without a range check. *)
Definition MakeDay (year month date : Z) : Z :=
  let ym := year + month / 12 in
  let mn := month mod 12 in
  days_from_civil ym (mn + 1) 1 + date - 1.

(** The local time zone of the process: the offset to add to a UTC time value
    ([LocalTZA(t, true)]) and the offset to subtract from a local time value
    ([LocalTZA(t, false)]), both in milliseconds. *)
Record TimeZone := {
  tza_utc : Z → Z;
  tza_local : Z → Z
}.

Definition utc_zone : TimeZone := {| tza_utc := λ _, 0; tza_local := λ _, 0 |}.

Definition LocalTime (tz : TimeZone) (t : Z) : Z := t + tza_utc tz t.
Definition UTC (tz : TimeZone) (t : Z) : Z := t - tza_local tz t.

(** [new Date(year, monthIndex, day)]: local midnight of that civil date; a
    year from 0 to 99 stands for 1900 + year. [TimeClip] is left out: the
    arguments that reach it here are read from two, two and four digits,
    which keeps the instant well inside the range of time values. *)
Definition Date_local (tz : TimeZone) (year month day : Z) : Z :=
  let yr := if (0 <=? year) && (year <=? 99) then 1900 + year else year in
  UTC tz (MakeDay yr month day * msPerDay).

(** [Date.UTC(year, monthIndex, day, hours, minutes)] for a four-digit year,
    used to write down instants. *)
Definition Date_UTC (year month day hours minutes : Z) : Z :=
  MakeDay year month day * msPerDay + hours * 3600000 + minutes * 60000.

Definition getFullYear (tz : TimeZone) (t : Z) : Z := YearFromTime (LocalTime tz t).
Definition getMonth (tz : TimeZone) (t : Z) : Z := MonthFromTime (LocalTime tz t).
Definition getDate (tz : TimeZone) (t : Z) : Z := DateFromTime (LocalTime tz t).

Definition getUTCFullYear (t : Z) : Z := YearFromTime t.
Definition getUTCMonth (t : Z) : Z := MonthFromTime t.
Definition getUTCDate (t : Z) : Z := DateFromTime t.

End JsDate.

Import JsDate.

(** ** Numbers read from digits *)

Module JsNumber.

(** The value of a run of decimal digits. *)
Definition decimal_value (ds : jsstring) : Z :=
  foldl (λ acc c, 10 * acc + (Z.of_N c - 48)) 0 ds.

(** [parseInt(ds)] on a non-empty run of ASCII digits (the only arguments it
    receives here): no sign, no blank and no radix prefix to deal with, so the
    result is the decimal value, before rounding to a double. *)
Definition parseInt (ds : jsstring) : Z := decimal_value ds.

(** An integer-valued double, or +Infinity. *)
Inductive double :=
| Fin (z : Z)
| PosInf.

(** Rounding of a natural number to the nearest double, ties to even: the
    identity up to 2^53, 53 significant bits above, +Infinity from 2^1024. *)
Definition to_double (n : Z) : double :=
  if n <? 2 ^ 53 then Fin n
  else
    let e := Z.log2 n - 52 in
    let q := n / 2 ^ e in
    let r := n mod 2 ^ e in
    let half := 2 ^ (e - 1) in
    let q' := if r <? half then q
              else if half <? r then q + 1
              else if Z.even q then q else q + 1 in
    let v := q' * 2 ^ e in
    if v <? 2 ^ 1024 then Fin v else PosInf.

(** [a > b] and [a === b] on such doubles. *)
Definition double_gt (a b : double) : bool :=
  match a, b with
  | Fin x, Fin y => x >? y
  | PosInf, Fin _ => true
  | _, PosInf => false
  end.

Definition double_le (a b : double) : Prop := double_gt a b = false.

End JsNumber.

Import JsNumber.

(** ** Arrays *)

Module JsArray.

Section Sort.

Context {A : Type} (key : A → Z).

(** [x] put before the first element whose key is not smaller. *)
Fixpoint insert_sorted (x : A) (l : list A) : list A :=
  match l with
  | [] => [x]
  | y :: l' => if key x <=? key y then x :: l else y :: insert_sorted x l'
  end.

(** [l.sort((a, b) => key(a) - key(b))]: [Array.prototype.sort] is stable, so
    with this comparator the result is the only arrangement of [l] by
    ascending key that keeps equal keys in their order. *)
Definition stable_sort_by (l : list A) : list A := foldr insert_sorted [] l.

End Sort.

End JsArray.

Import JsArray.

(** ** JSON *)

Module Json.

(** A number read from a JSON text. An integer literal of magnitude below
    2^53 denotes that integer exactly, and prints as its decimal digits; any
    other literal (a fraction, an exponent, a larger integer) is kept as
    written: its rounding to a double is not modelled. *)
Inductive number :=
| Int (z : Z)
| Lit (lexeme : jsstring).

(** The own properties of an object, in the order JavaScript enumerates
    them: array indices first, in ascending order, then the other keys in
    the order of their creation. *)
Section Properties.

Context {V : Type}.

(** A canonical array index: "0", or digits without a leading zero, up to
    2^32 - 2. *)
Definition array_index (k : jsstring) : option Z :=
  match k with
  | [] => None
  | c :: t =>
      if forallb is_digit k && ((c =? 48)%N && bool_decide (t = []) || negb (c =? 48)%N)
         && (length k <=? 10)%nat && (decimal_value k <=? 4294967294)
      then Some (decimal_value k)
      else None
  end.

Fixpoint has_key (k : jsstring) (props : list (jsstring * V)) : bool :=
  match props with
  | [] => false
  | (k', _) :: rest => bool_decide (k' = k) || has_key k rest
  end.

Fixpoint replace_value (k : jsstring) (v : V) (props : list (jsstring * V))
    : list (jsstring * V) :=
  match props with
  | [] => []
  | (k', v') :: rest =>
      if bool_decide (k' = k) then (k', v) :: rest
      else (k', v') :: replace_value k v rest
  end.

Fixpoint insert_index (n : Z) (k : jsstring) (v : V) (props : list (jsstring * V))
    : list (jsstring * V) :=
  match props with
  | [] => [(k, v)]
  | (k', v') :: rest =>
      match array_index k' with
      | Some n' =>
          if n' <? n then (k', v') :: insert_index n k v rest
          else (k, v) :: props
      | None => (k, v) :: props
      end
  end.

(** [CreateDataProperty(object, k, v)]: an existing key keeps its place and
    takes the new value. *)
Definition define_property (props : list (jsstring * V)) (k : jsstring) (v : V)
    : list (jsstring * V) :=
  if has_key k props then replace_value k v props
  else match array_index k with
       | Some n => insert_index n k v props
       | None => props ++ [(k, v)]
       end.

End Properties.

Inductive value :=
| JNull
| JBool (b : bool)
| JNumber (n : number)
| JString (s : jsstring)
| JArray (elements : list value)
| JObject (properties : list (jsstring * value)).

(** *** [JSON.parse] *)

(** The result of a parser: a value and the rest of the text, a syntax
    error, or the recursion budget used up. *)
Inductive result (A : Type) :=
| Ok (a : A) (rest : jsstring)
| SyntaxError
| OutOfFuel.

Arguments Ok {A} a rest.
Arguments SyntaxError {A}.
Arguments OutOfFuel {A}.

(** JSON white space: tab, line feed, carriage return, space. *)
Definition is_json_white (c : N) : bool :=
  ((c =? 9) || (c =? 10) || (c =? 13) || (c =? 32))%N.

Fixpoint skip_ws (s : jsstring) : jsstring :=
  match s with
  | c :: t => if is_json_white c then skip_ws t else s
  | [] => []
  end.

Definition hex_value (c : N) : option N :=
  if is_digit c then Some (c - 48)%N
  else if ((97 <=? c) && (c <=? 102))%N then Some (c - 87)%N
  else if ((65 <=? c) && (c <=? 70))%N then Some (c - 55)%N
  else None.

(** The character a one-letter escape stands for: quote, backslash and
    slash stand for themselves, b f n r t for the control characters. *)
Definition escape_value (e : N) : option N :=
  if ((e =? 34) || (e =? 92) || (e =? 47))%N then Some e
  else if (e =? 98)%N then Some 8%N
  else if (e =? 102)%N then Some 12%N
  else if (e =? 110)%N then Some 10%N
  else if (e =? 114)%N then Some 13%N
  else if (e =? 116)%N then Some 9%N
  else None.

(** The characters of a string after its opening quote, up to the closing
    quote. [acc] holds the characters read so far, last first. *)
Fixpoint parse_string (s acc : jsstring) : option (jsstring * jsstring) :=
  match s with
  | [] => None
  | c :: t =>
      if (c =? 34)%N then Some (reverse acc, t)
      else if (c =? 92)%N then
        match t with
        | [] => None
        | e :: t' =>
            if (e =? 117)%N then
              match t' with
              | h1 :: h2 :: h3 :: h4 :: t'' =>
                  match hex_value h1, hex_value h2, hex_value h3, hex_value h4 with
                  | Some a, Some b, Some c, Some d =>
                      parse_string t'' ((((a * 16 + b) * 16 + c) * 16 + d)%N :: acc)
                  | _, _, _, _ => None
                  end
              | _ => None
              end
            else
              match escape_value e with
              | Some u => parse_string t' (u :: acc)
              | None => None
              end
        end
      else if (c <? 32)%N then None
      else parse_string t (c :: acc)
  end.

(** The integer part of a number: a single 0, or digits starting with 1-9. *)
Definition parse_int_part (s : jsstring) : option (jsstring * jsstring) :=
  match s with
  | c :: t =>
      if (c =? 48)%N then Some ([c], t)
      else if is_digit c then Some (span_digits s)
      else None
  | [] => None
  end.

(** An optional fraction: a dot and at least one digit. *)
Definition parse_fraction (s : jsstring) : option (jsstring * jsstring) :=
  match s with
  | c :: t =>
      if (c =? 46)%N then
        match span_digits t with
        | ([], _) => None
        | (ds, rest) => Some (c :: ds, rest)
        end
      else Some ([], s)
  | [] => Some ([], s)
  end.

(** An optional exponent: e or E, an optional sign, at least one digit. *)
Definition parse_exponent (s : jsstring) : option (jsstring * jsstring) :=
  match s with
  | c :: t =>
      if ((c =? 101) || (c =? 69))%N then
        let '(sign, t') :=
          match t with
          | g :: u => if ((g =? 43) || (g =? 45))%N then ([g], u) else ([], t)
          | [] => ([], t)
          end in
        match span_digits t' with
        | ([], _) => None
        | (ds, rest) => Some (c :: sign ++ ds, rest)
        end
      else Some ([], s)
  | [] => Some ([], s)
  end.

Definition parse_number (s : jsstring) : option (number * jsstring) :=
  let '(sign, s1) :=
    match s with
    | c :: t => if (c =? 45)%N then ([c], t) else ([], s)
    | [] => ([], s)
    end in
  '(int, s2) ← parse_int_part s1;
  '(frac, s3) ← parse_fraction s2;
  '(exp, s4) ← parse_exponent s3;
  let n :=
    match frac, exp with
    | [], [] =>
        let z := decimal_value int in
        if z <? 2 ^ 53 then Int (match sign with [] => z | _ :: _ => - z end)
        else Lit (sign ++ int)
    | _, _ => Lit (sign ++ int ++ frac ++ exp)
    end in
  Some (n, s4).

Definition parse_literal (s : jsstring) : option (value * jsstring) :=
  if startsWith s (str "true") then Some (JBool true, drop 4 s)
  else if startsWith s (str "false") then Some (JBool false, drop 5 s)
  else if startsWith s (str "null") then Some (JNull, drop 4 s)
  else None.

Definition of_option {A} (o : option (A * jsstring)) : result A :=
  match o with
  | Some (a, rest) => Ok a rest
  | None => SyntaxError
  end.

(** A value, the elements of an array after its first bracket, and the
    members of an object after its first brace. Each call spends one unit of
    [fuel]. *)
Fixpoint parse_value (fuel : nat) (s : jsstring) : result value :=
  match fuel with
  | O => OutOfFuel
  | S fuel' =>
      match skip_ws s with
      | [] => SyntaxError
      | c :: t =>
          if (c =? 123)%N then
            match skip_ws t with
            | c' :: t' =>
                if (c' =? 125)%N then Ok (JObject []) t'
                else parse_members fuel' (c' :: t') []
            | [] => SyntaxError
            end
          else if (c =? 91)%N then
            match skip_ws t with
            | c' :: t' =>
                if (c' =? 93)%N then Ok (JArray []) t'
                else parse_elements fuel' (c' :: t') []
            | [] => SyntaxError
            end
          else if (c =? 34)%N then
            of_option (p ← parse_string t []; Some (JString p.1, p.2))
          else if is_digit c || (c =? 45)%N then
            of_option (p ← parse_number (c :: t); Some (JNumber p.1, p.2))
          else of_option (parse_literal (c :: t))
      end
  end
with parse_elements (fuel : nat) (s : jsstring) (acc : list value) : result value :=
  match fuel with
  | O => OutOfFuel
  | S fuel' =>
      match parse_value fuel' s with
      | Ok v rest =>
          match skip_ws rest with
          | c :: t =>
              if (c =? 44)%N then parse_elements fuel' t (acc ++ [v])
              else if (c =? 93)%N then Ok (JArray (acc ++ [v])) t
              else SyntaxError
          | [] => SyntaxError
          end
      | SyntaxError => SyntaxError
      | OutOfFuel => OutOfFuel
      end
  end
with parse_members (fuel : nat) (s : jsstring) (acc : list (jsstring * value))
    : result value :=
  match fuel with
  | O => OutOfFuel
  | S fuel' =>
      match skip_ws s with
      | c :: t =>
          if (c =? 34)%N then
            match parse_string t [] with
            | Some (k, rest) =>
                match skip_ws rest with
                | c' :: t' =>
                    if (c' =? 58)%N then
                      match parse_value fuel' t' with
                      | Ok v rest' =>
                          match skip_ws rest' with
                          | c'' :: t'' =>
                              if (c'' =? 44)%N then
                                parse_members fuel' t'' (define_property acc k v)
                              else if (c'' =? 125)%N then
                                Ok (JObject (define_property acc k v)) t''
                              else SyntaxError
                          | [] => SyntaxError
                          end
                      | SyntaxError => SyntaxError
                      | OutOfFuel => OutOfFuel
                      end
                    else SyntaxError
                | [] => SyntaxError
                end
            | None => SyntaxError
            end
          else SyntaxError
      | [] => SyntaxError
      end
  end.

(** What a call evaluates to: a value, or an exception. *)
Inductive outcome (A : Type) :=
| Returns (a : A)
| Throws.

Arguments Returns {A} a.
Arguments Throws {A}.

(** [try { body } catch { handler }] *)
Definition try_catch {A} (body handler : outcome A) : outcome A :=
  match body with
  | Returns a => Returns a
  | Throws => handler
  end.

Definition bind {A B} (m : outcome A) (k : A → outcome B) : outcome B :=
  match m with
  | Returns a => k a
  | Throws => Throws
  end.

(** [JSON.parse(text)]: one value, with white space around it and nothing
    else; anything else throws. The budget is more than the nesting of any
    text of that length can use. *)
Definition JSON_parse (text : jsstring) : outcome value :=
  match parse_value (2 * length text + 1) text with
  | Ok v rest =>
      match skip_ws rest with
      | [] => Returns v
      | _ :: _ => Throws
      end
  | SyntaxError | OutOfFuel => Throws
  end.

(** *** [JSON.stringify] *)

Definition hex_digit (d : N) : N := if (d <? 10)%N then (48 + d)%N else (87 + d)%N.

(** [\uXXXX], in lower case. *)
Definition unicode_escape (c : N) : jsstring :=
  [92; 117; hex_digit (c / 4096 mod 16); hex_digit (c / 256 mod 16);
   hex_digit (c / 16 mod 16); hex_digit (c mod 16)]%N.

Definition is_high_surrogate (c : N) : bool := ((55296 <=? c) && (c <=? 56319))%N.
Definition is_low_surrogate (c : N) : bool := ((56320 <=? c) && (c <=? 57343))%N.

(** One code unit that is not half of a surrogate pair. *)
Definition quote_unit (c : N) : jsstring :=
  if (c =? 8)%N then str "\b"
  else if (c =? 9)%N then str "\t"
  else if (c =? 10)%N then str "\n"
  else if (c =? 12)%N then str "\f"
  else if (c =? 13)%N then str "\r"
  else if (c =? 34)%N then [92; 34]%N
  else if (c =? 92)%N then [92; 92]%N
  else if (c <? 32)%N || is_high_surrogate c || is_low_surrogate c
       then unicode_escape c
  else [c].

Fixpoint quote_units (s : jsstring) : jsstring :=
  match s with
  | [] => []
  | c :: t =>
      if is_high_surrogate c then
        match t with
        | d :: t' =>
            if is_low_surrogate d then c :: d :: quote_units t'
            else quote_unit c ++ quote_units t
        | [] => quote_unit c
        end
      else quote_unit c ++ quote_units t
  end.

(** [QuoteJSONString] *)
Definition quote (s : jsstring) : jsstring := [34%N] ++ quote_units s ++ [34%N].

Fixpoint join_comma (parts : list jsstring) : jsstring :=
  match parts with
  | [] => []
  | [p] => p
  | p :: rest => p ++ [44%N] ++ join_comma rest
  end.

Section Stringify.

(** How a number that was kept as written prints: the decimal form of the
    double it rounds to, which is left to the engine. *)
Variable print_literal : jsstring → jsstring.

Definition number_text (n : number) : jsstring :=
  match n with
  | Int z => Number_toString z
  | Lit lexeme => print_literal lexeme
  end.

(** [JSON.stringify(v)] without indentation, for a value that came out of
    [JSON.parse]. *)
Fixpoint stringify (v : value) : jsstring :=
  match v with
  | JNull => str "null"
  | JBool true => str "true"
  | JBool false => str "false"
  | JNumber n => number_text n
  | JString s => quote s
  | JArray elements => [91%N] ++ join_comma (map stringify elements) ++ [93%N]
  | JObject properties =>
      [123%N]
      ++ join_comma (map (λ p, quote p.1 ++ [58%N] ++ stringify p.2) properties)
      ++ [125%N]
  end.

End Stringify.

End Json.

Import Json.

(** ** The bucket and the local directory, shared by both scripts *)

(** One listed object of the bucket: its key, the instant of
    [metadata.timeCreated], and what [file.download()] yields, the decoded
    contents or [None] when the call rejects. *)
Record RemoteObject := {
  obj_name : jsstring;
  timeCreated : Z;
  download : option jsstring
}.

(** The output folder: file name to contents. *)
Abbreviation directory := (gmap jsstring jsstring).

(** [fs.readdirSync(OUTPUT_FOLDER)] *)
Definition readdirSync (dir : directory) : list jsstring := (map_to_list dir).*1.

(** ** src/index.ts: the incremental sync *)

Module Index.

(** The four groups captured by
    [/(\d{2})-(\d{2})-(\d{4})-S(\d+)\.json/]. *)
Record Captures := {
  cap_day : jsstring;
  cap_month : jsstring;
  cap_year : jsstring;
  cap_sequence : jsstring
}.

(** [\d{n}] at the head of [s]: the digits and the rest. *)
Fixpoint take_digits (n : nat) (s : jsstring) : option (jsstring * jsstring) :=
  match n with
  | O => Some ([], s)
  | S n' =>
      match s with
      | c :: t =>
          if is_digit c then
            '(ds, rest) ← take_digits n' t; Some (c :: ds, rest)
          else None
      | [] => None
      end
  end.

(** A literal at the head of [s]: the rest. *)
Definition expect (lit s : jsstring) : option jsstring :=
  if startsWith s lit then Some (drop (length lit) s) else None.

(** The pattern matched at the head of [s]. [\d+] is greedy, and a shorter
    run would be followed by a digit instead of the dot, so the longest run is
    the only candidate. *)
Definition match_here (s : jsstring) : option Captures :=
  '(day, s1) ← take_digits 2 s;
  s2 ← expect (str "-") s1;
  '(month, s3) ← take_digits 2 s2;
  s4 ← expect (str "-") s3;
  '(year, s5) ← take_digits 4 s4;
  s6 ← expect (str "-S") s5;
  let '(sequence, s7) := span_digits s6 in
  match sequence with
  | [] => None
  | _ :: _ =>
      _ ← expect (str ".json") s7;
      Some {| cap_day := day; cap_month := month; cap_year := year;
              cap_sequence := sequence |}
  end.

(** [file.match(/.../)]: the pattern is not anchored, the leftmost position
    where it matches wins. *)
Fixpoint regex_match (s : jsstring) : option Captures :=
  match match_here s with
  | Some c => Some c
  | None =>
      match s with
      | [] => None
      | _ :: t => regex_match t
      end
  end.

(** The result of [getLatestProcessedFile]. *)
Record Watermark := {
  date : Z;
  sequence : double
}.

(** [FileWithDate] *)
Record FileWithDate := {
  file : RemoteObject;
  created : Z;
  name : jsstring
}.

(** What the sync does to the outside world, in order. *)
Inductive effect :=
| Download (o : RemoteObject)
| WriteFile (path data : jsstring).

Section WithTimeZone.

Variable tz : TimeZone.

(** The state of the scan: [latestDate] and [latestSequence]. *)
Definition scan_state : Type := option Z * double.

(** The body of [files.forEach]. *)
Definition visit (st : scan_state) (f : jsstring) : scan_state :=
  if negb (endsWith f (str ".json")) then st
  else
    match regex_match f with
    | None => st
    | Some m =>
        let d := Date_local tz (parseInt (cap_year m))
                   (parseInt (cap_month m) - 1) (parseInt (cap_day m)) in
        let seq := to_double (parseInt (cap_sequence m)) in
        match st.1 with
        | None => (Some d, seq)
        | Some latestDate =>
            if d >? latestDate then (Some d, seq)
            else if (d =? latestDate) && double_gt seq st.2 then (st.1, seq)
            else st
        end
    end.

Definition getLatestProcessedFile (files : list jsstring) : option Watermark :=
  let st := foldl visit (None, Fin (-1)) files in
  match st.1 with
  | Some latestDate => Some {| date := latestDate; sequence := st.2 |}
  | None => None
  end.

Definition pad2 (n : Z) : jsstring := padStart (Number_toString n) 2 (str "0").

(** [formatDate]: DD-MM-YYYY in local time. *)
Definition formatDate (d : Z) : jsstring :=
  pad2 (getDate tz d) ++ str "-" ++ pad2 (getMonth tz d + 1) ++ str "-"
  ++ Number_toString (getFullYear tz d).

(** The first loop of [downloadAndSaveJSON]: the objects kept. *)
Definition keep (lastProcessed : option Watermark) (o : RemoteObject) : bool :=
  endsWith (obj_name o) (str ".json") &&
  negb match lastProcessed with
       | Some w => timeCreated o <=? date w
       | None => false
       end.

Definition collect (lastProcessed : option Watermark) (files : list RemoteObject)
    : list FileWithDate :=
  (λ o, {| file := o; created := timeCreated o; name := obj_name o |})
    <$> filter (λ o, keep lastProcessed o = true) files.

(** [jsonFiles.sort((a, b) => a.created.getTime() - b.created.getTime())] *)
Definition sort_by_created (l : list FileWithDate) : list FileWithDate :=
  stable_sort_by created l.

(** [filesByDate]: a [Map] keeps its keys in the order of first insertion. *)
Fixpoint group_push (key : jsstring) (x : FileWithDate)
    (groups : list (jsstring * list FileWithDate)) : list (jsstring * list FileWithDate) :=
  match groups with
  | [] => [(key, [x])]
  | (k, xs) :: rest =>
      if decide (k = key) then (k, xs ++ [x]) :: rest
      else (k, xs) :: group_push key x rest
  end.

Definition group_by_date (l : list FileWithDate) : list (jsstring * list FileWithDate) :=
  foldl (λ groups fd, group_push (formatDate (created fd)) fd groups) [] l.

Definition sequence_file (dateStr : jsstring) (i : nat) : jsstring :=
  dateStr ++ str "-S" ++ Number_toString (Z.of_nat i) ++ str ".json".

(** The body of the inner loop, at index [i]. A rejected download is caught
    and the loop goes on; empty contents are skipped; both leave the index
    to advance. *)
Definition process_file (dateStr : jsstring) (i : nat) (fd : FileWithDate)
    (st : directory * list effect) : directory * list effect :=
  match download (file fd) with
  | None => (st.1, st.2 ++ [Download (file fd)])
  | Some contents =>
      let rawText := trim contents in
      match rawText with
      | [] => (st.1, st.2 ++ [Download (file fd)])
      | _ :: _ =>
          let filename := sequence_file dateStr i in
          (<[filename := rawText]> st.1,
           st.2 ++ [Download (file fd); WriteFile filename rawText])
      end
  end.

(** [for (let i = 0; i < dateFiles.length; i++)], from index [i] on. *)
Fixpoint process_from (dateStr : jsstring) (i : nat) (dateFiles : list FileWithDate)
    (st : directory * list effect) : directory * list effect :=
  match dateFiles with
  | [] => st
  | fd :: rest => process_from dateStr (S i) rest (process_file dateStr i fd st)
  end.

Definition process_groups (groups : list (jsstring * list FileWithDate))
    (st : directory * list effect) : directory * list effect :=
  foldl (λ st g, process_from g.1 0 g.2 st) st groups.

(** One run over the listing [files] of the bucket, from the directory [dir]:
    the directory after the run and the trace of the run. *)
Definition downloadAndSaveJSON (files : list RemoteObject) (dir : directory)
    : directory * list effect :=
  let lastProcessed := getLatestProcessedFile (readdirSync dir) in
  let jsonFiles := collect lastProcessed files in
  let sorted := sort_by_created jsonFiles in
  let filesByDate := group_by_date sorted in
  process_groups filesByDate (dir, []).

End WithTimeZone.

End Index.

(** ** The aggregation script: today's objects into one file *)

Module Aggregate.

(** [TODAY_FILE], as a name in the output folder. *)
Definition TODAY_FILE : jsstring := str "today.json".

(** [FileWithDate]; its [size], read from the metadata and never used, is
    left out. *)
Record FileWithDate := {
  file : RemoteObject;
  created : Z;
  name : jsstring
}.

(** What the script does to the outside world, in order. *)
Inductive effect :=
| Download (o : RemoteObject)
| CreateWriteStream (path : jsstring)
| Write (path chunk : jsstring)
| End (path : jsstring).

(** [formatDatePath]: YYYY/MM/DD in UTC. *)
Definition formatDatePath (d : Z) : jsstring :=
  Number_toString (getUTCFullYear d) ++ str "/"
  ++ padStart (Number_toString (getUTCMonth d + 1)) 2 (str "0") ++ str "/"
  ++ padStart (Number_toString (getUTCDate d)) 2 (str "0").

(** [isFromToday]; [today] is what [new Date()] yields inside the call. *)
Definition isFromToday (today : Z) (filePath : jsstring) : bool :=
  includes filePath (formatDatePath today).

(** The loop over the lines of [parseJsonContent], [results] being the
    array filled so far. A line that does not parse is caught and skipped. *)
Fixpoint parse_lines (lines : list jsstring) (results : list value)
    : outcome (list value) :=
  match lines with
  | [] => Returns results
  | line :: rest =>
      let trimmedLine := trim line in
      match trimmedLine with
      | [] => parse_lines rest results
      | _ :: _ =>
          bind
            (try_catch
               (bind (JSON_parse trimmedLine) (λ v, Returns (results ++ [v])))
               (Returns results))
            (parse_lines rest)
      end
  end.

Definition parseJsonContent (content : jsstring) : outcome (list value) :=
  let trimmedContent := trim content in
  match trimmedContent with
  | [] => Returns []
  | _ :: _ =>
      try_catch
        (bind (JSON_parse trimmedContent)
           (λ parsed,
              Returns match parsed with
                      | JArray elements => elements
                      | _ => [parsed]
                      end))
        (parse_lines (split_lines trimmedContent) [])
  end.

Section Run.

(** How the engine prints the numbers that the model keeps as written. *)
Variable print_literal : jsstring → jsstring.

(** The clock: [now k] is what the call of [new Date()] that comes after
    [k] earlier calls yields. *)
Variable now : nat → Z.

(** The loop that fills [jsonFiles]. [isFromToday] is only called, and the
    clock only read, for a name that ends with ".json". *)
Fixpoint select (k : nat) (files : list RemoteObject) : list FileWithDate :=
  match files with
  | [] => []
  | f :: rest =>
      if negb (endsWith (obj_name f) (str ".json")) then select k rest
      else if negb (isFromToday (now k) (obj_name f)) then select (S k) rest
      else {| file := f; created := timeCreated f; name := obj_name f |}
           :: select (S k) rest
  end.

(** [writeStream.write(chunk)]: the chunk goes to the end of the file. *)
Definition append (dir : directory) (path chunk : jsstring) : directory :=
  <[path := default [] (dir !! path) ++ chunk]> dir.

(** [for (const jsonObject of jsonData) writeStream.write(...)] *)
Definition write_values (jsonData : list value) (st : directory * list effect)
    : directory * list effect :=
  foldl (λ st v,
           let chunk := stringify print_literal v ++ [LF] in
           (append st.1 TODAY_FILE chunk, st.2 ++ [Write TODAY_FILE chunk]))
    st jsonData.

(** The body of the loop over the sorted files. A rejected download is
    caught and the loop goes on. *)
Definition process_file (st : directory * list effect) (fd : FileWithDate)
    : directory * list effect :=
  let st' := (st.1, st.2 ++ [Download (file fd)]) in
  match download (file fd) with
  | None => st'
  | Some rawText =>
      match trim rawText with
      | [] => st'
      | _ :: _ =>
          match parseJsonContent rawText with
          | Returns [] => st'
          | Returns jsonData => write_values jsonData st'
          | Throws => st'
          end
      end
  end.

(** One run over the listing [files] of the bucket, from the directory
    [dir]: the directory after the run and the trace of the run. The first
    reading of the clock, [now 0], only goes to the console. *)
Definition processLogs (files : list RemoteObject) (dir : directory)
    : directory * list effect :=
  let jsonFiles := select 1 files in
  match jsonFiles with
  | [] => (dir, [])
  | _ :: _ =>
      let sorted := stable_sort_by created jsonFiles in
      let opened := (<[TODAY_FILE := []]> dir, [CreateWriteStream TODAY_FILE]) in
      let st := foldl process_file opened sorted in
      (st.1, st.2 ++ [End TODAY_FILE])
  end.

End Run.

End Aggregate.

(** Vocabulary for the statements about the resolver. *)
Module ResolverSpec.
Import Index.

(** The text DD-MM-YYYY-S<digits>.json that a match covers. *)
Definition pattern_text (c : Captures) : jsstring :=
  cap_day c ++ str "-" ++ cap_month c ++ str "-" ++ cap_year c ++ str "-S"
  ++ cap_sequence c ++ str ".json".

Definition all_digits (s : jsstring) : Prop := forallb is_digit s = true.

(** Two digits, two digits, four digits and at least one digit. *)
Definition well_formed (c : Captures) : Prop :=
  length (cap_day c) = 2%nat ∧ all_digits (cap_day c)
  ∧ length (cap_month c) = 2%nat ∧ all_digits (cap_month c)
  ∧ length (cap_year c) = 4%nat ∧ all_digits (cap_year c)
  ∧ cap_sequence c ≠ [] ∧ all_digits (cap_sequence c).

(** The characters of a pattern text: before the S only digits and dashes,
    the S at index 11, after it only digits and the characters of ".json". *)
Definition head_char (c : N) : bool := is_digit c || (c =? 45)%N.

Definition double_max (a b : double) : double := if double_gt a b then a else b.

(** The lexicographic order on (date, sequence). *)
Definition lex_le (a b : Z * double) : Prop :=
  a.1 < b.1 ∨ (a.1 = b.1 ∧ double_le a.2 b.2).

Section WithTimeZone.

Variable tz : TimeZone.

(** What one directory entry contributes: [Some (date, sequence)] when its
    name ends with ".json" and the pattern matches somewhere in it. *)
Definition entry_of (f : jsstring) : option (Z * double) :=
  if endsWith f (str ".json") then
    m ← regex_match f;
    Some (Date_local tz (parseInt (cap_year m)) (parseInt (cap_month m) - 1)
            (parseInt (cap_day m)),
          to_double (parseInt (cap_sequence m)))
  else None.

(** The update of the running maximum by one matching entry. *)
Definition update (st : scan_state) (e : Z * double) : scan_state :=
  match st.1 with
  | None => (Some e.1, e.2)
  | Some latestDate =>
      if e.1 >? latestDate then (Some e.1, e.2)
      else if (e.1 =? latestDate) && double_gt e.2 st.2 then (st.1, e.2)
      else st
  end.

(** The state is the greatest of the entries seen. *)
Definition is_max (st : scan_state) (es : list (Z * double)) : Prop :=
  match st.1 with
  | None => es = []
  | Some d => (d, st.2) ∈ es ∧ ∀ e, e ∈ es → lex_le e (d, st.2)
  end.

End WithTimeZone.

End ResolverSpec.

(** Vocabulary for the statements about the sync. *)
Module SyncSpec.
Import Index.

(** The object is written to a file: its download succeeds and its trimmed
    contents are not empty. *)
Definition stored (fd : FileWithDate) : bool :=
  match download (file fd) with
  | Some contents => match trim contents with [] => false | _ :: _ => true end
  | None => false
  end.

(** The names of the files written along a trace, and the objects
    downloaded along it, in order. *)
Definition written_paths (tr : list effect) : list jsstring :=
  omap (λ e, match e with WriteFile path _ => Some path | Download _ => None end) tr.

Definition downloaded (tr : list effect) : list RemoteObject :=
  omap (λ e, match e with Download o => Some o | WriteFile _ _ => None end) tr.

(** What the loop over one date group does. *)
Definition group_trace (dateStr : jsstring) (dateFiles : list FileWithDate) : list effect :=
  (process_from dateStr 0 dateFiles (∅, [])).2.

(** Names numbered 0, 1, 2, ... without a gap. *)
Definition numbered_from_zero (dateStr : jsstring) (paths : list jsstring) : Prop :=
  paths = sequence_file dateStr <$> seq 0 (length paths).

(** Ascending creation instants. *)
Definition ascending (l : list FileWithDate) : Prop :=
  StronglySorted (λ a b, created a ≤ created b) l.

(** The writes of a trace, replayed on a directory. *)
Definition apply_writes (tr : list effect) (dir : directory) : directory :=
  foldl (λ d e, match e with WriteFile path data => <[path := data]> d | Download _ => d end)
    dir tr.

(** The date groups of a run. *)
Definition groups_of (tz : TimeZone) (files : list RemoteObject) (dir : directory)
    : list (jsstring * list FileWithDate) :=
  group_by_date tz
    (sort_by_created (collect (getLatestProcessedFile tz (readdirSync dir)) files)).

(** An object that downloads. *)
Definition obj (n : string) (t : Z) (c : string) : RemoteObject :=
  {| obj_name := str n; timeCreated := t; download := Some (str c) |}.

(** Two objects of 7 March 2024, the earlier one blank. *)
Definition blank_then_full : list RemoteObject :=
  [ {| obj_name := str "logs/a.json"; timeCreated := Date_UTC 2024 2 7 10 0;
       download := Some (str "  ") |};
    {| obj_name := str "logs/b.json"; timeCreated := Date_UTC 2024 2 7 11 0;
       download := Some (dq "{'b':1}") |} ].

(** Two objects of 7 March 2024, the earlier one created at midnight sharp. *)
Definition midnight_then_morning : list RemoteObject :=
  [ {| obj_name := str "logs/a.json"; timeCreated := Date_UTC 2024 2 7 0 0;
       download := Some (dq "{'a':1}") |};
    {| obj_name := str "logs/b.json"; timeCreated := Date_UTC 2024 2 7 10 0;
       download := Some (dq "{'b':1}") |} ].

End SyncSpec.

(** Vocabulary for the statements about the aggregation. *)
Module AggregateSpec.
Import Aggregate.

(** The values of the lines that parse, blank lines left aside. *)
Definition line_values (lines : list jsstring) : list value :=
  omap (λ line,
          match trim line with
          | [] => None
          | (_ :: _) as trimmedLine =>
              match JSON_parse trimmedLine with
              | Returns v => Some v
              | Throws => None
              end
          end) lines.

(** The object {"k": n}. *)
Definition single (k : string) (n : Z) : value := JObject [(str k, JNumber (Int n))].

(** The lines that one object adds to the combined file. *)
Definition lines_of (print_literal : jsstring → jsstring) (fd : FileWithDate)
    : list jsstring :=
  match download (file fd) with
  | None => []
  | Some rawText =>
      match trim rawText with
      | [] => []
      | _ :: _ =>
          match parseJsonContent rawText with
          | Returns jsonData => (λ v, stringify print_literal v ++ [LF]) <$> jsonData
          | Throws => []
          end
      end
  end.

(** Two digits. *)
Definition two_digits (n : Z) : jsstring := [digit_char (n / 10); digit_char (n mod 10)].

(** [f] holds on the [n] integers from [start] on. *)
Fixpoint forall_range (f : Z → bool) (start : Z) (n : nat) : bool :=
  match n with
  | O => true
  | S n' => f start && forall_range f (start + 1) n'
  end.

(** Month and day of the month, out of the day of a 400-year era, are in
    range. *)
Definition month_day_in_range (doe : Z) : bool :=
  let yoe := (doe - doe / 1460 + doe / 36524 - doe / 146096) / 365 in
  let doy := doe - (365 * yoe + yoe / 4 - yoe / 100) in
  let mp := (5 * doy + 2) / 153 in
  let d := doy - (153 * mp + 2) / 5 + 1 in
  let m := if mp <? 10 then mp + 3 else mp - 9 in
  (1 <=? m) && (m <=? 12) && (1 <=? d) && (d <=? 31).

(** Padding to two places gives the two digits. *)
Definition pads_to_two_digits (n : Z) : bool :=
  bool_decide (padStart (Number_toString n) 2 (str "0") = two_digits n).

(** The objects downloaded along a trace, in order. *)
Definition downloaded (tr : list effect) : list RemoteObject :=
  omap (λ e, match e with Download o => Some o | _ => None end) tr.

(** The name ends with ".json" and holds the fragment. *)
Definition matches (fragment : jsstring) (o : RemoteObject) : bool :=
  endsWith (obj_name o) (str ".json") && includes (obj_name o) fragment.

(** A bucket without any object of 7 March 2024, and one with two. *)
Definition other_days : list RemoteObject :=
  [ {| obj_name := str "logs/2024/03/06/a.json"; timeCreated := Date_UTC 2024 2 6 9 0;
       download := Some (dq "{'x':1}") |};
    {| obj_name := str "logs/2024/03/07/notes.txt"; timeCreated := Date_UTC 2024 2 7 9 0;
       download := Some (str "hello") |} ].

(** An object holding the single document {"x":1}, and one holding the two
    lines {"y":2} and {"y":3}. *)
Definition single_doc (n : jsstring) (t : Z) : RemoteObject :=
  {| obj_name := n; timeCreated := t; download := Some (dq "{'x':1}") |}.

Definition two_lines (n : jsstring) (t : Z) : RemoteObject :=
  {| obj_name := n; timeCreated := t;
     download := Some (dq "{'y':2}" ++ [LF] ++ dq "{'y':3}") |}.

(** Noon of 7 March 2024, UTC. *)
Definition noon : Z := Date_UTC 2024 2 7 12 0.

End AggregateSpec.

(** Vocabulary for the statements about texts. *)
Module TextSpec.

(** Nothing but white space. *)
Definition blank (s : jsstring) : Prop := forallb is_white s = true.

(** No line feed. *)
Definition no_line_feed (s : jsstring) : Prop := LF ∉ s.

End TextSpec.

(** Vocabulary for the statements about dates in file names. *)
Module DateSpec.
Import Index AggregateSpec.

(** The day of a 400-year era is found again from its year, month and day. *)
Definition era_day_round_trip (doe : Z) : bool :=
  let yoe := (doe - doe / 1460 + doe / 36524 - doe / 146096) / 365 in
  let doy := doe - (365 * yoe + yoe / 4 - yoe / 100) in
  let mp := (5 * doy + 2) / 153 in
  let d := doy - (153 * mp + 2) / 5 + 1 in
  let m := if mp <? 10 then mp + 3 else mp - 9 in
  (0 <=? yoe) && (yoe <=? 399)
  && (yoe * 365 + yoe / 4 - yoe / 100
      + ((153 * (if m >? 2 then m - 3 else m + 9) + 2) / 5 + d - 1) =? doe).

(** A year from 1000 to 9999 prints as four digits. *)
Definition prints_four_digits (y : Z) : bool :=
  bool_decide (length (Number_toString y) = 4%nat) && forallb is_digit (Number_toString y).

(** The local day of an instant, as a day number. *)
Definition local_day (tz : TimeZone) (t : Z) : Z := Day (LocalTime tz t).

(** The local day of an instant, as the instant of its local midnight. *)
Definition local_midnight (tz : TimeZone) (t : Z) : Z :=
  UTC tz (Day (LocalTime tz t) * msPerDay).

(** The captures that the pattern takes from the name the sync writes for
    the index [i] and the day of the instant [t]. *)
Definition captures_of (tz : TimeZone) (t : Z) (i : nat) : Captures :=
  {| cap_day := two_digits (getDate tz t);
     cap_month := two_digits (getMonth tz t + 1);
     cap_year := Number_toString (getFullYear tz t);
     cap_sequence := Number_toString (Z.of_nat i) |}.

End DateSpec.

(** Vocabulary for the statements about the date groups of the sync. *)
Module GroupSpec.
Import Index.

(** The entry that the filter loop pushes for an object. *)
Definition as_file (o : RemoteObject) : FileWithDate :=
  {| file := o; created := timeCreated o; name := obj_name o |}.

(** The files of the group of a date, none when the date has no group. *)
Fixpoint files_of (k : jsstring) (groups : list (jsstring * list FileWithDate))
    : list FileWithDate :=
  match groups with
  | [] => []
  | (k', xs) :: rest => if decide (k' = k) then xs else files_of k rest
  end.

(** The kept objects of a run, sorted. *)
Definition sorted_of (tz : TimeZone) (files : list RemoteObject) (dir : directory)
    : list FileWithDate :=
  sort_by_created (collect (getLatestProcessedFile tz (readdirSync dir)) files).

End GroupSpec.

(** Vocabulary for the statements about the combined file. *)
Module CombinedSpec.
Import Aggregate.

(** The entry that the filter loop pushes for an object. *)
Definition as_today_file (o : RemoteObject) : FileWithDate :=
  {| file := o; created := timeCreated o; name := obj_name o |}.

(** The values that one object adds to the combined file. *)
Definition values_of (fd : FileWithDate) : list value :=
  match download (file fd) with
  | None => []
  | Some rawText =>
      match trim rawText with
      | [] => []
      | _ :: _ =>
          match parseJsonContent rawText with
          | Returns jsonData => jsonData
          | Throws => []
          end
      end
  end.

(** The text of the combined file that holds the values [vs]. *)
Definition lines_text (print_literal : jsstring → jsstring) (vs : list value)
    : jsstring :=
  concat ((λ v, stringify print_literal v ++ [LF]) <$> vs).

End CombinedSpec.

(** Vocabulary for the statements about reading back what was printed. *)
Module ReadBackSpec.

(** No number of the value is kept as written: all are integers below 2^53
    in magnitude. *)
Fixpoint integral (v : value) : bool :=
  match v with
  | JNumber (Lit _) => false
  | JArray elements => forallb integral elements
  | JObject properties => forallb (λ p, integral p.2) properties
  | _ => true
  end.

(** The keys that are array indices come first, in ascending order from
    above [lo], the other keys after them. *)
Fixpoint indices_then_names (lo : Z) (ks : list jsstring) : bool :=
  match ks with
  | [] => true
  | k :: rest =>
      match array_index k with
      | Some n => (lo <? n) && indices_then_names n rest
      | None => forallb (λ k', bool_decide (array_index k' = None)) rest
      end
  end.

(** The order in which JavaScript enumerates the keys of an object, no key
    twice. *)
Definition enumeration_order (ks : list jsstring) : bool :=
  bool_decide (NoDup ks) && indices_then_names (-1) ks.

(** A value as [JSON.parse] builds it: the integers are below 2^53 in
    magnitude and the properties of every object are in enumeration
    order. *)
Fixpoint canonical (v : value) : bool :=
  match v with
  | JNumber (Int z) => Z.abs z <? 2 ^ 53
  | JArray elements => forallb canonical elements
  | JObject properties =>
      enumeration_order properties.*1 && forallb (λ p, canonical p.2) properties
  | _ => true
  end.

(** What may follow a number: not a digit, a dot or an exponent mark. *)
Definition delimited (rest : jsstring) : bool :=
  match rest with
  | [] => true
  | c :: _ => negb (is_digit c || (c =? 46) || (c =? 101) || (c =? 69))%N
  end.

(** The first character of a printed value. *)
Definition starts_value (c : N) : bool :=
  is_digit c
  || ((c =? 45) || (c =? 34) || (c =? 91) || (c =? 123) || (c =? 110) || (c =? 116)
      || (c =? 102))%N.

(** The last character of a printed value. *)
Definition ends_value (c : N) : bool :=
  is_digit c
  || ((c =? 34) || (c =? 93) || (c =? 125) || (c =? 108) || (c =? 101))%N.

(** The printed value, whatever follows it that is not part of a number, is
    read back as [v], within some budget. *)
Definition reads_back (print_literal : jsstring → jsstring) (v : value) : Prop :=
  ∀ rest, delimited rest = true →
    ∃ fuel, parse_value fuel (stringify print_literal v ++ rest) = Ok v rest.

(** The lines joined by line feeds. *)
Fixpoint join_lines (lines : list jsstring) : jsstring :=
  match lines with
  | [] => []
  | [line] => line
  | line :: rest => line ++ LF :: join_lines rest
  end.

(** What [parseJsonContent] makes of the values it parsed from a whole
    text: a single array stands for its elements. *)
Definition unwrapped (vs : list value) : list value :=
  match vs with
  | [JArray elements] => elements
  | _ => vs
  end.

End ReadBackSpec.

(** Vocabulary for the end-to-end scenario of the sync. *)
Module ScenarioSpec.
Import Index.

(** The end-to-end scenario of the specification: the directory holds the
    two files of 6 March 2024, the bucket the two objects they were written
    from and one object of 7 March. *)
Definition scenario_directory : directory :=
  {[ str "06-03-2024-S0.json" := dq "{'a':1}"; str "06-03-2024-S1.json" := dq "{'b':1}" ]}.

Definition scenario_first : RemoteObject :=
  {| obj_name := str "logs/a.json"; timeCreated := Date_UTC 2024 2 6 10 0;
     download := Some (dq "{'a':1}") |}.

Definition scenario_second : RemoteObject :=
  {| obj_name := str "logs/b.json"; timeCreated := Date_UTC 2024 2 6 11 0;
     download := Some (dq "{'b':1}") |}.

Definition scenario_third : RemoteObject :=
  {| obj_name := str "logs/c.json"; timeCreated := Date_UTC 2024 2 7 9 0;
     download := Some (dq "{'c':1}") |}.

Definition scenario_bucket : list RemoteObject :=
  [scenario_first; scenario_second; scenario_third].

End ScenarioSpec.

(** * Properties *)

Example str_abc : str "aZ0" = [97; 90; 48]%N.
Proof. reflexivity. Qed.

Example dq_key : dq "{'a':1}" = [123; 34; 97; 34; 58; 49; 125]%N.
Proof. reflexivity. Qed.

Example trim_both : trim (str "  x y " ++ [LF]) = str "x y".
Proof. reflexivity. Qed.

Example split_two : split_lines (str "ab" ++ [LF] ++ str "c") = [str "ab"; str "c"].
Proof. reflexivity. Qed.

Example split_empty : split_lines [] = [[]].
Proof. reflexivity. Qed.

Example pad_one : padStart (str "7") 2 (str "0") = str "07".
Proof. reflexivity. Qed.

Example pad_full : padStart (str "12") 2 (str "0") = str "12".
Proof. reflexivity. Qed.

Example toString_2024 : Number_toString 2024 = str "2024".
Proof. reflexivity. Qed.

Example toString_neg : Number_toString (-5) = str "-5".
Proof. reflexivity. Qed.

Example toString_0 : Number_toString 0 = str "0".
Proof. reflexivity. Qed.

Example includes_mid : includes (str "logs/2024/03/07/a.json") (str "2024/03/07") = true.
Proof. reflexivity. Qed.

Example endsWith_json : endsWith (str "a.json") (str ".json") = true.
Proof. reflexivity. Qed.

Example civil_epoch : civil_from_days 0 = (1970, 1, 1).
Proof. reflexivity. Qed.

Example civil_leap_day : civil_from_days (days_from_civil 2024 2 29) = (2024, 2, 29).
Proof. reflexivity. Qed.

Example civil_before_epoch : civil_from_days (-1) = (1969, 12, 31).
Proof. reflexivity. Qed.

Example MakeDay_2024_03_07 : MakeDay 2024 2 7 = 19789.
Proof. reflexivity. Qed.

(** Month 13 and day 0 roll over as in [new Date(2024, 12, 0)]. *)
Example MakeDay_rollover : civil_from_days (MakeDay 2024 12 0) = (2024, 12, 31).
Proof. reflexivity. Qed.

Example to_double_exact : to_double 9007199254740991 = Fin 9007199254740991.
Proof. reflexivity. Qed.

Example to_double_tie : to_double 9007199254740993 = Fin 9007199254740992.
Proof. reflexivity. Qed.

Example to_double_up : to_double 9007199254740995 = Fin 9007199254740996.
Proof. reflexivity. Qed.

Example to_double_inf : to_double (10 ^ 309) = PosInf.
Proof. vm_compute. reflexivity. Qed.

Example to_double_big : to_double (10 ^ 23) = Fin 99999999999999991611392.
Proof. vm_compute. reflexivity. Qed.

Module IndexExamples.
Import Index SyncSpec.

Example match_plain :
  regex_match (str "07-03-2024-S3.json")
  = Some {| cap_day := str "07"; cap_month := str "03"; cap_year := str "2024";
            cap_sequence := str "3" |}.
Proof. reflexivity. Qed.

Example match_none : regex_match (str "07-03-2024.json") = None.
Proof. reflexivity. Qed.

Example latest_two :
  getLatestProcessedFile utc_zone
    [str "06-03-2024-S0.json"; str "readme.txt"; str "06-03-2024-S1.json"]
  = Some {| date := Date_UTC 2024 2 6 0 0; sequence := Fin 1 |}.
Proof. vm_compute. reflexivity. Qed.

Example formatDate_ex : formatDate utc_zone (Date_UTC 2024 2 7 10 30) = str "07-03-2024".
Proof. vm_compute. reflexivity. Qed.

(** An object created on the day of the watermark, after midnight, is taken
    again. *)
Example run_ex :
  (downloadAndSaveJSON utc_zone
     [obj "b.json" (Date_UTC 2024 2 7 11 0) "B"; obj "a.json" (Date_UTC 2024 2 7 10 0) "A";
      obj "c.json" (Date_UTC 2024 2 6 10 0) "C"]
     {[ str "06-03-2024-S0.json" := str "old" ]}).2
  = [Download (obj "c.json" (Date_UTC 2024 2 6 10 0) "C"); WriteFile (str "06-03-2024-S0.json") (str "C");
     Download (obj "a.json" (Date_UTC 2024 2 7 10 0) "A"); WriteFile (str "07-03-2024-S0.json") (str "A");
     Download (obj "b.json" (Date_UTC 2024 2 7 11 0) "B"); WriteFile (str "07-03-2024-S1.json") (str "B")].
Proof. vm_compute. reflexivity. Qed.

End IndexExamples.

(** ** Sorting *)

Module SortFacts.

Lemma insert_sorted_Permutation {A} (key : A → Z) x l :
  insert_sorted key x l ≡ₚ x :: l.
Proof.
  induction l as [| y l IH]; simpl; [done |].
  destruct (key x <=? key y); [done |].
  rewrite IH. apply Permutation_swap.
Qed.

Lemma stable_sort_by_Permutation {A} (key : A → Z) l : stable_sort_by key l ≡ₚ l.
Proof.
  unfold stable_sort_by.
  induction l as [| x l IH]; simpl; [done |].
  by rewrite insert_sorted_Permutation, IH.
Qed.

End SortFacts.

Import SortFacts.

(** ** The watermark resolver *)

Module Resolver.
Import Index ResolverSpec.

(** Order on the doubles that sequence numbers are. *)
Lemma double_le_refl a : double_le a a.
Proof. destruct a; unfold double_le; simpl; [lia | done]. Qed.

Lemma double_le_trans a b c : double_le a b → double_le b c → double_le a c.
Proof. unfold double_le. destruct a, b, c; simpl; try done; lia. Qed.

Lemma double_gt_le a b : double_gt a b = true → double_le b a.
Proof. unfold double_le. destruct a, b; simpl; try done; lia. Qed.

Lemma double_le_antisym a b : double_le a b → double_le b a → a = b.
Proof.
  unfold double_le. destruct a, b; simpl; try done.
  intros. f_equal. lia.
Qed.

Lemma lex_le_refl a : lex_le a a.
Proof. right. split; [done | apply double_le_refl]. Qed.

Lemma lex_le_trans a b c : lex_le a b → lex_le b c → lex_le a c.
Proof.
  unfold lex_le. intros [H1 | [H1 H1']] [H2 | [H2 H2']].
  - left. lia.
  - left. lia.
  - left. lia.
  - right. split; [lia | by eapply double_le_trans].
Qed.

Lemma lex_le_antisym a b : lex_le a b → lex_le b a → a = b.
Proof.
  destruct a as [d1 s1], b as [d2 s2]. unfold lex_le. simpl.
  intros [H1 | [H1 H1']] [H2 | [H2 H2']]; try lia.
  f_equal; [done | by apply double_le_antisym].
Qed.

Section WithTimeZone.

Variable tz : TimeZone.

Lemma visit_entry st f :
  visit tz st f = match entry_of tz f with Some e => update st e | None => st end.
Proof.
  unfold visit, entry_of.
  destruct (endsWith f (str ".json")); simpl; [| done].
  destruct (regex_match f); done.
Qed.

Lemma scan_entries files st :
  foldl (visit tz) st files = foldl update st (omap (entry_of tz) files).
Proof.
  revert st. induction files as [| f files IH]; intros st; simpl; [done |].
  rewrite IH, visit_entry. destruct (entry_of tz f); done.
Qed.

Lemma update_is_max st es e :
  is_max st es → is_max (update st e) (es ++ [e]).
Proof.
  destruct st as [[d |] s], e as [d' s']; unfold is_max, update; simpl.
  - intros [Hin Hub].
    destruct (d' >? d) eqn:Hgt; simpl.
    + split; [set_solver |].
      intros e [He | He%list_elem_of_singleton]%elem_of_app.
      * eapply lex_le_trans; [by apply Hub |]. left. simpl. lia.
      * subst. apply lex_le_refl.
    + destruct (d' =? d) eqn:Heq; simpl.
      * apply Z.eqb_eq in Heq. subst d'.
        destruct (double_gt s' s) eqn:Hs; simpl.
        -- split; [set_solver |].
           intros e [He | He%list_elem_of_singleton]%elem_of_app.
           ++ eapply lex_le_trans; [by apply Hub |].
              right. split; [done | by apply double_gt_le].
           ++ subst. apply lex_le_refl.
        -- split; [set_solver |].
           intros e [He | He%list_elem_of_singleton]%elem_of_app.
           ++ by apply Hub.
           ++ subst. right. split; done.
      * split; [set_solver |].
        intros e [He | He%list_elem_of_singleton]%elem_of_app.
        -- by apply Hub.
        -- subst. left. simpl. lia.
  - intros ->. split; [set_solver |].
    intros e He%list_elem_of_singleton. subst. apply lex_le_refl.
Qed.

Lemma foldl_update_is_max es st seen :
  is_max st seen → is_max (foldl update st es) (seen ++ es).
Proof.
  revert st seen. induction es as [| e es IH]; intros st seen Hmax; simpl.
  - by rewrite app_nil_r.
  - replace (seen ++ e :: es) with ((seen ++ [e]) ++ es) by by rewrite <- app_assoc.
    apply IH. by apply update_is_max.
Qed.

Lemma resolver_greatest (files : list jsstring) :
  match getLatestProcessedFile tz files with
  | None => omap (entry_of tz) files = []
  | Some w =>
      (date w, sequence w) ∈ omap (entry_of tz) files
      ∧ ∀ e, e ∈ omap (entry_of tz) files → lex_le e (date w, sequence w)
  end.
Proof.
  unfold getLatestProcessedFile. rewrite scan_entries.
  pose proof (foldl_update_is_max (omap (entry_of tz) files) (None, Fin (-1)) []
                eq_refl) as Hmax.
  simpl in Hmax. unfold is_max in Hmax.
  destruct (foldl update (None, Fin (-1)) (omap (entry_of tz) files)) as [[d |] s];
    simpl in *; done.
Qed.

(** C2. Over any list of directory entries, [getLatestProcessedFile] returns
    nothing exactly when no entry matches, and otherwise the entry that is
    greatest in the lexicographic order on (date, sequence); on the way, a
    matching entry with a strictly later date replaces the running maximum
    with its own date and sequence, one with the same date leaves the greater
    of the two sequences, and one with an earlier date changes nothing. *)
Theorem getLatestProcessedFile_lex_max (files : list jsstring) :
  match getLatestProcessedFile tz files with
  | None => omap (entry_of tz) files = []
  | Some w =>
      (date w, sequence w) ∈ omap (entry_of tz) files
      ∧ ∀ e, e ∈ omap (entry_of tz) files → lex_le e (date w, sequence w)
  end
  ∧ ∀ (d0 : Z) (s0 : double) (f : jsstring) (d : Z) (s : double),
      entry_of tz f = Some (d, s) →
      visit tz (Some d0, s0) f
      = if d >? d0 then (Some d, s)
        else if d =? d0 then (Some d0, double_max s s0)
        else (Some d0, s0).
Proof.
  split.
  - apply resolver_greatest.
  - intros d0 s0 f d s Hf. rewrite visit_entry, Hf. unfold update, double_max. simpl.
    destruct (d >? d0); [done |].
    destruct (d =? d0); simpl; [| done].
    destruct (double_gt s s0); done.
Qed.

(** The listing order of the directory does not matter. *)
Lemma getLatestProcessedFile_Permutation (files files' : list jsstring) :
  files ≡ₚ files' →
  getLatestProcessedFile tz files = getLatestProcessedFile tz files'.
Proof.
  intros Hp.
  assert (Hp' : omap (entry_of tz) files ≡ₚ omap (entry_of tz) files')
    by by apply omap_Permutation.
  pose proof (resolver_greatest files) as H1.
  pose proof (resolver_greatest files') as H2.
  destruct (getLatestProcessedFile tz files) as [[d1 s1] |],
           (getLatestProcessedFile tz files') as [[d2 s2] |]; simpl in *.
  - destruct H1 as [Hin1 Hub1], H2 as [Hin2 Hub2].
    assert (Heq : (d1, s1) = (d2, s2)).
    { apply lex_le_antisym.
      - apply Hub2. by rewrite <- Hp'.
      - apply Hub1. by rewrite Hp'. }
    by inversion Heq.
  - destruct H1 as [Hin1 _]. rewrite Hp', H2 in Hin1. by apply elem_of_nil in Hin1.
  - destruct H2 as [Hin2 _]. rewrite <- Hp', H1 in Hin2. by apply elem_of_nil in Hin2.
  - done.
Qed.

End WithTimeZone.

(** Of the entries of 6 March, sequence 5, and 7 March, sequence 3, the
    later date wins. *)
Lemma getLatestProcessedFile_lex_max_witness :
  getLatestProcessedFile utc_zone
    [str "06-03-2024-S5.json"; str "notes.txt"; str "07-03-2024-S3.json"]
  = Some {| date := Date_UTC 2024 2 7 0 0; sequence := Fin 3 |}
  ∧ lex_le (Date_UTC 2024 2 6 0 0, Fin 5) (Date_UTC 2024 2 7 0 0, Fin 3).
Proof.
  pose proof (getLatestProcessedFile_lex_max utc_zone
                [str "06-03-2024-S5.json"; str "notes.txt"; str "07-03-2024-S3.json"])
    as [H _].
  split; [reflexivity |].
  apply (proj2 H). vm_compute. left.
Defined.

End Resolver.

(** ** The file name pattern *)

Module Pattern.
Import Index ResolverSpec.

Lemma startsWith_app (p s : jsstring) : startsWith (p ++ s) p = true.
Proof.
  induction p as [| a p IH]; simpl; [done |].
  by rewrite N.eqb_refl, IH.
Qed.


Lemma expect_app (lit s : jsstring) : expect lit (lit ++ s) = Some s.
Proof.
  unfold expect. rewrite startsWith_app. by rewrite drop_app_length.
Qed.


Lemma take_digits_app (ds rest : jsstring) :
  all_digits ds → take_digits (length ds) (ds ++ rest) = Some (ds, rest).
Proof.
  unfold all_digits. induction ds as [| c ds IH]; simpl; [done |].
  intros [Hc Hds]%andb_true_iff. rewrite Hc, IH by done. done.
Qed.


Lemma span_digits_app (ds rest : jsstring) :
  all_digits ds → (∀ c t, rest = c :: t → is_digit c = false) →
  span_digits (ds ++ rest) = (ds, rest).
Proof.
  unfold all_digits. intros Hds Hrest.
  induction ds as [| c ds IH]; simpl.
  - destruct rest as [| c t]; simpl; [done |]. by rewrite (Hrest c t).
  - simpl in Hds. apply andb_true_iff in Hds as [Hc Hds].
    rewrite Hc, IH by done. done.
Qed.

Lemma span_digits_inv (s ds rest : jsstring) :
  span_digits s = (ds, rest) → s = ds ++ rest ∧ all_digits ds.
Proof.
  unfold all_digits. revert ds rest.
  induction s as [| c t IH]; intros ds rest H; simpl in H.
  - by inversion H.
  - destruct (is_digit c) eqn:Hc.
    + destruct (span_digits t) as [ds' rest'] eqn:Ht.
      inversion H; subst. destruct (IH _ _ eq_refl) as [-> Hds].
      simpl. by rewrite Hc, Hds.
    + by inversion H.
Qed.

(** The pattern matches at the head of its own text, whatever follows. *)
Lemma match_here_text (c : Captures) (rest : jsstring) :
  well_formed c → match_here (pattern_text c ++ rest) = Some c.
Proof.
  destruct c as [dd mm yyyy ds].
  intros (Hd & Hdd & Hm & Hmm & Hy & Hyy & Hne & Hds).
  cbn [cap_day cap_month cap_year cap_sequence] in *.
  unfold match_here, pattern_text.
  cbn [cap_day cap_month cap_year cap_sequence].
  rewrite <- !app_assoc.
  rewrite <- Hd at 1. rewrite take_digits_app by done.
  cbn -[take_digits span_digits expect str]. rewrite expect_app.
  cbn -[take_digits span_digits expect str].
  rewrite <- Hm at 1. rewrite take_digits_app by done.
  cbn -[take_digits span_digits expect str]. rewrite expect_app.
  cbn -[take_digits span_digits expect str].
  rewrite <- Hy at 1. rewrite take_digits_app by done.
  cbn -[take_digits span_digits expect str]. rewrite expect_app.
  cbn -[take_digits span_digits expect str].
  rewrite span_digits_app; [| done | by intros ? ? [= <- _]].
  destruct ds as [| d ds']; [done |].
  by rewrite expect_app.
Qed.


Lemma regex_match_eq (s : jsstring) :
  regex_match s
  = match match_here s with
    | Some c => Some c
    | None => match s with [] => None | _ :: t => regex_match t end
    end.
Proof. by destruct s. Qed.








End Pattern.

(** ** The incremental sync *)

Module Sync.
Import Index SyncSpec.

Lemma elem_of_concat {A} (x : A) (ls : list (list A)) :
  x ∈ concat ls ↔ ∃ l, x ∈ l ∧ l ∈ ls.
Proof.
  induction ls as [| l ls IH]; simpl.
  - split; [by intros ?%elem_of_nil | by intros (? & _ & ?%elem_of_nil)].
  - rewrite elem_of_app, IH. split.
    + intros [H | (l' & ? & ?)]; [exists l; split; [done | left] |].
      exists l'. split; [done | by right].
    + intros (l' & Hx & [-> | H]%elem_of_cons); [by left |].
      right. by exists l'.
Qed.

Lemma process_file_trace dateStr i fd st :
  (process_file dateStr i fd st).2 = st.2 ++ (process_file dateStr i fd (∅, [])).2.
Proof.
  unfold process_file. destruct (download (file fd)) as [c |]; [| done].
  destruct (trim c); done.
Qed.

Lemma process_from_trace dateStr fds i st :
  (process_from dateStr i fds st).2 = st.2 ++ (process_from dateStr i fds (∅, [])).2.
Proof.
  revert i st. induction fds as [| fd fds IH]; intros i st; simpl.
  - by rewrite app_nil_r.
  - rewrite IH, process_file_trace.
    rewrite (IH _ (process_file dateStr i fd (∅, []))).
    by rewrite app_assoc.
Qed.

Lemma process_groups_trace groups st :
  (process_groups groups st).2 = st.2 ++ concat ((λ g, group_trace g.1 g.2) <$> groups).
Proof.
  unfold process_groups. revert st.
  induction groups as [| g groups IH]; intros st; simpl.
  - by rewrite app_nil_r.
  - rewrite IH, process_from_trace. by rewrite app_assoc.
Qed.

(** Every object of a group is downloaded, once, in the order of the group. *)
Lemma downloaded_from dateStr fds i :
  downloaded (process_from dateStr i fds (∅, [])).2 = file <$> fds.
Proof.
  revert i. induction fds as [| fd fds IH]; intros i; simpl; [done |].
  rewrite process_from_trace. unfold downloaded in *. rewrite omap_app, IH.
  unfold process_file. destruct (download (file fd)) as [c |]; [| done].
  destruct (trim c); done.
Qed.

(** The file written for an object carries the index of the object. *)
Lemma written_from dateStr fds i :
  written_paths (process_from dateStr i fds (∅, [])).2
  = omap (λ p, if stored p.2 then Some (sequence_file dateStr p.1) else None)
      (zip (seq i (length fds)) fds).
Proof.
  revert i. induction fds as [| fd fds IH]; intros i; simpl; [done |].
  rewrite process_from_trace. unfold written_paths in *. rewrite omap_app, IH.
  unfold process_file, stored. simpl.
  destruct (download (file fd)) as [c |]; [| done].
  destruct (trim c); done.
Qed.

Lemma sort_by_created_Permutation l : sort_by_created l ≡ₚ l.
Proof. apply stable_sort_by_Permutation. Qed.

Lemma insert_sorted_ascending x l :
  ascending l → ascending (insert_sorted created x l).
Proof.
  unfold ascending. induction l as [| y l IH]; intros Hl; simpl.
  - repeat constructor.
  - apply StronglySorted_cons in Hl as [Hy Hl].
    destruct (created x <=? created y) eqn:Hxy.
    + apply Z.leb_le in Hxy. constructor.
      * by apply StronglySorted_cons.
      * constructor; [done |].
        eapply Forall_impl; [exact Hy |]. simpl. intros; lia.
    + apply Z.leb_gt in Hxy. constructor; [by apply IH |].
      rewrite insert_sorted_Permutation. constructor; [lia | done].
Qed.

Lemma sort_by_created_ascending l : ascending (sort_by_created l).
Proof.
  unfold sort_by_created, stable_sort_by.
  induction l as [| x l IH]; simpl; [constructor |].
  by apply insert_sorted_ascending.
Qed.

Lemma group_push_concat key x groups :
  concat (snd <$> group_push key x groups) ≡ₚ concat (snd <$> groups) ++ [x].
Proof.
  induction groups as [| [k xs] groups IH]; simpl; [done |].
  destruct (decide (k = key)); simpl.
  - rewrite <- !app_assoc. f_equiv. apply Permutation_app_comm.
  - rewrite IH. by rewrite app_assoc.
Qed.

Lemma group_by_date_concat tz l :
  concat (snd <$> group_by_date tz l) ≡ₚ l.
Proof.
  unfold group_by_date.
  enough (H : ∀ groups,
    concat (snd <$> foldl (λ groups fd, group_push (formatDate tz (created fd)) fd groups)
                      groups l) ≡ₚ concat (snd <$> groups) ++ l) by apply (H []).
  induction l as [| x l IH]; intros groups; simpl.
  - by rewrite app_nil_r.
  - rewrite IH, group_push_concat. by rewrite <- app_assoc.
Qed.

Lemma group_push_elem key x groups g :
  g ∈ group_push key x groups →
  g ∈ groups ∨ g = (key, [x]) ∨ ∃ xs, (key, xs) ∈ groups ∧ g = (key, xs ++ [x]).
Proof.
  induction groups as [| [k xs] groups IH]; simpl.
  - intros ->%list_elem_of_singleton. by right; left.
  - destruct (decide (k = key)) as [-> |].
    + intros [-> | Hg]%elem_of_cons.
      * right; right. exists xs. split; [left | done].
      * left. by right.
    + intros [-> | Hg]%elem_of_cons; [left; left |].
      destruct (IH Hg) as [? | [? | (ys & ? & ?)]].
      * left. by right.
      * by right; left.
      * right; right. exists ys. split; [by right | done].
Qed.

(** A group holds objects of one formatted date, in the order of the sorted
    list, and is never empty. *)
Lemma group_by_date_elem tz l g :
  g ∈ group_by_date tz l →
  g.2 `sublist_of` l ∧ Forall (λ fd, formatDate tz (created fd) = g.1) g.2 ∧ g.2 ≠ [].
Proof.
  unfold group_by_date.
  enough (H : ∀ seen groups,
    (∀ g, g ∈ groups →
       g.2 `sublist_of` seen ∧ Forall (λ fd, formatDate tz (created fd) = g.1) g.2
       ∧ g.2 ≠ []) →
    ∀ g, g ∈ foldl (λ groups fd, group_push (formatDate tz (created fd)) fd groups)
               groups l →
       g.2 `sublist_of` seen ++ l ∧ Forall (λ fd, formatDate tz (created fd) = g.1) g.2
       ∧ g.2 ≠ []).
  { intros Hg. apply (H [] []); [| done]. intros ? Hin. by apply elem_of_nil in Hin. }
  induction l as [| x l IH]; intros seen groups Hinv g' Hg'; simpl in Hg'.
  - rewrite app_nil_r. by apply Hinv.
  - replace (seen ++ x :: l) with ((seen ++ [x]) ++ l) by by rewrite <- app_assoc.
    eapply IH; [| exact Hg'].
    intros h [Hh | [-> | (xs & Hxs & ->)]]%group_push_elem; simpl.
    + destruct (Hinv h Hh) as (? & ? & ?). split; [| done].
      by apply sublist_inserts_r.
    + split; [| split; [by repeat constructor | done]].
      apply sublist_inserts_l. done.
    + destruct (Hinv _ Hxs) as (Hsub & Hall & _). simpl in *.
      split; [by apply sublist_app |].
      split; [| by destruct xs].
      apply Forall_app. split; [done | by repeat constructor].
Qed.

Lemma ascending_sublist l k : l `sublist_of` k → ascending k → ascending l.
Proof.
  unfold ascending. induction 1 as [| x l k Hs IH | x l k Hs IH]; intros Hk.
  - constructor.
  - apply StronglySorted_cons in Hk as [Hx Hk]. constructor; [by apply IH |].
    eapply Forall_forall. intros y Hy. rewrite Forall_forall in Hx.
    apply Hx. by eapply elem_of_sublist.
  - apply StronglySorted_cons in Hk as [_ Hk]. by apply IH.
Qed.

Lemma downloaded_app tr1 tr2 :
  downloaded (tr1 ++ tr2) = downloaded tr1 ++ downloaded tr2.
Proof. apply omap_app. Qed.

Lemma written_paths_app tr1 tr2 :
  written_paths (tr1 ++ tr2) = written_paths tr1 ++ written_paths tr2.
Proof. apply omap_app. Qed.

Lemma downloaded_concat groups :
  downloaded (concat ((λ g, group_trace g.1 g.2) <$> groups))
  = file <$> concat (snd <$> groups).
Proof.
  induction groups as [| g groups IH]; [done |].
  rewrite !fmap_cons. cbn [concat]. rewrite downloaded_app, IH, fmap_app.
  f_equal. apply downloaded_from.
Qed.

Lemma downloaded_run tz files dir :
  downloaded (downloadAndSaveJSON tz files dir).2
  = file <$> concat (snd <$> groups_of tz files dir).
Proof.
  unfold downloadAndSaveJSON. rewrite process_groups_trace. simpl.
  apply downloaded_concat.
Qed.

(** The objects downloaded are the objects kept by the first loop. *)
Lemma downloaded_kept tz files dir :
  downloaded (downloadAndSaveJSON tz files dir).2
  ≡ₚ filter (λ o, keep (getLatestProcessedFile tz (readdirSync dir)) o = true) files.
Proof.
  rewrite downloaded_run. unfold groups_of.
  rewrite group_by_date_concat, sort_by_created_Permutation.
  unfold collect. rewrite <- list_fmap_compose.
  by rewrite list_fmap_id.
Qed.

(** What is written is the trimmed contents of a downloaded object. *)
Lemma written_data dateStr fds i path data :
  WriteFile path data ∈ (process_from dateStr i fds (∅, [])).2 →
  ∃ fd c, fd ∈ fds ∧ download (file fd) = Some c ∧ data = trim c.
Proof.
  revert i. induction fds as [| fd fds IH]; intros i; simpl.
  - intros H. by apply elem_of_nil in H.
  - rewrite process_from_trace. intros [H | H]%elem_of_app.
    + exists fd. unfold process_file in H.
      destruct (download (file fd)) as [c |] eqn:Hc; simpl in H.
      * exists c. split; [left | split; [done |]].
        destruct (trim c) eqn:Ht; simpl in H.
        -- apply list_elem_of_singleton in H. done.
        -- apply elem_of_cons in H as [H | H]; [done |].
           apply list_elem_of_singleton in H. by inversion H.
      * apply list_elem_of_singleton in H. done.
    + destruct (IH _ H) as (fd' & c & ? & ? & ?). exists fd', c.
      split; [by right | done].
Qed.

(** X24. The date of the watermark is an instant, the local midnight that
    begins the day read from the file name. The objects downloaded by a run
    are exactly the listed objects whose name ends with ".json" and whose
    creation instant is strictly later than that instant, all of them when
    there is no watermark; an object created at or before that instant is
    never downloaded, and a file is only ever written from the contents of a
    downloaded object. The objects created later on the day of the
    watermark are therefore downloaded again. *)
Theorem sync_skips_up_to_watermark (tz : TimeZone) (files : list RemoteObject)
    (dir : directory) :
  let lastProcessed := getLatestProcessedFile tz (readdirSync dir) in
  let trace := (downloadAndSaveJSON tz files dir).2 in
  (∀ o, Download o ∈ trace ↔
        o ∈ files ∧ endsWith (obj_name o) (str ".json") = true
        ∧ match lastProcessed with
          | Some w => date w < timeCreated o
          | None => True
          end)
  ∧ (∀ o w, lastProcessed = Some w → timeCreated o ≤ date w → Download o ∉ trace)
  ∧ (∀ path data, WriteFile path data ∈ trace →
       ∃ o c, Download o ∈ trace ∧ download o = Some c ∧ data = trim c).
Proof.
  intros lastProcessed trace.
  assert (Hdl : ∀ o, Download o ∈ trace ↔ o ∈ downloaded trace).
  { intros o. unfold downloaded. rewrite list_elem_of_omap. split.
    - intros H. by exists (Download o).
    - intros ([o' |] & H & [= ->]); done. }
  assert (Hkept : ∀ o, Download o ∈ trace ↔ o ∈ files ∧ keep lastProcessed o = true).
  { intros o. rewrite Hdl. unfold trace. rewrite downloaded_kept.
    rewrite list_elem_of_filter. fold lastProcessed. tauto. }
  split; [| split].
  - intros o. rewrite Hkept. unfold keep.
    destruct (endsWith (obj_name o) (str ".json")); simpl; [| intuition congruence].
    destruct lastProcessed as [w |]; simpl; [| tauto].
    rewrite negb_true_iff, Z.leb_gt. tauto.
  - intros o w Hw Hle. rewrite Hkept. unfold keep. rewrite Hw.
    intros [_ H]. apply andb_true_iff in H as [_ H].
    apply negb_true_iff, Z.leb_gt in H. lia.
  - intros path data H. unfold trace, downloadAndSaveJSON in H.
    rewrite process_groups_trace in H. simpl in H.
    apply elem_of_concat in H as (tr & H & Htr).
    apply list_elem_of_fmap in Htr as (g & -> & Hg).
    apply written_data in H as (fd & c & Hfd & Hc & ->).
    exists (file fd), c. split; [| done].
    rewrite Hdl. unfold trace. rewrite downloaded_run.
    apply list_elem_of_fmap_2, elem_of_concat. exists g.2.
    split; [done |]. by apply list_elem_of_fmap_2.
Qed.

(** With a file of 7 March 2024 in the directory, the object created at
    midnight of that day is not downloaded. *)
Lemma sync_skips_up_to_watermark_witness :
  Download {| obj_name := str "logs/a.json"; timeCreated := Date_UTC 2024 2 7 0 0;
              download := Some (dq "{'a':1}") |}
  ∉ (downloadAndSaveJSON utc_zone midnight_then_morning
       {[ str "07-03-2024-S0.json" := str "old" ]}).2.
Proof.
  pose proof (sync_skips_up_to_watermark utc_zone midnight_then_morning
                {[ str "07-03-2024-S0.json" := str "old" ]}) as (_ & H & _).
  apply (H _ {| date := Date_UTC 2024 2 7 0 0; sequence := Fin 0 |}).
  - by vm_compute.
  - by vm_compute.
Defined.

Lemma omap_all_stored dateStr fds i :
  forallb stored fds = true →
  omap (λ p : nat * FileWithDate,
          if stored p.2 then Some (sequence_file dateStr p.1) else None)
    (zip (seq i (length fds)) fds)
  = sequence_file dateStr <$> seq i (length fds).
Proof.
  revert i. induction fds as [| fd fds IH]; intros i H; simpl in *; [done |].
  apply andb_true_iff in H as [Hfd Hfds]. rewrite Hfd. simpl.
  f_equal. by apply IH.
Qed.

(** C3, as the code has it. The trace of a run is the traces of its date
    groups one after the other; in every group the objects come in ascending
    order of creation, and the file written for the object at index [i] of
    the group, skipped objects counted, is <date>-S<i>.json. Where no object
    of the group is skipped, the names written are numbered 0, 1, 2, ...
    without a gap. *)
Theorem sequence_number_is_position (tz : TimeZone) (files : list RemoteObject)
    (dir : directory) :
  (downloadAndSaveJSON tz files dir).2
  = concat ((λ g, group_trace g.1 g.2) <$> groups_of tz files dir)
  ∧ ∀ g, g ∈ groups_of tz files dir →
      ascending g.2
      ∧ written_paths (group_trace g.1 g.2)
        = omap (λ p : nat * FileWithDate,
                  if stored p.2 then Some (sequence_file g.1 p.1) else None)
            (zip (seq 0 (length g.2)) g.2)
      ∧ (forallb stored g.2 = true →
           length (written_paths (group_trace g.1 g.2)) = length g.2
           ∧ numbered_from_zero g.1 (written_paths (group_trace g.1 g.2))).
Proof.
  split.
  - unfold downloadAndSaveJSON. by rewrite process_groups_trace.
  - intros g Hg. unfold groups_of in Hg.
    apply group_by_date_elem in Hg as (Hsub & _ & _).
    split; [| split].
    + eapply ascending_sublist; [exact Hsub |]. apply sort_by_created_ascending.
    + apply written_from.
    + intros Hall. unfold numbered_from_zero, group_trace.
      rewrite written_from, omap_all_stored by done.
      rewrite length_fmap, length_seq. done.
Qed.

Lemma sequence_number_is_position_witness :
  written_paths
    (group_trace (str "07-03-2024")
       (sort_by_created (collect None midnight_then_morning)))
  = [str "07-03-2024-S0.json"; str "07-03-2024-S1.json"].
Proof.
  pose proof (sequence_number_is_position utc_zone midnight_then_morning ∅) as [_ H].
  specialize (H (str "07-03-2024", sort_by_created (collect None midnight_then_morning))).
  destruct H as (_ & _ & H).
  - vm_compute. left.
  - destruct (H eq_refl) as [_ Hn]. exact Hn.
Defined.

(** C3 as stated fails: an object that is skipped uses up its number. The
    blank object is first in its group, so the only file written is numbered
    1 and no file is numbered 0. *)
Lemma sequence_gap_counterexample :
  ((λ g : jsstring * list FileWithDate, (g.1, name <$> g.2))
     <$> groups_of utc_zone blank_then_full ∅)
  = [(str "07-03-2024", [str "logs/a.json"; str "logs/b.json"])]
  ∧ written_paths (downloadAndSaveJSON utc_zone blank_then_full ∅).2
    = [str "07-03-2024-S1.json"]
  ∧ ¬ numbered_from_zero (str "07-03-2024")
        (written_paths (downloadAndSaveJSON utc_zone blank_then_full ∅).2).
Proof.
  split; [by vm_compute |]. split; [by vm_compute |].
  unfold numbered_from_zero. vm_compute. intros H. by inversion H.
Qed.

Lemma apply_writes_app tr1 tr2 dir :
  apply_writes (tr1 ++ tr2) dir = apply_writes tr2 (apply_writes tr1 dir).
Proof. apply foldl_app. Qed.

Lemma process_file_dir dateStr i fd st :
  (process_file dateStr i fd st).1
  = apply_writes (process_file dateStr i fd (∅, [])).2 st.1.
Proof.
  unfold process_file. destruct (download (file fd)) as [c |]; [| done].
  destruct (trim c); done.
Qed.

Lemma process_from_dir dateStr fds i st :
  (process_from dateStr i fds st).1
  = apply_writes (process_from dateStr i fds (∅, [])).2 st.1.
Proof.
  revert i st. induction fds as [| fd fds IH]; intros i st; simpl; [done |].
  rewrite IH, process_file_dir.
  rewrite (process_from_trace _ _ _ (process_file dateStr i fd (∅, []))).
  by rewrite apply_writes_app.
Qed.

Lemma process_groups_dir groups st :
  (process_groups groups st).1
  = apply_writes (concat ((λ g, group_trace g.1 g.2) <$> groups)) st.1.
Proof.
  unfold process_groups. revert st.
  induction groups as [| g groups IH]; intros st; simpl; [done |].
  rewrite IH, process_from_dir. by rewrite apply_writes_app.
Qed.

Lemma apply_writes_download o tr dir :
  apply_writes (Download o :: tr) dir = apply_writes tr dir.
Proof. done. Qed.

Lemma apply_writes_write path data tr dir :
  apply_writes (WriteFile path data :: tr) dir = apply_writes tr (<[path := data]> dir).
Proof. done. Qed.

Lemma apply_writes_frame tr dir p :
  p ∉ written_paths tr → apply_writes tr dir !! p = dir !! p.
Proof.
  revert dir. induction tr as [| e tr IH]; intros dir Hp; [done |].
  destruct e as [o | path data].
  - rewrite apply_writes_download. by apply IH.
  - change (written_paths (WriteFile path data :: tr))
      with (path :: written_paths tr) in Hp.
    apply not_elem_of_cons in Hp as [Hne Hp].
    rewrite apply_writes_write, IH by done. by rewrite lookup_insert_ne.
Qed.

Lemma apply_writes_last tr dir p :
  p ∈ written_paths tr →
  ∃ data, apply_writes tr dir !! p = Some data ∧ WriteFile p data ∈ tr.
Proof.
  revert dir. induction tr as [| e tr IH]; intros dir Hp.
  - by apply elem_of_nil in Hp.
  - destruct e as [o | path data].
    + rewrite apply_writes_download.
      destruct (IH dir Hp) as (d & ? & ?). exists d. split; [done | by right].
    + change (written_paths (WriteFile path data :: tr))
        with (path :: written_paths tr) in Hp.
      rewrite apply_writes_write.
      destruct (decide (p ∈ written_paths tr)) as [Hin | Hout].
      * destruct (IH (<[path := data]> dir) Hin) as (d & ? & ?).
        exists d. split; [done | by right].
      * apply elem_of_cons in Hp as [-> | Hp]; [| done].
        exists data. split; [| left].
        rewrite apply_writes_frame by done. by rewrite lookup_insert_eq.
Qed.

Lemma written_paths_concat groups p :
  p ∈ written_paths (concat ((λ g, group_trace g.1 g.2) <$> groups)) →
  ∃ g, g ∈ groups ∧ p ∈ written_paths (group_trace g.1 g.2).
Proof.
  induction groups as [| g groups IH]; [by intros ?%elem_of_nil |].
  rewrite fmap_cons. cbn [concat]. rewrite written_paths_app.
  intros [H | H]%elem_of_app.
  - exists g. split; [left | done].
  - destruct (IH H) as (g' & ? & ?). exists g'. split; [by right | done].
Qed.

(** X25. A run changes the directory only through its
    writes, each to a name <date>-S<i>.json with [i] an index into a date
    group of the run: a file of any other name is left as it was, and a file
    of such a name holds afterwards what the run wrote to it last, whether or
    not it existed before. *)
Theorem sync_writes_in_place (tz : TimeZone) (files : list RemoteObject)
    (dir : directory) :
  let run := downloadAndSaveJSON tz files dir in
  run.1 = apply_writes run.2 dir
  ∧ (∀ p, p ∉ written_paths run.2 → run.1 !! p = dir !! p)
  ∧ (∀ p, p ∈ written_paths run.2 →
       ∃ data, run.1 !! p = Some data ∧ WriteFile p data ∈ run.2)
  ∧ (∀ p, p ∈ written_paths run.2 →
       ∃ g i, g ∈ groups_of tz files dir ∧ (i < length g.2)%nat
              ∧ p = sequence_file g.1 i).
Proof.
  intros run.
  assert (Hdir : run.1 = apply_writes run.2 dir).
  { unfold run, downloadAndSaveJSON.
    by rewrite process_groups_dir, process_groups_trace. }
  split; [done |]. split; [| split].
  - intros p Hp. rewrite Hdir. by apply apply_writes_frame.
  - intros p Hp. rewrite Hdir. by apply apply_writes_last.
  - intros p Hp. unfold run, downloadAndSaveJSON in Hp.
    rewrite process_groups_trace in Hp. simpl in Hp.
    apply written_paths_concat in Hp as (g & Hg & Hp).
    exists g. unfold group_trace in Hp. rewrite written_from in Hp.
    apply list_elem_of_omap in Hp as ([i fd] & Hin & Hi). simpl in Hi.
    exists i. split; [done |].
    destruct (stored fd); [| done]. inversion Hi; subst. split; [| done].
    apply elem_of_zip_l in Hin. apply elem_of_seq in Hin. lia.
Qed.

Lemma sync_writes_in_place_witness :
  (downloadAndSaveJSON utc_zone midnight_then_morning
     {[ str "today.json" := str "kept" ]}).1 !! str "today.json"
  = Some (str "kept").
Proof.
  pose proof (sync_writes_in_place utc_zone midnight_then_morning
                {[ str "today.json" := str "kept" ]}) as (_ & H & _).
  rewrite H; [reflexivity |].
  vm_compute. intros Hin. repeat (apply elem_of_cons in Hin as [Hin | Hin]; [done |]).
  by apply elem_of_nil in Hin.
Defined.

(** C4, at two runs over the same bucket: the second run replaces a file
    that the first run wrote. The object created at midnight sharp is not
    after the watermark, the other object, the one the first run processed
    last, is: it is taken again, at index 0 this time, and its contents go
    to the file numbered 0, which held the contents of the first object. *)
Lemma sync_overwrites_counterexample :
  (downloadAndSaveJSON utc_zone midnight_then_morning ∅).1 !! str "07-03-2024-S0.json"
  = Some (dq "{'a':1}")
  ∧ (downloadAndSaveJSON utc_zone midnight_then_morning
       (downloadAndSaveJSON utc_zone midnight_then_morning ∅).1).1
      !! str "07-03-2024-S0.json"
    = Some (dq "{'b':1}").
Proof. split; by vm_compute. Qed.

End Sync.

(** ** Printing and reading integers *)

Module NumberFacts.

Lemma decimal_value_from (acc : Z) (ds : jsstring) :
  foldl (λ acc c, 10 * acc + (Z.of_N c - 48)) acc ds
  = acc * 10 ^ Z.of_nat (length ds) + decimal_value ds.
Proof.
  unfold decimal_value. revert acc.
  induction ds as [| d ds IH]; intros acc; simpl foldl.
  - simpl. lia.
  - rewrite IH, (IH (10 * 0 + _)).
    replace (Z.of_nat (length (d :: ds))) with (Z.succ (Z.of_nat (length ds)))
      by (simpl; lia).
    rewrite Z.pow_succ_r by lia. lia.
Qed.

Lemma decimal_value_cons (d : N) (ds : jsstring) :
  decimal_value (d :: ds)
  = (Z.of_N d - 48) * 10 ^ Z.of_nat (length ds) + decimal_value ds.
Proof.
  unfold decimal_value at 1. simpl foldl. rewrite decimal_value_from. lia.
Qed.

Lemma digit_char_value (d : Z) : 0 ≤ d < 10 → Z.of_N (digit_char d) - 48 = d.
Proof. intros H. unfold digit_char. lia. Qed.

(** The digits written for a number read back as that number, whatever
    follows them. *)
Lemma digits_fuel_value (fuel : nat) (n : Z) (acc : jsstring) :
  0 ≤ n < 2 ^ Z.of_nat fuel →
  decimal_value (digits_fuel fuel n acc)
  = n * 10 ^ Z.of_nat (length acc) + decimal_value acc.
Proof.
  revert n acc. induction fuel as [| fuel IH]; intros n acc Hn.
  - simpl in *. assert (n = 0) by lia. subst. lia.
  - cbn [digits_fuel].
    assert (Hd : 0 ≤ n mod 10 < 10) by (apply Z.mod_pos_bound; lia).
    destruct (n <? 10) eqn:Hlt.
    + apply Z.ltb_lt in Hlt. rewrite decimal_value_cons, digit_char_value by done.
      rewrite Z.mod_small by lia. done.
    + apply Z.ltb_ge in Hlt. rewrite IH.
      * rewrite decimal_value_cons, digit_char_value by done.
        replace (Z.of_nat (length (digit_char (n mod 10) :: acc)))
          with (Z.succ (Z.of_nat (length acc))) by (simpl; lia).
        rewrite Z.pow_succ_r by lia.
        pose proof (Z.div_mod n 10 ltac:(lia)). nia.
      * rewrite Nat2Z.inj_succ, Z.pow_succ_r in Hn by lia.
        split; [apply Z.div_pos; lia |].
        apply Z.div_lt_upper_bound; lia.
Qed.

Lemma Number_toString_value (n : Z) :
  0 ≤ n → decimal_value (Number_toString n) = n.
Proof.
  intros Hn. unfold Number_toString.
  replace (n <? 0) with false by (symmetry; apply Z.ltb_ge; lia).
  rewrite Z.abs_eq by done. cbv zeta.
  rewrite digits_fuel_value.
  { change (decimal_value []) with 0. change (Z.of_nat (length [])) with 0. lia. }
  split; [done |].
  rewrite Nat2Z.inj_succ, Z2Nat.id by apply Z.log2_nonneg.
  destruct (decide (n = 0)) as [-> | Hne]; [done |].
  apply Z.log2_spec. lia.
Qed.

End NumberFacts.

(** ** The JSON parser *)

Module JsonFacts.

Lemma skip_ws_length s : (length (skip_ws s) ≤ length s)%nat.
Proof.
  induction s as [| c t IH]; simpl; [done |].
  destruct (is_json_white c); simpl; lia.
Qed.

Lemma span_digits_length s : (length (span_digits s).2 ≤ length s)%nat.
Proof.
  induction s as [| c t IH]; simpl; [done |].
  destruct (is_digit c); simpl; [| done].
  destruct (span_digits t); simpl in *. lia.
Qed.

Lemma parse_string_length s acc k rest :
  parse_string s acc = Some (k, rest) → (length rest < length s)%nat.
Proof.
  revert acc. induction s as [s IH] using (induction_ltof1 _ (@length N)).
  unfold ltof in IH. intros acc H.
  destruct s as [| c t]; [done |]. simpl in H.
  destruct (c =? 34)%N.
  { inversion H; subst. simpl. lia. }
  destruct (c =? 92)%N.
  - destruct t as [| e t']; [done |].
    destruct (e =? 117)%N.
    + destruct t' as [| h1 [| h2 [| h3 [| h4 t'']]]]; try done.
      destruct (hex_value h1), (hex_value h2), (hex_value h3), (hex_value h4); try done.
      apply IH in H; simpl in *; lia.
    + destruct (escape_value e); [| done].
      apply IH in H; simpl in *; lia.
  - destruct (c <? 32)%N; [done |].
    apply IH in H; simpl in *; lia.
Qed.

Lemma parse_number_length s n rest :
  parse_number s = Some (n, rest) → (length rest < length s)%nat.
Proof.
  unfold parse_number. intros H.
  set (p := match s with
            | c :: t => if (c =? 45)%N then ([c], t) else ([], s)
            | [] => ([], s)
            end) in H.
  assert (Hp : (length p.2 ≤ length s)%nat).
  { subst p. destruct s as [| c t]; [done |]. destruct (c =? 45)%N; simpl; lia. }
  destruct p as [sign s1]. simpl in Hp.
  destruct (parse_int_part s1) as [[int s2] |] eqn:Hint; [| done]. simpl in H.
  destruct (parse_fraction s2) as [[frac s3] |] eqn:Hfrac; [| done]. simpl in H.
  destruct (parse_exponent s3) as [[exp s4] |] eqn:Hexp; [| done]. simpl in H.
  inversion H; subst rest. clear H.
  assert (length s2 < length s1)%nat.
  { unfold parse_int_part in Hint. destruct s1 as [| c t]; [done |].
    destruct (c =? 48)%N; [inversion Hint; subst; simpl; lia |].
    destruct (is_digit c) eqn:Hc; [| done].
    inversion Hint as [Hsp]. simpl in Hsp. rewrite Hc in Hsp.
    pose proof (span_digits_length t) as Hl.
    destruct (span_digits t). inversion Hsp; subst. simpl in *. lia. }
  assert (length s3 ≤ length s2)%nat.
  { unfold parse_fraction in Hfrac. destruct s2 as [| c t]; [by inversion Hfrac |].
    destruct (c =? 46)%N; [| by inversion Hfrac].
    pose proof (span_digits_length t) as Hl.
    destruct (span_digits t) as [[| d ds] r]; [done |].
    inversion Hfrac; subst. simpl in *. lia. }
  assert (length s4 ≤ length s3)%nat.
  { unfold parse_exponent in Hexp. destruct s3 as [| c t]; [by inversion Hexp |].
    destruct ((c =? 101) || (c =? 69))%N; [| by inversion Hexp].
    set (q := match t with
              | g :: u => if ((g =? 43) || (g =? 45))%N then ([g], u) else ([], t)
              | [] => ([], t)
              end) in Hexp.
    assert (Hq : (length q.2 ≤ length t)%nat).
    { subst q. destruct t as [| g u]; [done |].
      destruct ((g =? 43) || (g =? 45))%N; simpl; lia. }
    destruct q as [sg t']. simpl in Hq.
    pose proof (span_digits_length t') as Hl.
    destruct (span_digits t') as [[| d ds] r]; [done |].
    inversion Hexp; subst. simpl in *. lia. }
  lia.
Qed.

Lemma startsWith_length s p : startsWith s p = true → (length p ≤ length s)%nat.
Proof.
  revert s. induction p as [| a p IH]; intros s H; simpl in *; [lia |].
  destruct s as [| b s]; [done |].
  apply andb_true_iff in H as [_ H]. apply IH in H. simpl. lia.
Qed.

Lemma parse_literal_length s v rest :
  parse_literal s = Some (v, rest) → (length rest < length s)%nat.
Proof.
  unfold parse_literal. intros H.
  destruct (startsWith s (str "true")) eqn:H1.
  { inversion H; subst. apply startsWith_length in H1.
    rewrite length_drop. simpl in H1. lia. }
  destruct (startsWith s (str "false")) eqn:H2.
  { inversion H; subst. apply startsWith_length in H2.
    rewrite length_drop. simpl in H2. lia. }
  destruct (startsWith s (str "null")) eqn:H3; [| done].
  inversion H; subst. apply startsWith_length in H3.
  rewrite length_drop. simpl in H3. lia.
Qed.

Lemma skip_ws_cons s c t : skip_ws s = c :: t → (length t < length s)%nat.
Proof.
  intros H. pose proof (skip_ws_length s) as Hl. rewrite H in Hl. simpl in Hl. lia.
Qed.

Ltac break_match H :=
  match type of H with
  | context [match ?x with _ => _ end] => destruct x eqn:?
  end.

Ltac length_facts :=
  repeat match goal with
  | H : skip_ws _ = _ :: _ |- _ => apply skip_ws_cons in H
  | H : parse_string _ _ = Some _ |- _ => apply parse_string_length in H
  | H : parse_number _ = Some _ |- _ => apply parse_number_length in H
  | H : parse_literal _ = Some _ |- _ => apply parse_literal_length in H
  end.

(** Every parser consumes at least one character. *)
Lemma parse_shrinks fuel :
  (∀ s v rest, parse_value fuel s = Ok v rest → (length rest < length s)%nat)
  ∧ (∀ s acc v rest,
       parse_elements fuel s acc = Ok v rest → (length rest < length s)%nat)
  ∧ (∀ s acc v rest,
       parse_members fuel s acc = Ok v rest → (length rest < length s)%nat).
Proof.
  induction fuel as [| fuel (IHv & IHe & IHm)]; [by repeat split |].
  split; [| split].
  - intros s v rest H. simpl in H.
    repeat (break_match H; try discriminate);
      unfold of_option in *; simpl in *;
      repeat (break_match H; try discriminate);
      try (inversion H; subst; clear H);
      repeat match goal with
             | H : parse_members _ _ _ = Ok _ _ |- _ => apply IHm in H
             | H : parse_elements _ _ _ = Ok _ _ |- _ => apply IHe in H
             | H : mbind _ _ = Some _ |- _ => apply bind_Some in H as ([? ?] & ? & ?)
             end;
      simplify_eq; length_facts; simpl in *; lia.
  - intros s acc v rest H. simpl in H.
    repeat (break_match H; try discriminate);
      try (inversion H; subst; clear H);
      repeat match goal with
             | H : parse_value _ _ = Ok _ _ |- _ => apply IHv in H
             | H : parse_elements _ _ _ = Ok _ _ |- _ => apply IHe in H
             end;
      length_facts; simpl in *; lia.
  - intros s acc v rest H. simpl in H.
    repeat (break_match H; try discriminate);
      try (inversion H; subst; clear H);
      repeat match goal with
             | H : parse_value _ _ = Ok _ _ |- _ => apply IHv in H
             | H : parse_members _ _ _ = Ok _ _ |- _ => apply IHm in H
             end;
      length_facts; simpl in *; lia.
Qed.

Lemma parse_value_shrinks fuel s v rest :
  parse_value fuel s = Ok v rest → (length rest < length s)%nat.
Proof. apply parse_shrinks. Qed.

Lemma of_option_fuel {A} (o : option (A * jsstring)) : of_option o ≠ OutOfFuel.
Proof. by destruct o as [[? ?] |]. Qed.

(** A budget above twice the length of the text is never used up. *)
Lemma parse_fuel_enough fuel :
  (∀ s, (2 * length s < fuel)%nat → parse_value fuel s ≠ OutOfFuel)
  ∧ (∀ s acc, (2 * length s + 1 < fuel)%nat → parse_elements fuel s acc ≠ OutOfFuel)
  ∧ (∀ s acc, (2 * length s + 1 < fuel)%nat → parse_members fuel s acc ≠ OutOfFuel).
Proof.
  induction fuel as [| fuel (IHv & IHe & IHm)]; [repeat split; intros; lia |].
  split; [| split];
    [intros s Hlen H | intros s acc Hlen H | intros s acc Hlen H]; simpl in H;
    repeat (break_match H; try discriminate);
    try (by apply of_option_fuel in H);
    repeat match goal with
           | H : parse_value _ _ = Ok _ _ |- _ => apply parse_value_shrinks in H
           end;
    match goal with
    | H : parse_value _ _ = OutOfFuel |- _ => apply IHv in H
    | H : parse_elements _ _ _ = OutOfFuel |- _ => apply IHe in H
    | H : parse_members _ _ _ = OutOfFuel |- _ => apply IHm in H
    end; try done; length_facts; simpl in *; lia.
Qed.

(** [JSON_parse] throws only on a syntax error: its budget is enough for
    every text. *)
Lemma JSON_parse_fuel (text : jsstring) :
  parse_value (2 * length text + 1) text ≠ OutOfFuel.
Proof. apply parse_fuel_enough. lia. Qed.

End JsonFacts.

Module JsonExamples.

Example parse_nested :
  JSON_parse (dq " [1, {'k': [true, null]}, 'a\u0041'] ")
  = Returns (JArray [JNumber (Int 1);
                     JObject [(str "k", JArray [JBool true; JNull])];
                     JString (str "aA")]).
Proof. by vm_compute. Qed.

(** A repeated key keeps its place and takes the last value; array indices
    come first, in ascending order. *)
Example parse_key_order :
  JSON_parse (dq "{'b':1,'2':2,'1':3,'b':4}")
  = Returns (JObject [(str "1", JNumber (Int 3)); (str "2", JNumber (Int 2));
                      (str "b", JNumber (Int 4))]).
Proof. by vm_compute. Qed.

Example parse_trailing_comma : JSON_parse (dq "[1,]") = Throws.
Proof. by vm_compute. Qed.

Example parse_leading_zero : JSON_parse (str "01") = Throws.
Proof. by vm_compute. Qed.

Example parse_two_documents : JSON_parse (dq "{'a':1} {'a':2}") = Throws.
Proof. by vm_compute. Qed.

Example parse_fraction_kept : JSON_parse (str "-2.50e3") = Returns (JNumber (Lit (str "-2.50e3"))).
Proof. by vm_compute. Qed.

Example stringify_object :
  stringify (λ l, l)
    (JObject [(str "k", JArray [JBool true; JNull; JNumber (Int (-12))]);
              (str "s", JString [97; 10; 34]%N)])
  = dq "{'k':[true,null,-12],'s':'a\n\''}".
Proof. by vm_compute. Qed.

Example stringify_lone_surrogate :
  stringify (λ l, l) (JString [55357; 97]%N) = dq "'\ud83da'".
Proof. by vm_compute. Qed.

End JsonExamples.

(** ** The content normalizer *)

Module Normalizer.
Import Aggregate AggregateSpec.

Lemma line_values_cons line lines :
  line_values (line :: lines)
  = match trim line with
    | [] => line_values lines
    | (_ :: _) as trimmedLine =>
        match JSON_parse trimmedLine with
        | Returns v => v :: line_values lines
        | Throws => line_values lines
        end
    end.
Proof.
  unfold line_values. cbn [omap list_omap].
  destruct (trim line) as [| c t]; [done |].
  destruct (JSON_parse (c :: t)); done.
Qed.

Lemma parse_lines_values lines results :
  parse_lines lines results = Returns (results ++ line_values lines).
Proof.
  revert results. induction lines as [| line lines IH]; intros results.
  - simpl. by rewrite app_nil_r.
  - rewrite line_values_cons. cbn [parse_lines].
    destruct (trim line) as [| c t]; [apply IH |].
    destruct (JSON_parse (c :: t)) as [v |]; cbn [bind try_catch].
    + rewrite IH. by rewrite <- app_assoc.
    + apply IH.
Qed.

(** C9. [parseJsonContent] returns a sequence of values on every input and
    never throws: what [JSON.parse] throws on the whole text is caught by
    the fallback to lines, and what it throws on a line is caught in the
    loop. *)
Theorem parseJsonContent_total (content : jsstring) :
  ∃ values, parseJsonContent content = Returns values.
Proof.
  unfold parseJsonContent.
  destruct (trim content) as [| c t]; [by exists [] |].
  destruct (JSON_parse (c :: t)) as [parsed |]; simpl.
  - eauto.
  - rewrite parse_lines_values. eauto.
Qed.

(** C5. The four examples of the specification, and the rules behind them:
    blank input gives no value; a text that parses as a whole gives the
    elements of the array it denotes, or the one value it denotes when that
    is not an array; any other text gives the values of its lines that
    parse, in order, the other lines giving nothing. *)
Theorem parseJsonContent_cases :
  parseJsonContent (dq "[{'a':1},{'a':2}]") = Returns [single "a" 1; single "a" 2]
  ∧ parseJsonContent (dq "{'a':1}" ++ [LF] ++ dq "{'a':2}")
    = Returns [single "a" 1; single "a" 2]
  ∧ parseJsonContent (dq "{'a':1}" ++ [LF] ++ str "not-json" ++ [LF] ++ dq "{'a':2}")
    = Returns [single "a" 1; single "a" 2]
  ∧ parseJsonContent [] = Returns []
  ∧ ∀ content,
      (trim content = [] → parseJsonContent content = Returns [])
      ∧ (trim content ≠ [] →
         match JSON_parse (trim content) with
         | Returns (JArray elements) => parseJsonContent content = Returns elements
         | Returns v => parseJsonContent content = Returns [v]
         | Throws =>
             parseJsonContent content
             = Returns (line_values (split_lines (trim content)))
         end).
Proof.
  split; [by vm_compute |]. split; [by vm_compute |].
  split; [by vm_compute |]. split; [by vm_compute |].
  intros content. unfold parseJsonContent. split.
  - by intros ->.
  - intros Hne. destruct (trim content) as [| c t]; [done |].
    destruct (JSON_parse (c :: t)) as [v |]; simpl.
    + by destruct v.
    + by rewrite parse_lines_values.
Qed.

End Normalizer.

(** ** The aggregation *)

Module Aggregation.
Import Aggregate AggregateSpec.

Section Run.

Variable print_literal : jsstring → jsstring.
Variable now : nat → Z.

Lemma append_lookup dir path chunk cur :
  dir !! path = Some cur → append dir path chunk !! path = Some (cur ++ chunk).
Proof. intros H. unfold append. by rewrite lookup_insert_eq, H. Qed.

Lemma append_other dir path chunk p :
  p ≠ path → append dir path chunk !! p = dir !! p.
Proof. intros H. unfold append. by rewrite lookup_insert_ne. Qed.

Lemma write_values_lookup vs st cur :
  st.1 !! TODAY_FILE = Some cur →
  (write_values print_literal vs st).1 !! TODAY_FILE
  = Some (cur ++ concat ((λ v, stringify print_literal v ++ [LF]) <$> vs)).
Proof.
  unfold write_values. revert st cur.
  induction vs as [| v vs IH]; intros st cur Hcur; simpl.
  - by rewrite app_nil_r.
  - erewrite IH; [| simpl; by apply append_lookup].
    by rewrite <- app_assoc.
Qed.

Lemma write_values_other vs st p :
  p ≠ TODAY_FILE → (write_values print_literal vs st).1 !! p = st.1 !! p.
Proof.
  intros Hp. unfold write_values. revert st.
  induction vs as [| v vs IH]; intros st; simpl; [done |].
  rewrite IH. simpl. by apply append_other.
Qed.

Lemma process_file_lookup st fd cur :
  st.1 !! TODAY_FILE = Some cur →
  (process_file print_literal st fd).1 !! TODAY_FILE
  = Some (cur ++ concat (lines_of print_literal fd)).
Proof.
  intros Hcur. unfold process_file, lines_of.
  destruct (download (file fd)) as [rawText |]; simpl; [| by rewrite app_nil_r].
  destruct (trim rawText); simpl; [by rewrite app_nil_r |].
  destruct (parseJsonContent rawText) as [[| v vs] |].
  - simpl. by rewrite app_nil_r.
  - by apply (write_values_lookup (v :: vs)).
  - simpl. by rewrite app_nil_r.
Qed.

Lemma process_file_other st fd p :
  p ≠ TODAY_FILE → (process_file print_literal st fd).1 !! p = st.1 !! p.
Proof.
  intros Hp. unfold process_file.
  destruct (download (file fd)) as [rawText |]; simpl; [| done].
  destruct (trim rawText); simpl; [done |].
  destruct (parseJsonContent rawText) as [[| v vs] |]; [done | | done].
  by rewrite (write_values_other (v :: vs)).
Qed.

Lemma process_files_lookup fds st cur :
  st.1 !! TODAY_FILE = Some cur →
  (foldl (process_file print_literal) st fds).1 !! TODAY_FILE
  = Some (cur ++ concat (concat (lines_of print_literal <$> fds))).
Proof.
  revert st cur. induction fds as [| fd fds IH]; intros st cur Hcur; simpl.
  - by rewrite app_nil_r.
  - erewrite IH; [| by apply process_file_lookup].
    by rewrite concat_app, app_assoc.
Qed.

Lemma process_files_other fds st p :
  p ≠ TODAY_FILE → (foldl (process_file print_literal) st fds).1 !! p = st.1 !! p.
Proof.
  intros Hp. revert st. induction fds as [| fd fds IH]; intros st; simpl; [done |].
  rewrite IH. by apply process_file_other.
Qed.

(** After a run that found something, the combined file holds the lines of
    the selected objects, by ascending creation instant, and nothing else;
    the other files are as before. *)
Lemma processLogs_contents files dir :
  select now 1 files ≠ [] →
  (processLogs print_literal now files dir).1 !! TODAY_FILE
  = Some (concat (concat (lines_of print_literal
                            <$> stable_sort_by created (select now 1 files)))).
Proof.
  intros Hne. unfold processLogs.
  destruct (select now 1 files) as [| fd fds] eqn:Hsel; [done |]. simpl.
  rewrite (process_files_lookup _ _ []); [done |].
  simpl. by rewrite lookup_insert_eq.
Qed.

Lemma processLogs_other files dir p :
  p ≠ TODAY_FILE → (processLogs print_literal now files dir).1 !! p = dir !! p.
Proof.
  intros Hp. unfold processLogs.
  destruct (select now 1 files) as [| fd fds]; [done |]. simpl.
  rewrite process_files_other by done. simpl. by rewrite lookup_insert_ne.
Qed.

Lemma select_app files files' k :
  select now k (files ++ files')
  = select now k files
    ++ select now (k + length (filter (λ o, endsWith (obj_name o) (str ".json") = true)
                                 files)) files'.
Proof.
  revert k. induction files as [| f files IH]; intros k.
  - simpl. by rewrite Nat.add_0_r.
  - rewrite filter_cons. cbn [app select].
    destruct (decide (endsWith (obj_name f) (str ".json") = true)) as [Hf | Hf].
    + rewrite Hf. cbn [negb length].
      rewrite IH. replace (S k + _)%nat with (k + S (length (filter
        (λ o, endsWith (obj_name o) (str ".json") = true) files)))%nat by lia.
      by destruct (negb (isFromToday (now k) (obj_name f))).
    + apply not_true_is_false in Hf. rewrite Hf. cbn [negb]. apply IH.
Qed.

(** While the day does not change, the objects selected are the objects
    that match the fragment of that day. *)
Lemma select_same_day fragment files k :
  (∀ k, formatDatePath (now k) = fragment) →
  file <$> select now k files = filter (λ o, matches fragment o = true) files.
Proof.
  intros Hday. revert k. induction files as [| f files IH]; intros k; [done |].
  rewrite filter_cons. cbn [select]. unfold isFromToday. rewrite Hday.
  destruct (endsWith (obj_name f) (str ".json")) eqn:He; cbn [negb].
  - destruct (includes (obj_name f) fragment) eqn:Hi; cbn [negb].
    + rewrite decide_True by (unfold matches; by rewrite He, Hi).
      rewrite fmap_cons. f_equal. apply IH.
    + rewrite decide_False by (unfold matches; by rewrite He, Hi). apply IH.
  - rewrite decide_False by (unfold matches; by rewrite He). apply IH.
Qed.

Lemma stream_downloaded_app tr tr' : downloaded (tr ++ tr') = downloaded tr ++ downloaded tr'.
Proof. apply omap_app. Qed.

Lemma write_values_downloaded vs st :
  downloaded (write_values print_literal vs st).2 = downloaded st.2.
Proof.
  unfold write_values. revert st.
  induction vs as [| v vs IH]; intros st; simpl; [done |].
  rewrite IH. simpl. rewrite stream_downloaded_app. simpl. by rewrite app_nil_r.
Qed.

Lemma process_file_downloaded st fd :
  downloaded (process_file print_literal st fd).2 = downloaded st.2 ++ [file fd].
Proof.
  assert (Hst : downloaded (st.2 ++ [Download (file fd)]) = downloaded st.2 ++ [file fd])
    by by rewrite stream_downloaded_app.
  unfold process_file.
  destruct (download (file fd)) as [rawText |]; [| done].
  destruct (trim rawText); [done |].
  destruct (parseJsonContent rawText) as [[| v vs] |]; [done | | done].
  by rewrite (write_values_downloaded (v :: vs)).
Qed.

Lemma process_files_downloaded fds st :
  downloaded (foldl (process_file print_literal) st fds).2
  = downloaded st.2 ++ (file <$> fds).
Proof.
  revert st. induction fds as [| fd fds IH]; intros st; simpl.
  - by rewrite app_nil_r.
  - rewrite IH, process_file_downloaded. by rewrite <- app_assoc.
Qed.

(** The run downloads the selected objects, each once, by ascending creation
    instant. *)
Lemma processLogs_downloaded files dir :
  downloaded (processLogs print_literal now files dir).2
  = file <$> stable_sort_by created (select now 1 files).
Proof.
  unfold processLogs. destruct (select now 1 files) as [| fd fds]; [done |].
  cbn [snd]. rewrite stream_downloaded_app, process_files_downloaded. simpl.
  by rewrite app_nil_r.
Qed.

(** C7. A run whose filter keeps no object does nothing at all: the
    directory is the one it started from, the combined file included, and
    the trace is empty, so that no stream was opened on the combined file
    and nothing was downloaded. *)
Theorem processLogs_nothing_selected (files : list RemoteObject) (dir : directory) :
  select now 1 files = [] →
  processLogs print_literal now files dir = (dir, []).
Proof. intros H. unfold processLogs. by rewrite H. Qed.

(** C6. Two objects that the filter keeps, the one created first holding
    the single document {"x":1} and the other the two lines {"y":2} and
    {"y":3}: whatever the order of the listing and whatever the combined
    file held before, it holds after the run the three lines {"x":1},
    {"y":2}, {"y":3}, in this order, and nothing else. *)
Theorem processLogs_single_then_lines (dir : directory) (n1 n2 : jsstring)
    (t1 t2 : Z) (files : list RemoteObject) :
  t1 < t2 →
  endsWith n1 (str ".json") = true → endsWith n2 (str ".json") = true →
  (∀ k, isFromToday (now k) n1 = true) → (∀ k, isFromToday (now k) n2 = true) →
  files = [single_doc n1 t1; two_lines n2 t2]
  ∨ files = [two_lines n2 t2; single_doc n1 t1] →
  (processLogs print_literal now files dir).1 !! TODAY_FILE
  = Some (dq "{'x':1}" ++ [LF] ++ dq "{'y':2}" ++ [LF] ++ dq "{'y':3}" ++ [LF]).
Proof.
  intros Hlt Hj1 Hj2 Hd1 Hd2 Hfiles.
  set (fd1 := {| file := single_doc n1 t1; created := t1; name := n1 |}).
  set (fd2 := {| file := two_lines n2 t2; created := t2; name := n2 |}).
  assert (Hsorted : stable_sort_by created (select now 1 files) = [fd1; fd2]).
  { destruct Hfiles as [-> | ->];
      unfold single_doc, two_lines in *;
      cbn [select obj_name timeCreated];
      rewrite ?Hj1, ?Hj2, ?Hd1, ?Hd2; cbn [negb];
      rewrite ?Hj1, ?Hj2, ?Hd1, ?Hd2; cbn [negb];
      unfold stable_sort_by; cbn [foldr insert_sorted created].
    - replace (t1 <=? t2) with true by (symmetry; apply Z.leb_le; lia). done.
    - replace (t2 <=? t1) with false by (symmetry; apply Z.leb_gt; lia). done. }
  rewrite processLogs_contents.
  - rewrite Hsorted. by vm_compute.
  - intros Hnil. rewrite Hnil in Hsorted. discriminate.
Qed.

End Run.

Lemma processLogs_single_then_lines_witness :
  (processLogs (λ l, l) (λ _, noon)
     [two_lines (str "logs/2024/03/07/b.json") (Date_UTC 2024 2 7 9 30);
      single_doc (str "logs/2024/03/07/a.json") (Date_UTC 2024 2 7 9 0)]
     {[ TODAY_FILE := dq "{'old':0}" ]}).1 !! TODAY_FILE
  = Some (dq "{'x':1}" ++ [LF] ++ dq "{'y':2}" ++ [LF] ++ dq "{'y':3}" ++ [LF]).
Proof.
  apply (processLogs_single_then_lines (λ l, l) (λ _, noon) _
           (str "logs/2024/03/07/a.json") (str "logs/2024/03/07/b.json")
           (Date_UTC 2024 2 7 9 0) (Date_UTC 2024 2 7 9 30)).
  - reflexivity.
  - reflexivity.
  - reflexivity.
  - intros k. reflexivity.
  - intros k. reflexivity.
  - right. reflexivity.
Defined.

Lemma processLogs_nothing_selected_witness :
  processLogs (λ l, l) (λ _, noon) other_days {[ TODAY_FILE := dq "{'old':0}" ]}
  = ({[ TODAY_FILE := dq "{'old':0}" ]}, []).
Proof.
  apply (processLogs_nothing_selected (λ l, l) (λ _, noon) other_days).
  reflexivity.
Defined.

End Aggregation.

(** ** The date path fragment *)

Module PathFragment.
Import Aggregate AggregateSpec.

Lemma forall_range_spec (f : Z → bool) (n : nat) (start : Z) :
  forall_range f start n = true →
  ∀ i, start ≤ i < start + Z.of_nat n → f i = true.
Proof.
  revert start. induction n as [| n IH]; intros start H i Hi; [lia |].
  simpl in H. apply andb_true_iff in H as [Hs Hn].
  destruct (decide (i = start)) as [-> | Hne]; [done |].
  apply (IH (start + 1)); [done | lia].
Qed.

Lemma month_day_checked :
  forall_range month_day_in_range 0 (Z.to_nat 146097) = true.
Proof. by vm_compute. Qed.

Lemma two_digits_checked : forall_range pads_to_two_digits 0 (Z.to_nat 100) = true.
Proof. by vm_compute. Qed.

(** The month is from 1 to 12 and the day of the month from 1 to 31. *)
Lemma civil_from_days_range (z : Z) :
  1 ≤ (civil_from_days z).1.2 ≤ 12 ∧ 1 ≤ (civil_from_days z).2 ≤ 31.
Proof.
  unfold civil_from_days.
  set (doe := z + 719468 - (z + 719468) / 146097 * 146097).
  assert (Hdoe : 0 ≤ doe < 0 + Z.of_nat (Z.to_nat 146097)).
  { subst doe. pose proof (Z.mod_pos_bound (z + 719468) 146097 ltac:(lia)) as Hm.
    rewrite Z.mod_eq in Hm by lia. lia. }
  pose proof (forall_range_spec _ _ _ month_day_checked doe Hdoe) as Hc.
  clearbody doe. unfold month_day_in_range in Hc. cbv zeta in *. cbn [fst snd].
  repeat (apply andb_true_iff in Hc as [Hc ?]).
  lia.
Qed.

Lemma pad_two_digits (n : Z) :
  0 ≤ n < 100 → padStart (Number_toString n) 2 (str "0") = two_digits n.
Proof.
  intros Hn.
  pose proof (forall_range_spec _ _ _ two_digits_checked n ltac:(lia)) as Hc.
  unfold pads_to_two_digits in Hc. by apply bool_decide_eq_true in Hc.
Qed.

(** C8. [formatDatePath] gives the UTC year, a slash, the month on two
    digits, a slash and the day of the month on two digits, "2024/03/07" for
    7 March 2024. The loop that fills [jsonFiles] keeps an object exactly
    when its name ends with ".json" and holds the fragment of the day read
    from the clock at that moment, wherever the object stands in the
    listing; so, while the day does not change during the run, the objects
    kept, and then downloaded, are those whose name ends with ".json" and
    holds the fragment of that day. *)
Theorem formatDatePath_and_selection :
  (∀ d,
     formatDatePath d
     = Number_toString (getUTCFullYear d) ++ str "/"
       ++ two_digits (getUTCMonth d + 1) ++ str "/" ++ two_digits (getUTCDate d)
     ∧ 1 ≤ getUTCMonth d + 1 ≤ 12 ∧ 1 ≤ getUTCDate d ≤ 31)
  ∧ formatDatePath (Date_UTC 2024 2 7 0 0) = str "2024/03/07"
  ∧ (∀ now before o after,
       let k := S (length (filter (λ x, endsWith (obj_name x) (str ".json") = true)
                             before)) in
       select now 1 (before ++ o :: after)
       = select now 1 before
         ++ (if matches (formatDatePath (now k)) o
             then [{| file := o; created := timeCreated o; name := obj_name o |}]
             else [])
         ++ select now (if endsWith (obj_name o) (str ".json") then S k else k) after)
  ∧ (∀ print_literal now fragment files dir,
       (∀ k, formatDatePath (now k) = fragment) →
       file <$> select now 1 files = filter (λ o, matches fragment o = true) files
       ∧ downloaded (processLogs print_literal now files dir).2
         ≡ₚ filter (λ o, matches fragment o = true) files).
Proof.
  split; [| split; [by vm_compute | split]].
  - intros d. unfold formatDatePath, getUTCMonth, getUTCDate, MonthFromTime, DateFromTime.
    pose proof (civil_from_days_range (Day d)) as [Hm Hd].
    rewrite !pad_two_digits by lia.
    split; [done | lia].
  - intros now before o after k.
    rewrite Aggregation.select_app. f_equal. cbn [select]. unfold matches, isFromToday.
    fold k. replace (1 + (k - 1))%nat with k by lia.
    replace (1 + length (filter (λ x, endsWith (obj_name x) (str ".json") = true) before))%nat
      with k by done.
    destruct (endsWith (obj_name o) (str ".json")); cbn [negb andb]; [| done].
    by destruct (includes (obj_name o) (formatDatePath (now k))).
  - intros print_literal now fragment files dir Hday.
    pose proof (Aggregation.select_same_day now fragment files 1 Hday) as Hsel.
    split; [done |].
    rewrite Aggregation.processLogs_downloaded.
    rewrite <- Hsel. apply fmap_Permutation, stable_sort_by_Permutation.
Qed.

Lemma formatDatePath_and_selection_witness :
  file <$> select (λ _, noon) 1 (other_days ++ [single_doc (str "logs/2024/03/07/a.json") noon])
  = [single_doc (str "logs/2024/03/07/a.json") noon].
Proof.
  destruct formatDatePath_and_selection as (_ & _ & _ & H).
  destruct (H (λ l, l) (λ _, noon) (str "2024/03/07")
              (other_days ++ [single_doc (str "logs/2024/03/07/a.json") noon]) ∅) as [Hsel _].
  - intros k. reflexivity.
  - rewrite Hsel. reflexivity.
Defined.

End PathFragment.


(** ** Trimming *)

Module TrimFacts.
Import TextSpec.

Lemma trimStart_blank w s : blank w → trimStart (w ++ s) = trimStart s.
Proof.
  unfold blank. induction w as [| c w IH]; simpl; [done |].
  intros [Hc Hw]%andb_true_iff. rewrite Hc. by apply IH.
Qed.

Lemma trimStart_blank_nil w : blank w → trimStart w = [].
Proof. intros H. rewrite <- (app_nil_r w), trimStart_blank by done. done. Qed.

(** What [trimStart] removes is blank. *)
Lemma trimStart_split s : ∃ w, blank w ∧ s = w ++ trimStart s.
Proof.
  induction s as [| c s (w & Hw & IH)]; simpl.
  - by exists [].
  - destruct (is_white c) eqn:Hc.
    + exists (c :: w). split; [unfold blank; simpl; by rewrite Hc |].
      simpl. by rewrite <- IH.
    + by exists [].
Qed.

Lemma trimStart_head s c t : trimStart s = c :: t → is_white c = false.
Proof.
  induction s as [| d s IH]; simpl; [done |].
  destruct (is_white d) eqn:Hd; [done |]. by intros [= <- _].
Qed.

Lemma trimStart_fixed c t : is_white c = false → trimStart (c :: t) = c :: t.
Proof. intros H. simpl. by rewrite H. Qed.

Lemma trimStart_app s t : trimStart s ≠ [] → trimStart (s ++ t) = trimStart s ++ t.
Proof.
  induction s as [| c s IH]; simpl; [done |].
  destruct (is_white c); [done | by intros _].
Qed.

Lemma blank_reverse w : blank w → blank (reverse w).
Proof.
  unfold blank. intros H. apply forallb_forall. intros x Hx.
  rewrite forallb_forall in H. apply H.
  apply list_elem_of_In. apply list_elem_of_In in Hx. by rewrite elem_of_reverse in Hx.
Qed.

Lemma blank_app w w' : blank w → blank w' → blank (w ++ w').
Proof. unfold blank. intros. rewrite forallb_app. by apply andb_true_iff. Qed.

Lemma trimEnd_blank s w : blank w → trimEnd (s ++ w) = trimEnd s.
Proof.
  intros H. unfold trimEnd. rewrite reverse_app.
  rewrite trimStart_blank by by apply blank_reverse. done.
Qed.

Lemma trimEnd_split s : ∃ w, blank w ∧ s = trimEnd s ++ w.
Proof.
  unfold trimEnd. destruct (trimStart_split (reverse s)) as (w & Hw & Hs).
  exists (reverse w). split; [by apply blank_reverse |].
  rewrite <- reverse_app, <- Hs. by rewrite reverse_involutive.
Qed.

Lemma trimEnd_last s c t : trimEnd s = t ++ [c] → is_white c = false.
Proof.
  unfold trimEnd. intros H. apply (f_equal reverse) in H.
  rewrite reverse_involutive, reverse_snoc in H. by eapply trimStart_head.
Qed.

Lemma trimEnd_fixed t c : is_white c = false → trimEnd (t ++ [c]) = t ++ [c].
Proof.
  intros H. unfold trimEnd. rewrite reverse_snoc, trimStart_fixed by done.
  by rewrite reverse_cons, reverse_involutive.
Qed.

(** Trimming the end keeps a first character that is not blank. *)
Lemma trimStart_trimEnd s : trimStart (trimEnd (trimStart s)) = trimEnd (trimStart s).
Proof.
  destruct (trimStart s) as [| c t] eqn:Hs; [done |].
  apply trimStart_head in Hs.
  destruct (trimEnd (c :: t)) as [| d u] eqn:He; [done |].
  destruct (trimEnd_split (c :: t)) as (w & _ & Hsplit).
  rewrite He in Hsplit. simpl in Hsplit. inversion Hsplit; subst d.
  by apply trimStart_fixed.
Qed.

Lemma trimEnd_idemp s : trimEnd (trimEnd s) = trimEnd s.
Proof.
  destruct (trimEnd s) as [| c t] eqn:He using rev_ind; [done |].
  apply trimEnd_last in He. by apply trimEnd_fixed.
Qed.

Lemma trim_idemp s : trim (trim s) = trim s.
Proof.
  unfold trim. rewrite trimStart_trimEnd. apply trimEnd_idemp.
Qed.

(** Blank text around a string does not change what [trim] gives. *)
Lemma trim_padded w s w' : blank w → blank w' → trim (w ++ s ++ w') = trim s.
Proof.
  intros Hw Hw'. unfold trim. rewrite trimStart_blank by done.
  destruct (trimStart s) as [| c t] eqn:Hs.
  - destruct (trimStart_split s) as (v & Hv & Hsplit). rewrite Hs, app_nil_r in Hsplit.
    subst v. rewrite trimStart_blank_nil by by apply blank_app. done.
  - rewrite trimStart_app by by rewrite Hs. rewrite Hs. by apply trimEnd_blank.
Qed.

Lemma trim_blank w : blank w → trim w = [].
Proof. intros H. unfold trim. by rewrite trimStart_blank_nil. Qed.

End TrimFacts.

(** ** The names of the sequence files, written and read back *)

Module DateFacts.
Import Index ResolverSpec SyncSpec AggregateSpec DateSpec.
Import PathFragment Pattern NumberFacts.

Lemma era_day_checked : forall_range era_day_round_trip 0 (Z.to_nat 146097) = true.
Proof. by vm_compute. Qed.

Lemma four_digits_checked : forall_range prints_four_digits 1000 (Z.to_nat 9000) = true.
Proof. by vm_compute. Qed.

(** The day number of the civil date of a day number is that day number. *)
Lemma days_from_civil_from_days (z : Z) :
  days_from_civil (civil_from_days z).1.1 (civil_from_days z).1.2 (civil_from_days z).2 = z.
Proof.
  unfold civil_from_days.
  set (era := (z + 719468) / 146097).
  set (doe := z + 719468 - era * 146097).
  assert (Hdoe : 0 ≤ doe < 0 + Z.of_nat (Z.to_nat 146097)).
  { subst doe era. pose proof (Z.mod_pos_bound (z + 719468) 146097 ltac:(lia)) as Hm.
    rewrite Z.mod_eq in Hm by lia. lia. }
  pose proof (forall_range_spec _ _ _ era_day_checked doe Hdoe) as Hc.
  assert (Hz : z = era * 146097 + doe - 719468) by (subst doe; lia).
  clearbody doe era. unfold era_day_round_trip in Hc. cbv zeta in *. cbn [fst snd].
  apply andb_true_iff in Hc as [Hc Hrt]. apply andb_true_iff in Hc as [Hy0 Hy1].
  apply Z.leb_le in Hy0, Hy1. apply Z.eqb_eq in Hrt.
  set (yoe := (doe - doe / 1460 + doe / 36524 - doe / 146096) / 365) in *.
  set (doy := doe - (365 * yoe + yoe / 4 - yoe / 100)) in *.
  set (mp := (5 * doy + 2) / 153) in *.
  set (d := doy - (153 * mp + 2) / 5 + 1) in *.
  set (m := if mp <? 10 then mp + 3 else mp - 9) in *.
  unfold days_from_civil.
  assert (Hy : (if m <=? 2
                then yoe + era * 400 + (if m <=? 2 then 1 else 0) - 1
                else yoe + era * 400 + (if m <=? 2 then 1 else 0))
               = yoe + era * 400) by (destruct (m <=? 2); lia).
  rewrite Hy.
  assert (Hera : (yoe + era * 400) / 400 = era).
  { rewrite Z.div_add by lia. rewrite Z.div_small by lia. lia. }
  rewrite Hera. cbv zeta.
  replace (yoe + era * 400 - era * 400) with yoe by lia.
  lia.
Qed.

Lemma MakeDay_civil (z : Z) :
  MakeDay (civil_from_days z).1.1 ((civil_from_days z).1.2 - 1) (civil_from_days z).2 = z.
Proof.
  pose proof (civil_from_days_range z) as [Hm _].
  pose proof (days_from_civil_from_days z) as Hrt.
  unfold MakeDay. cbv zeta.
  rewrite Z.div_small, Z.mod_small by lia.
  replace ((civil_from_days z).1.2 - 1 + 1) with (civil_from_days z).1.2 by lia.
  rewrite Z.add_0_r.
  unfold days_from_civil in *. cbv zeta in *. lia.
Qed.

Lemma digit_char_digit (d : Z) : 0 ≤ d < 10 → is_digit (digit_char d) = true.
Proof.
  intros H. unfold is_digit, digit_char.
  apply andb_true_iff. split; apply N.leb_le; lia.
Qed.

Lemma two_digits_well_formed (n : Z) :
  0 ≤ n < 100 →
  length (two_digits n) = 2%nat ∧ all_digits (two_digits n) ∧ parseInt (two_digits n) = n.
Proof.
  intros Hn. unfold two_digits, all_digits.
  assert (0 ≤ n / 10 < 10) by (split; [apply Z.div_pos | apply Z.div_lt_upper_bound]; lia).
  assert (0 ≤ n mod 10 < 10) by (apply Z.mod_pos_bound; lia).
  split; [done |]. split.
  - simpl. by rewrite !digit_char_digit.
  - unfold parseInt, decimal_value. simpl.
    rewrite !digit_char_value by done.
    pose proof (Z.div_mod n 10 ltac:(lia)). lia.
Qed.

Lemma digits_fuel_digits (fuel : nat) (n : Z) (acc : jsstring) :
  0 ≤ n → all_digits acc → all_digits (digits_fuel fuel n acc).
Proof.
  unfold all_digits. revert n acc.
  induction fuel as [| fuel IH]; intros n acc Hn Hacc; [done |].
  cbn [digits_fuel].
  assert (Hd : forallb is_digit (digit_char (n mod 10) :: acc) = true).
  { simpl. rewrite digit_char_digit, Hacc; [done |]. apply Z.mod_pos_bound. lia. }
  destruct (n <? 10); [done |].
  apply IH; [apply Z.div_pos; lia | done].
Qed.

Lemma digits_fuel_nonempty (fuel : nat) (n : Z) (acc : jsstring) :
  digits_fuel (S fuel) n acc ≠ [].
Proof.
  revert n acc. induction fuel as [| fuel IH]; intros n acc.
  - simpl. by destruct (n <? 10).
  - change (digits_fuel (S (S fuel)) n acc)
      with (if n <? 10 then digit_char (n mod 10) :: acc
            else digits_fuel (S fuel) (n / 10) (digit_char (n mod 10) :: acc)).
    destruct (n <? 10); [done | apply IH].
Qed.

(** A natural number prints as a non-empty run of digits. *)
Lemma Number_toString_digits (n : Z) :
  0 ≤ n → Number_toString n ≠ [] ∧ all_digits (Number_toString n).
Proof.
  intros Hn. unfold Number_toString.
  replace (n <? 0) with false by (symmetry; apply Z.ltb_ge; lia).
  cbv zeta. split.
  - apply digits_fuel_nonempty.
  - apply digits_fuel_digits; [lia | done].
Qed.

Lemma startsWith_refl (p : jsstring) : startsWith p p = true.
Proof. rewrite <- (app_nil_r p) at 1. apply startsWith_app. Qed.

Lemma endsWith_app (s p : jsstring) : endsWith (s ++ p) p = true.
Proof.
  unfold endsWith. rewrite length_app.
  replace (length s + length p - length p)%nat with (length s) by lia.
  rewrite drop_app_length, startsWith_refl.
  rewrite andb_true_r. apply Nat.leb_le. lia.
Qed.

Section WithTimeZone.

Variable tz : TimeZone.

(** [formatDate]: two digits, a dash, two digits, a dash and the year as it
    prints. *)
Lemma formatDate_shape (t : Z) :
  formatDate tz t
  = two_digits (getDate tz t) ++ str "-" ++ two_digits (getMonth tz t + 1) ++ str "-"
    ++ Number_toString (getFullYear tz t)
  ∧ 1 ≤ getMonth tz t + 1 ≤ 12 ∧ 1 ≤ getDate tz t ≤ 31.
Proof.
  unfold formatDate, pad2, getMonth, getDate, MonthFromTime, DateFromTime.
  pose proof (civil_from_days_range (Day (LocalTime tz t))) as [Hm Hd].
  rewrite !pad_two_digits by lia. split; [done | lia].
Qed.

Lemma sequence_file_text (t : Z) (i : nat) :
  sequence_file (formatDate tz t) i = pattern_text (captures_of tz t i).
Proof.
  unfold sequence_file, pattern_text, captures_of.
  cbn [cap_day cap_month cap_year cap_sequence].
  rewrite (proj1 (formatDate_shape t)). by rewrite <- !app_assoc.
Qed.

Lemma captures_of_well_formed (t : Z) (i : nat) :
  1000 ≤ getFullYear tz t ≤ 9999 → well_formed (captures_of tz t i).
Proof.
  intros Hy. destruct (formatDate_shape t) as (_ & Hm & Hd).
  destruct (two_digits_well_formed (getDate tz t) ltac:(lia)) as (? & ? & _).
  destruct (two_digits_well_formed (getMonth tz t + 1) ltac:(lia)) as (? & ? & _).
  destruct (Number_toString_digits (Z.of_nat i) ltac:(lia)) as [? ?].
  pose proof (forall_range_spec _ _ _ four_digits_checked (getFullYear tz t) ltac:(lia))
    as Hc.
  unfold prints_four_digits in Hc. apply andb_true_iff in Hc as [Hlen Hdig].
  apply bool_decide_eq_true in Hlen.
  unfold well_formed, captures_of. cbn [cap_day cap_month cap_year cap_sequence].
  by repeat split.
Qed.

Lemma Date_local_of_instant (t : Z) :
  1000 ≤ getFullYear tz t ≤ 9999 →
  Date_local tz (getFullYear tz t) (getMonth tz t + 1 - 1) (getDate tz t)
  = local_midnight tz t.
Proof.
  intros Hy. unfold Date_local, local_midnight.
  replace ((0 <=? getFullYear tz t) && (getFullYear tz t <=? 99)) with false
    by (symmetry; apply andb_false_iff; right; apply Z.leb_gt; lia).
  cbv zeta. f_equal. f_equal.
  unfold getFullYear, getMonth, getDate, YearFromTime, MonthFromTime, DateFromTime.
  replace ((civil_from_days (Day (LocalTime tz t))).1.2 - 1 + 1 - 1)
    with ((civil_from_days (Day (LocalTime tz t))).1.2 - 1) by lia.
  apply MakeDay_civil.
Qed.

Lemma sequence_file_entry (t : Z) (i : nat) :
  1000 ≤ getFullYear tz t ≤ 9999 →
  entry_of tz (sequence_file (formatDate tz t) i)
  = Some (local_midnight tz t, to_double (Z.of_nat i)).
Proof.
  intros Hy.
  pose proof (captures_of_well_formed t i Hy) as Hwf.
  unfold entry_of. rewrite sequence_file_text.
  assert (Hends : endsWith (pattern_text (captures_of tz t i)) (str ".json") = true).
  { unfold pattern_text. rewrite !app_assoc. apply endsWith_app. }
  rewrite Hends, regex_match_eq.
  rewrite <- (app_nil_r (pattern_text (captures_of tz t i))), match_here_text by done.
  cbn [mbind option_bind captures_of cap_day cap_month cap_year cap_sequence].
  destruct (formatDate_shape t) as (_ & Hm & Hd).
  rewrite (proj2 (proj2 (two_digits_well_formed (getDate tz t) ltac:(lia)))).
  rewrite (proj2 (proj2 (two_digits_well_formed (getMonth tz t + 1) ltac:(lia)))).
  unfold parseInt. rewrite !Number_toString_value by lia.
  by rewrite Date_local_of_instant.
Qed.

(** X1. A name written by the sync for an instant of a four-digit year is read
    back by the resolver as the local midnight of that instant's day and the
    index it was written with. *)
Theorem written_name_read_back (t : Z) (i : nat) :
  1000 ≤ getFullYear tz t ≤ 9999 →
  getLatestProcessedFile tz [sequence_file (formatDate tz t) i]
  = Some {| date := local_midnight tz t; sequence := to_double (Z.of_nat i) |}.
Proof.
  intros Hy. unfold getLatestProcessedFile. cbn [foldl].
  rewrite Resolver.visit_entry, sequence_file_entry by done. done.
Qed.

End WithTimeZone.

Lemma written_name_read_back_witness :
  getLatestProcessedFile utc_zone [str "07-03-2024-S12.json"]
  = Some {| date := Date_UTC 2024 2 7 0 0; sequence := Fin 12 |}.
Proof.
  apply (written_name_read_back utc_zone (Date_UTC 2024 2 7 15 30) 12).
  by vm_compute.
Defined.

End DateFacts.

(** ** No file is written twice in a run *)

Module NamesFacts.
Import Index ResolverSpec SyncSpec AggregateSpec DateSpec GroupSpec.
Import PathFragment Pattern NumberFacts Sync DateFacts.

(** A text is cut in one way only at the first occurrence of a character. *)
Lemma split_at_first (m : N) (a1 a2 r1 r2 : jsstring) :
  m ∉ a1 → m ∉ a2 → a1 ++ m :: r1 = a2 ++ m :: r2 → a1 = a2 ∧ r1 = r2.
Proof.
  revert a2. induction a1 as [| x a1 IH]; intros a2 H1 H2 Heq.
  - destruct a2 as [| y a2]; simpl in *.
    + by inversion Heq.
    + inversion Heq; subst. exfalso. apply H2. left.
  - destruct a2 as [| y a2]; simpl in *.
    + inversion Heq; subst. exfalso. apply H1. left.
    + inversion Heq; subst.
      apply not_elem_of_cons in H1 as [_ H1]. apply not_elem_of_cons in H2 as [_ H2].
      destruct (IH a2 H1 H2 ltac:(done)) as [-> ->]. done.
Qed.

Lemma head_char_no_S (d : jsstring) : forallb head_char d = true → 83%N ∉ d.
Proof.
  intros H Hin. apply list_elem_of_In in Hin.
  rewrite forallb_forall in H. by apply H in Hin.
Qed.

Lemma digits_head_chars (l : jsstring) : all_digits l → forallb head_char l = true.
Proof.
  unfold all_digits. induction l as [| x l IH]; simpl; [done |].
  intros [Hx Hl]%andb_true_iff. unfold head_char at 1. by rewrite Hx, IH.
Qed.

(** A number prints as digits, after a dash when it is negative. *)
Lemma Number_toString_chars (n : Z) : forallb head_char (Number_toString n) = true.
Proof.
  unfold Number_toString. cbv zeta.
  assert (Hd : forallb head_char
                 (digits_fuel (S (Z.to_nat (Z.log2 (Z.abs n)))) (Z.abs n) []) = true).
  { apply digits_head_chars, digits_fuel_digits; [lia | done]. }
  destruct (n <? 0); [| done]. cbn [forallb]. by rewrite Hd.
Qed.

Lemma formatDate_chars (tz : TimeZone) (t : Z) :
  forallb head_char (formatDate tz t) = true.
Proof.
  destruct (formatDate_shape tz t) as (-> & Hm & Hd).
  destruct (two_digits_well_formed (getDate tz t) ltac:(lia)) as (_ & H1 & _).
  destruct (two_digits_well_formed (getMonth tz t + 1) ltac:(lia)) as (_ & H2 & _).
  rewrite !forallb_app, (digits_head_chars _ H1), (digits_head_chars _ H2),
    Number_toString_chars.
  reflexivity.
Qed.

Lemma Number_toString_inj (i j : nat) :
  Number_toString (Z.of_nat i) = Number_toString (Z.of_nat j) → i = j.
Proof.
  intros H. apply (f_equal decimal_value) in H.
  rewrite !Number_toString_value in H by lia. lia.
Qed.

(** Two names of sequence files are equal only for the same date and the
    same index. *)
Lemma sequence_file_inj (d1 d2 : jsstring) (i1 i2 : nat) :
  forallb head_char d1 = true → forallb head_char d2 = true →
  sequence_file d1 i1 = sequence_file d2 i2 → d1 = d2 ∧ i1 = i2.
Proof.
  intros H1 H2 Heq. unfold sequence_file in Heq.
  change (str "-S") with ([45%N] ++ [83%N]) in Heq.
  rewrite <- !app_assoc in Heq.
  rewrite !(app_assoc _ [45%N]) in Heq.
  change ([83%N] ++ ?x) with (83%N :: x) in Heq.
  apply split_at_first in Heq as [Hd Hn].
  - split; [by apply app_inj_tail in Hd as [-> _] |].
    apply app_inv_tail in Hn. by apply Number_toString_inj.
  - apply head_char_no_S. rewrite forallb_app, H1. done.
  - apply head_char_no_S. rewrite forallb_app, H2. done.
Qed.

Lemma sequence_file_inj_index (d : jsstring) (i1 i2 : nat) :
  sequence_file d i1 = sequence_file d i2 → i1 = i2.
Proof.
  unfold sequence_file. intros H. apply app_inv_head in H. apply app_inv_head in H.
  apply app_inv_tail in H. by apply Number_toString_inj.
Qed.

(** The names written for a group carry the indices from [i] on, each once. *)
Lemma written_from_NoDup dateStr fds i :
  NoDup (written_paths (process_from dateStr i fds (∅, [])).2)
  ∧ ∀ p, p ∈ written_paths (process_from dateStr i fds (∅, [])).2 →
         ∃ j, (i ≤ j < i + length fds)%nat ∧ p = sequence_file dateStr j.
Proof.
  rewrite written_from. revert i.
  induction fds as [| fd fds IH]; intros i; simpl.
  - split; [constructor | by intros ? ?%elem_of_nil].
  - destruct (IH (S i)) as [Hnd Hin].
    destruct (stored fd); simpl.
    + split.
      * constructor; [| done]. intros Hp. apply Hin in Hp as (j & Hj & Hp).
        apply sequence_file_inj_index in Hp. lia.
      * intros p [-> | Hp]%elem_of_cons.
        -- exists i. split; [lia | done].
        -- apply Hin in Hp as (j & Hj & ->). exists j. split; [lia | done].
    + split; [done |]. intros p Hp.
      apply Hin in Hp as (j & Hj & ->). exists j. split; [lia | done].
Qed.

Lemma group_push_keys key x groups :
  (groups : list (jsstring * list FileWithDate)).*1 ⊆ (group_push key x groups).*1
  ∧ ∀ k, k ∈ (group_push key x groups).*1 → k = key ∨ k ∈ groups.*1.
Proof.
  induction groups as [| [k xs] groups [IH1 IH2]]; simpl.
  - split; [by intros ? ?%elem_of_nil |]. intros k ?%list_elem_of_singleton. by left.
  - destruct (decide (k = key)) as [-> |]; simpl.
    + split; [done |]. intros k Hk. by right.
    + split.
      * intros k' [-> | Hk']%elem_of_cons; [left | right; by apply IH1].
      * intros k' [-> | Hk']%elem_of_cons; [right; left |].
        destruct (IH2 k' Hk') as [-> | ?]; [by left | right; by right].
Qed.

Lemma group_push_NoDup key x (groups : list (jsstring * list FileWithDate)) :
  NoDup groups.*1 → NoDup (group_push key x groups).*1.
Proof.
  induction groups as [| [k xs] groups IH]; simpl; intros Hnd.
  - repeat constructor. by intros ?%elem_of_nil.
  - apply NoDup_cons in Hnd as [Hk Hnd].
    destruct (decide (k = key)) as [-> |]; simpl.
    + by constructor.
    + constructor; [| by apply IH].
      intros Hin. apply group_push_keys in Hin as [-> | Hin]; done.
Qed.

(** Every formatted date has one group. *)
Lemma group_by_date_NoDup tz l : NoDup (group_by_date tz l).*1.
Proof.
  unfold group_by_date.
  enough (H : ∀ groups : list (jsstring * list FileWithDate),
    NoDup groups.*1 →
    NoDup (foldl (λ groups fd, group_push (formatDate tz (created fd)) fd groups)
             groups l).*1) by (apply H; constructor).
  induction l as [| x l IH]; intros groups Hnd; simpl; [done |].
  apply IH. by apply group_push_NoDup.
Qed.

Lemma group_by_date_key_chars tz l g :
  g ∈ group_by_date tz l → forallb head_char g.1 = true.
Proof.
  intros Hg. apply group_by_date_elem in Hg as (_ & Hall & Hne).
  destruct g.2 as [| fd fds]; [done |].
  apply Forall_cons in Hall as [<- _]. apply formatDate_chars.
Qed.

Lemma written_paths_groups_NoDup (groups : list (jsstring * list FileWithDate)) :
  NoDup groups.*1 →
  (∀ g, g ∈ groups → forallb head_char g.1 = true) →
  NoDup (written_paths (concat ((λ g, group_trace g.1 g.2) <$> groups))).
Proof.
  induction groups as [| g groups IH]; intros Hnd Hch.
  - constructor.
  - rewrite fmap_cons in Hnd. apply NoDup_cons in Hnd as [Hg Hnd].
    rewrite fmap_cons. cbn [concat]. rewrite written_paths_app.
    apply NoDup_app. split; [apply written_from_NoDup |].
    split; [| apply IH; [done | intros; apply Hch; by right]].
    intros p Hp Hp'.
    apply written_from_NoDup in Hp as (j & _ & ->).
    apply written_paths_concat in Hp' as (g' & Hg' & Hp').
    apply written_from_NoDup in Hp' as (j' & _ & Heq).
    apply sequence_file_inj in Heq as [Heq _];
      [| apply Hch; left | apply Hch; by right].
    apply Hg. rewrite Heq. by apply list_elem_of_fmap_2.
Qed.

Lemma run_written_NoDup tz files dir :
  NoDup (written_paths (downloadAndSaveJSON tz files dir).2).
Proof.
  unfold downloadAndSaveJSON. rewrite process_groups_trace. simpl.
  apply written_paths_groups_NoDup.
  - apply group_by_date_NoDup.
  - intros g Hg. by eapply group_by_date_key_chars.
Qed.

(** Where no name is written twice, a file holds what was written to it. *)
Lemma apply_writes_NoDup tr dir p data :
  NoDup (written_paths tr) → WriteFile p data ∈ tr →
  apply_writes tr dir !! p = Some data.
Proof.
  revert dir. induction tr as [| e tr IH]; intros dir Hnd Hin.
  - by apply elem_of_nil in Hin.
  - destruct e as [o | path d].
    + rewrite apply_writes_download. apply elem_of_cons in Hin as [? | Hin]; [done |].
      by apply IH.
    + change (written_paths (WriteFile path d :: tr)) with (path :: written_paths tr) in Hnd.
      apply NoDup_cons in Hnd as [Hp Hnd]. rewrite apply_writes_write.
      apply elem_of_cons in Hin as [Heq | Hin].
      * inversion Heq; subst. rewrite apply_writes_frame by done.
        by rewrite lookup_insert_eq.
      * by apply IH.
Qed.

(** The object at index [i] of a group, when it is stored, is written to
    the file of that index. *)
Lemma stored_is_written dateStr fds k i fd c :
  fds !! i = Some fd → download (file fd) = Some c → trim c ≠ [] →
  WriteFile (sequence_file dateStr (k + i)) (trim c)
  ∈ (process_from dateStr k fds (∅, [])).2.
Proof.
  revert k i. induction fds as [| fd' fds IH]; intros k i Hi Hc Hne; [done |].
  cbn [process_from]. rewrite process_from_trace. apply elem_of_app.
  destruct i as [| i]; simpl in Hi.
  - inversion Hi; subst fd'. left. unfold process_file. rewrite Hc. simpl.
    destruct (trim c) eqn:Ht; [done |]. simpl.
    rewrite Nat.add_0_r. right. left.
  - right. replace (k + S i)%nat with (S k + i)%nat by lia. by apply IH.
Qed.

Lemma run_stores tz files dir (g : jsstring * list FileWithDate) i fd c :
  g ∈ groups_of tz files dir → g.2 !! i = Some fd →
  download (file fd) = Some c → trim c ≠ [] →
  (downloadAndSaveJSON tz files dir).1 !! sequence_file g.1 i = Some (trim c).
Proof.
  intros Hg Hi Hc Hne.
  assert (Hdir : (downloadAndSaveJSON tz files dir).1
                 = apply_writes (downloadAndSaveJSON tz files dir).2 dir).
  { unfold downloadAndSaveJSON. by rewrite process_groups_dir, process_groups_trace. }
  rewrite Hdir. apply apply_writes_NoDup; [apply run_written_NoDup |].
  unfold downloadAndSaveJSON. rewrite process_groups_trace. simpl.
  apply elem_of_concat. exists (group_trace g.1 g.2).
  split; [by apply (stored_is_written g.1 g.2 0 i fd c) |].
  apply list_elem_of_fmap. by exists g.
Qed.

(** X2. No file is written twice in a run, so that every write of the run
    stands at its end: the file holds what was written to it. *)
Theorem sync_writes_each_name_once (tz : TimeZone) (files : list RemoteObject)
    (dir : directory) :
  NoDup (written_paths (downloadAndSaveJSON tz files dir).2)
  ∧ ∀ path data,
      WriteFile path data ∈ (downloadAndSaveJSON tz files dir).2 →
      (downloadAndSaveJSON tz files dir).1 !! path = Some data.
Proof.
  split; [apply run_written_NoDup |]. intros path data Hin.
  assert (Hdir : (downloadAndSaveJSON tz files dir).1
                 = apply_writes (downloadAndSaveJSON tz files dir).2 dir).
  { unfold downloadAndSaveJSON. by rewrite process_groups_dir, process_groups_trace. }
  rewrite Hdir. apply apply_writes_NoDup; [apply run_written_NoDup | done].
Qed.

(** X3. After a run, the file numbered [i] of a date holds the trimmed contents
    of the object at index [i] of the group of that date, when that object
    downloads and is not blank. *)
Theorem sync_stores_trimmed_contents (tz : TimeZone) (files : list RemoteObject)
    (dir : directory) (g : jsstring * list FileWithDate) (i : nat)
    (fd : FileWithDate) (c : jsstring) :
  g ∈ groups_of tz files dir → g.2 !! i = Some fd →
  download (file fd) = Some c → trim c ≠ [] →
  (downloadAndSaveJSON tz files dir).1 !! sequence_file g.1 i = Some (trim c).
Proof. apply run_stores. Qed.

Lemma sync_stores_trimmed_contents_witness :
  (downloadAndSaveJSON utc_zone blank_then_full
     {[ str "07-03-2024-S1.json" := str "old" ]}).1 !! str "07-03-2024-S1.json"
  = Some (dq "{'b':1}").
Proof.
  apply (sync_stores_trimmed_contents utc_zone blank_then_full
           {[ str "07-03-2024-S1.json" := str "old" ]}
           (str "07-03-2024", as_file <$> blank_then_full)
           1%nat
           (as_file {| obj_name := str "logs/b.json";
                       timeCreated := Date_UTC 2024 2 7 11 0;
                       download := Some (dq "{'b':1}") |})
           (dq "{'b':1}")).
  - vm_compute. left.
  - reflexivity.
  - reflexivity.
  - by vm_compute.
Defined.

End NamesFacts.

(** ** The stable sort *)

Module StableSort.
Import SortFacts.

(** Equal keys keep their order through the sort. *)
Lemma insert_sorted_filter {A} (key : A → Z) (k : Z) (x : A) (l : list A) :
  filter (λ y, key y = k) (insert_sorted key x l)
  = filter (λ y, key y = k) (x :: l).
Proof.
  induction l as [| y l IH]; [done |].
  cbn [insert_sorted]. destruct (key x <=? key y) eqn:Hxy; [done |].
  apply Z.leb_gt in Hxy.
  rewrite filter_cons, IH, !filter_cons.
  destruct (decide (key y = k)) as [Hy |]; [| done].
  destruct (decide (key x = k)) as [Hx |]; [lia | done].
Qed.

Lemma stable_sort_by_filter {A} (key : A → Z) (k : Z) (l : list A) :
  filter (λ y, key y = k) (stable_sort_by key l) = filter (λ y, key y = k) l.
Proof.
  unfold stable_sort_by. induction l as [| x l IH]; [done |].
  cbn [foldr]. rewrite insert_sorted_filter, !filter_cons, IH. done.
Qed.

Lemma stable_sort_by_sorted {A} (key : A → Z) (l : list A) :
  StronglySorted (λ a b, key a ≤ key b) (stable_sort_by key l).
Proof.
  unfold stable_sort_by. induction l as [| x l IH]; [constructor |].
  cbn [foldr]. set (s := foldr (insert_sorted key) [] l) in *. clearbody s.
  induction s as [| y s IHs]; simpl.
  - repeat constructor.
  - apply StronglySorted_cons in IH as [Hy Hs].
    destruct (key x <=? key y) eqn:Hxy.
    + apply Z.leb_le in Hxy. constructor; [by apply StronglySorted_cons |].
      constructor; [done |]. eapply Forall_impl; [exact Hy |]. simpl. intros; lia.
    + apply Z.leb_gt in Hxy. constructor; [by apply IHs |].
      rewrite insert_sorted_Permutation. constructor; [lia | done].
Qed.

Lemma strictly_sorted {A} (key : A → Z) (l : list A) :
  StronglySorted (λ a b, key a ≤ key b) l → NoDup (key <$> l) →
  StronglySorted (λ a b, key a < key b) l.
Proof.
  induction 1 as [| x l Hs IH Hx]; intros Hnd; [constructor |].
  rewrite fmap_cons in Hnd. apply NoDup_cons in Hnd as [Hin Hnd].
  constructor; [by apply IH |].
  apply Forall_forall. intros y Hy. rewrite Forall_forall in Hx.
  specialize (Hx y Hy). simpl in Hx.
  assert (key x ≠ key y); [| lia].
  intros Heq. apply Hin. rewrite Heq. by apply list_elem_of_fmap_2.
Qed.

Lemma sorted_unique {A} (key : A → Z) (l l' : list A) :
  l ≡ₚ l' → NoDup (key <$> l) →
  stable_sort_by key l = stable_sort_by key l'.
Proof.
  intros Hp Hnd.
  assert (Hnd' : NoDup (key <$> l')) by by rewrite <- Hp.
  apply (StronglySorted_unique_strong (λ a b, key a < key b)).
  - intros x y _ _ Hxy Hyx. lia.
  - apply strictly_sorted; [apply stable_sort_by_sorted |].
    by rewrite stable_sort_by_Permutation.
  - apply strictly_sorted; [apply stable_sort_by_sorted |].
    by rewrite stable_sort_by_Permutation.
  - by rewrite !stable_sort_by_Permutation.
Qed.

Lemma filter_comm {A} (P Q : A → Prop) `{!∀ x, Decision (P x), !∀ x, Decision (Q x)}
    (l : list A) :
  filter P (filter Q l) = filter Q (filter P l).
Proof.
  induction l as [| x l IH]; [done |].
  rewrite !filter_cons.
  destruct (decide (Q x)), (decide (P x)); rewrite ?filter_cons;
    rewrite ?decide_True, ?decide_False by done; by rewrite IH.
Qed.

End StableSort.


(** ** The date groups and the next watermark *)

Module SyncRun.
Import TextSpec Index ResolverSpec SyncSpec GroupSpec AggregateSpec DateSpec.
Import PathFragment Pattern NumberFacts Sync DateFacts NamesFacts TrimFacts SortFacts
  StableSort.

Lemma files_of_push key x groups k :
  files_of k (group_push key x groups)
  = if decide (key = k) then files_of k groups ++ [x] else files_of k groups.
Proof.
  induction groups as [| [k' xs] groups IH]; simpl.
  - destruct (decide (key = k)); done.
  - destruct (decide (k' = key)) as [-> | Hne]; simpl.
    + destruct (decide (key = k)); done.
    + destruct (decide (k' = k)) as [-> |].
      * by rewrite decide_False by done.
      * apply IH.
Qed.

Lemma files_of_elem (groups : list (jsstring * list FileWithDate)) k xs :
  NoDup groups.*1 → (k, xs) ∈ groups → files_of k groups = xs.
Proof.
  induction groups as [| [k' ys] groups IH]; intros Hnd Hin.
  - by apply elem_of_nil in Hin.
  - rewrite fmap_cons in Hnd. apply NoDup_cons in Hnd as [Hk Hnd]. simpl in *.
    apply elem_of_cons in Hin as [Heq | Hin].
    + inversion Heq; subst. by rewrite decide_True.
    + destruct (decide (k' = k)) as [-> |]; [| by apply IH].
      exfalso. apply Hk. by apply (list_elem_of_fmap_2 fst _ (k, xs)).
Qed.

Section WithTimeZone.

Variable tz : TimeZone.

Lemma files_of_group_by_date l k :
  files_of k (group_by_date tz l)
  = filter (λ fd, formatDate tz (created fd) = k) l.
Proof.
  unfold group_by_date.
  enough (H : ∀ groups,
    files_of k (foldl (λ groups fd, group_push (formatDate tz (created fd)) fd groups)
                  groups l)
    = files_of k groups ++ filter (λ fd, formatDate tz (created fd) = k) l)
    by apply (H []).
  induction l as [| x l IH]; intros groups; simpl.
  - by rewrite app_nil_r.
  - rewrite IH, files_of_push, filter_cons.
    destruct (decide (formatDate tz (created x) = k)); [| done].
    by rewrite <- app_assoc.
Qed.

Lemma group_is_filter l g :
  g ∈ group_by_date tz l →
  g.2 = filter (λ fd, formatDate tz (created fd) = g.1) l.
Proof.
  intros Hg. rewrite <- files_of_group_by_date. symmetry.
  apply files_of_elem; [apply group_by_date_NoDup | by destruct g].
Qed.

(** X4. The date groups of a run: no date has two groups; a group is exactly
    the part of the sorted list of kept objects that has its date, so that
    it is in ascending order of creation, objects created at the same
    instant staying in the order of the listing; and every kept object is in
    the group of its date. *)
Theorem date_groups_exact (files : list RemoteObject) (dir : directory) :
  NoDup (groups_of tz files dir).*1
  ∧ (∀ g, g ∈ groups_of tz files dir →
       g.2 ≠ []
       ∧ g.2 = filter (λ fd, formatDate tz (created fd) = g.1) (sorted_of tz files dir)
       ∧ ∀ t, filter (λ fd, created fd = t) g.2
              = filter (λ fd, created fd = t)
                  (filter (λ fd, formatDate tz (created fd) = g.1)
                     (collect (getLatestProcessedFile tz (readdirSync dir)) files)))
  ∧ (∀ fd, fd ∈ sorted_of tz files dir →
       ∃ g, g ∈ groups_of tz files dir ∧ g.1 = formatDate tz (created fd) ∧ fd ∈ g.2).
Proof.
  unfold groups_of, sorted_of. split; [apply group_by_date_NoDup |]. split.
  - intros g Hg. pose proof (group_is_filter _ _ Hg) as Hf.
    apply group_by_date_elem in Hg as (_ & _ & Hne).
    split; [done |]. split; [done |].
    intros t. rewrite Hf at 1.
    rewrite !(filter_comm (λ fd, created fd = t)).
    unfold sort_by_created. by rewrite stable_sort_by_filter.
  - intros fd Hfd.
    set (l := sort_by_created _) in *.
    destruct (decide (files_of (formatDate tz (created fd)) (group_by_date tz l) = []))
      as [Hnil | Hne].
    + rewrite files_of_group_by_date in Hnil.
      assert (Hin : fd ∈ filter (λ x, formatDate tz (created x) = formatDate tz (created fd)) l)
        by by apply list_elem_of_filter.
      rewrite Hnil in Hin. by apply elem_of_nil in Hin.
    + assert (Hex : ∃ xs, (formatDate tz (created fd), xs) ∈ group_by_date tz l).
      { clear -Hne. induction (group_by_date tz l) as [| [k xs] gs IH]; [done |].
        simpl in Hne. destruct (decide (k = formatDate tz (created fd))) as [-> |].
        - exists xs. left.
        - destruct (IH Hne) as [ys ?]. exists ys. by right. }
      destruct Hex as [xs Hxs]. exists (formatDate tz (created fd), xs).
      split; [done |]. split; [done |].
      rewrite (group_is_filter _ _ Hxs). simpl. by apply list_elem_of_filter.
Qed.

(** X5. What is written is never empty and has no blank at either end. *)
Theorem sync_writes_trimmed (files : list RemoteObject) (dir : directory)
    (path data : jsstring) :
  WriteFile path data ∈ (downloadAndSaveJSON tz files dir).2 →
  data ≠ [] ∧ trim data = data.
Proof.
  unfold downloadAndSaveJSON. rewrite process_groups_trace. cbn [snd app].
  intros (tr & Hin & Htr)%elem_of_concat.
  apply list_elem_of_fmap in Htr as (g & -> & _).
  unfold group_trace in Hin. revert Hin. generalize 0%nat.
  induction g.2 as [| fd fds IH]; intros k; [by intros ?%elem_of_nil |].
  cbn [process_from]. rewrite process_from_trace.
  intros [Hin | Hin]%elem_of_app; [| by eapply IH].
  unfold process_file in Hin. destruct (download (file fd)) as [c |]; simpl in Hin.
  - destruct (trim c) as [| x t] eqn:Ht; simpl in Hin.
    + by apply list_elem_of_singleton in Hin.
    + apply elem_of_cons in Hin as [? | Hin]; [done |].
      apply list_elem_of_singleton in Hin. inversion Hin; subst.
      split; [done |]. rewrite <- Ht. apply trim_idemp.
  - by apply list_elem_of_singleton in Hin.
Qed.

Lemma readdirSync_elem (dir : directory) (p v : jsstring) :
  dir !! p = Some v → p ∈ readdirSync dir.
Proof.
  intros H. unfold readdirSync. apply list_elem_of_fmap. exists (p, v).
  split; [done |]. by apply elem_of_map_to_list.
Qed.

(** X6. The watermark that the next run resolves is at least the local midnight
    of the day of every object this run stored (with a four-digit local
    year), with the index of the object; so the next run, whatever the
    bucket then lists, downloads no object created at or before that
    midnight. *)
Theorem sync_advances_watermark (files : list RemoteObject) (dir : directory)
    (g : jsstring * list FileWithDate) (i : nat) (fd : FileWithDate) :
  g ∈ groups_of tz files dir → g.2 !! i = Some fd → stored fd = true →
  1000 ≤ getFullYear tz (created fd) ≤ 9999 →
  (∃ w, getLatestProcessedFile tz (readdirSync (downloadAndSaveJSON tz files dir).1)
        = Some w
        ∧ lex_le (local_midnight tz (created fd), to_double (Z.of_nat i))
            (date w, sequence w))
  ∧ ∀ files' o,
      timeCreated o ≤ local_midnight tz (created fd) →
      Download o ∉ (downloadAndSaveJSON tz files' (downloadAndSaveJSON tz files dir).1).2.
Proof.
  intros Hg Hi Hst Hy.
  assert (Hkey : g.1 = formatDate tz (created fd)).
  { unfold groups_of in Hg. apply group_by_date_elem in Hg as (_ & Hall & _).
    rewrite Forall_forall in Hall. symmetry. apply Hall.
    by eapply list_elem_of_lookup_2. }
  unfold stored in Hst. destruct (download (file fd)) as [c |] eqn:Hc; [| done].
  assert (Hne : trim c ≠ []) by (by destruct (trim c)).
  pose proof (run_stores tz files dir g i fd c Hg Hi Hc Hne) as Hfile.
  apply readdirSync_elem in Hfile. rewrite Hkey in Hfile.
  pose proof (Resolver.resolver_greatest tz
                (readdirSync (downloadAndSaveJSON tz files dir).1)) as Hmax.
  assert (He : (local_midnight tz (created fd), to_double (Z.of_nat i))
               ∈ omap (entry_of tz) (readdirSync (downloadAndSaveJSON tz files dir).1)).
  { apply list_elem_of_omap. eexists. split; [exact Hfile |].
    by apply sequence_file_entry. }
  destruct (getLatestProcessedFile tz (readdirSync (downloadAndSaveJSON tz files dir).1))
    as [w |] eqn:Hw; [| rewrite Hmax in He; by apply elem_of_nil in He].
  destruct Hmax as [_ Hub]. specialize (Hub _ He).
  split; [by exists w |].
  intros files' o Ho Hin.
  assert (Hd : o ∈ SyncSpec.downloaded (downloadAndSaveJSON tz files'
                                 (downloadAndSaveJSON tz files dir).1).2).
  { unfold SyncSpec.downloaded. apply list_elem_of_omap. by exists (Download o). }
  rewrite downloaded_kept, list_elem_of_filter, Hw in Hd. destruct Hd as [Hk _].
  unfold keep in Hk. apply andb_true_iff in Hk as [_ Hk].
  apply negb_true_iff, Z.leb_gt in Hk. cbn [date] in Hk.
  assert (local_midnight tz (created fd) ≤ date w).
  { destruct Hub as [? | [? _]]; simpl in *; lia. }
  lia.
Qed.

End WithTimeZone.

(** X7. While the kept objects have distinct creation instants, the run does
    not depend on the order of the listing. *)
Theorem sync_listing_order (tz : TimeZone) (files files' : list RemoteObject)
    (dir : directory) :
  files ≡ₚ files' →
  NoDup (created <$> collect (getLatestProcessedFile tz (readdirSync dir)) files) →
  downloadAndSaveJSON tz files dir = downloadAndSaveJSON tz files' dir.
Proof.
  intros Hp Hnd. unfold downloadAndSaveJSON, sort_by_created.
  rewrite (sorted_unique created _
             (collect (getLatestProcessedFile tz (readdirSync dir)) files'));
    [done | | done].
  unfold collect. by rewrite Hp.
Qed.

Lemma sync_listing_order_witness :
  downloadAndSaveJSON utc_zone blank_then_full ∅
  = downloadAndSaveJSON utc_zone (reverse blank_then_full) ∅.
Proof.
  apply sync_listing_order.
  - apply Permutation_swap.
  - vm_compute. apply NoDup_cons. split; [| apply NoDup_singleton].
    intros Hin%list_elem_of_singleton. discriminate.
Defined.

Lemma apply_writes_nothing tr dir : written_paths tr = [] → apply_writes tr dir = dir.
Proof.
  intros H. apply map_eq. intros p. apply apply_writes_frame.
  rewrite H. by intros ?%elem_of_nil.
Qed.

(** X8. A run in which no kept object downloads with contents that are not
    blank leaves the directory as it was. *)
Theorem sync_nothing_stored (tz : TimeZone) (files : list RemoteObject)
    (dir : directory) :
  (∀ fd, fd ∈ collect (getLatestProcessedFile tz (readdirSync dir)) files →
         stored fd = false) →
  (downloadAndSaveJSON tz files dir).1 = dir.
Proof.
  intros Hall.
  assert (Hdir : (downloadAndSaveJSON tz files dir).1
                 = apply_writes (downloadAndSaveJSON tz files dir).2 dir).
  { unfold downloadAndSaveJSON. by rewrite process_groups_dir, process_groups_trace. }
  rewrite Hdir. apply apply_writes_nothing.
  destruct (written_paths (downloadAndSaveJSON tz files dir).2) as [| p ps] eqn:Hw;
    [done | exfalso].
  assert (Hp : p ∈ written_paths (downloadAndSaveJSON tz files dir).2)
    by (rewrite Hw; left).
  clear Hw. unfold downloadAndSaveJSON in Hp. rewrite process_groups_trace in Hp.
  cbn [snd app] in Hp. apply written_paths_concat in Hp as (g & Hg & Hp).
  unfold group_trace in Hp. rewrite written_from in Hp.
  apply list_elem_of_omap in Hp as ([i fd] & Hin & Hst). cbn [fst snd] in Hst.
  destruct (stored fd) eqn:Hfd; [| done].
  apply elem_of_zip_r in Hin.
  apply group_by_date_elem in Hg as (Hsub & _ & _).
  pose proof (elem_of_sublist _ _ _ Hin Hsub) as Hs.
  rewrite sort_by_created_Permutation in Hs.
  rewrite (Hall fd Hs) in Hfd. done.
Qed.

Lemma sync_nothing_stored_witness :
  (downloadAndSaveJSON utc_zone
     [ {| obj_name := str "logs/a.json"; timeCreated := Date_UTC 2024 2 7 10 0;
          download := None |};
       obj "logs/b.json" (Date_UTC 2024 2 7 11 0) "   ";
       obj "logs/c.txt" (Date_UTC 2024 2 7 12 0) "text" ]
     {[ str "06-03-2024-S0.json" := str "old" ]}).1
  = {[ str "06-03-2024-S0.json" := str "old" ]}.
Proof.
  apply sync_nothing_stored. vm_compute.
  intros fd Hin.
  repeat (apply elem_of_cons in Hin as [-> | Hin]; [reflexivity |]).
  by apply elem_of_nil in Hin.
Defined.

Lemma sync_writes_trimmed_witness :
  dq "{'b':1}" ≠ [] ∧ trim (dq "{'b':1}") = dq "{'b':1}".
Proof.
  apply (sync_writes_trimmed utc_zone blank_then_full ∅ (str "07-03-2024-S1.json")).
  vm_compute. right. right. left.
Defined.

Lemma sync_advances_watermark_witness :
  Download (obj "logs/late.json" (Date_UTC 2024 2 7 0 0) "late")
  ∉ (downloadAndSaveJSON utc_zone [obj "logs/late.json" (Date_UTC 2024 2 7 0 0) "late"]
       (downloadAndSaveJSON utc_zone blank_then_full ∅).1).2.
Proof.
  destruct (sync_advances_watermark utc_zone blank_then_full ∅
              (str "07-03-2024", as_file <$> blank_then_full) 1%nat
              (as_file {| obj_name := str "logs/b.json";
                          timeCreated := Date_UTC 2024 2 7 11 0;
                          download := Some (dq "{'b':1}") |}))
    as [_ H].
  - vm_compute. left.
  - reflexivity.
  - reflexivity.
  - by vm_compute.
  - apply H. by vm_compute.
Defined.

End SyncRun.

(** ** Runs of the aggregation *)

Module AggregateRun.
Import TextSpec Aggregate AggregateSpec CombinedSpec.
Import TrimFacts SortFacts StableSort Aggregation.

(** X9. [parseJsonContent] only looks at the trimmed text. *)
Theorem parseJsonContent_ignores_blanks (w content w' : jsstring) :
  blank w → blank w' →
  parseJsonContent (w ++ content ++ w') = parseJsonContent content.
Proof.
  intros Hw Hw'. unfold parseJsonContent. by rewrite trim_padded.
Qed.

Lemma parseJsonContent_ignores_blanks_witness :
  parseJsonContent (str "  " ++ dq "{'a':1}" ++ [LF; 9%N])
  = parseJsonContent (dq "{'a':1}").
Proof. apply parseJsonContent_ignores_blanks; reflexivity. Defined.

Section Run.

Variable print_literal : jsstring → jsstring.
Variable now : nat → Z.

(** The whole run is determined by the sorted list of selected files. *)
Lemma processLogs_by_sorted files files' dir :
  stable_sort_by created (select now 1 files)
  = stable_sort_by created (select now 1 files') →
  processLogs print_literal now files dir = processLogs print_literal now files' dir.
Proof.
  intros Heq. unfold processLogs.
  assert (Hlen : length (select now 1 files) = length (select now 1 files')).
  { rewrite <- (Permutation_length (stable_sort_by_Permutation created (select now 1 files))).
    rewrite <- (Permutation_length (stable_sort_by_Permutation created (select now 1 files'))).
    by rewrite Heq. }
  destruct (select now 1 files) as [| fd fds], (select now 1 files') as [| fd' fds'];
    try done.
  cbv zeta. by rewrite Heq.
Qed.

(** X10. The objects are downloaded by ascending creation instant, those of one
    instant in the order of the listing, and they are the selected objects,
    each downloaded once. *)
Theorem processLogs_download_order (files : list RemoteObject) (dir : directory) :
  StronglySorted (λ a b, timeCreated a ≤ timeCreated b)
    (downloaded (processLogs print_literal now files dir).2)
  ∧ downloaded (processLogs print_literal now files dir).2
    ≡ₚ file <$> select now 1 files
  ∧ ∀ t, filter (λ o, timeCreated o = t)
           (downloaded (processLogs print_literal now files dir).2)
         = filter (λ o, timeCreated o = t) (file <$> select now 1 files).
Proof.
  rewrite processLogs_downloaded.
  assert (Hc : ∀ l, Forall (λ fd, created fd = timeCreated (file fd)) l →
    ∀ t, filter (λ o, timeCreated o = t) (file <$> l)
         = file <$> filter (λ fd, created fd = t) l).
  { intros l Hl t. induction Hl as [| fd l Hfd Hl IH]; [done |].
    rewrite fmap_cons, !filter_cons, IH, <- Hfd.
    by destruct (decide (created fd = t)). }
  assert (Hsel : ∀ k l, Forall (λ fd, created fd = timeCreated (file fd)) (select now k l)).
  { intros k l. revert k. induction l as [| f l IH]; intros k; simpl; [constructor |].
    destruct (negb (endsWith (obj_name f) (str ".json"))); [apply IH |].
    destruct (negb (isFromToday (now k) (obj_name f))); [apply IH |].
    constructor; [done | apply IH]. }
  assert (Hsorted : Forall (λ fd, created fd = timeCreated (file fd))
                      (stable_sort_by created (select now 1 files))).
  { apply Forall_forall. intros fd Hfd. rewrite stable_sort_by_Permutation in Hfd.
    pose proof (Hsel 1%nat files) as Hall. rewrite Forall_forall in Hall.
    by apply Hall. }
  split; [| split].
  - pose proof (stable_sort_by_sorted created (select now 1 files)) as Hs.
    induction Hs as [| fd l Hs IH Hfd]; [constructor |].
    apply Forall_cons in Hsorted as [Heq Hrest].
    rewrite fmap_cons. constructor; [by apply IH |].
    rewrite Forall_fmap. rewrite Forall_forall in Hfd, Hrest. apply Forall_forall.
    intros x Hx. simpl. rewrite <- Heq, <- (Hrest x Hx). by apply Hfd.
  - apply fmap_Permutation, stable_sort_by_Permutation.
  - intros t. rewrite !Hc by done. by rewrite stable_sort_by_filter.
Qed.

End Run.

(** The path fragment of an instant depends on its UTC day only. *)
Lemma formatDatePath_Day (t t' : Z) : Day t = Day t' → formatDatePath t = formatDatePath t'.
Proof.
  intros H. unfold formatDatePath, getUTCFullYear, getUTCMonth, getUTCDate,
    YearFromTime, MonthFromTime, DateFromTime. by rewrite H.
Qed.

Lemma select_clock (now now' : nat → Z) (k : nat) (files : list RemoteObject) :
  (∀ k, Day (now' k) = Day (now k)) →
  select now' k files = select now k files.
Proof.
  intros Hday. revert k. induction files as [| f files IH]; intros k; [done |].
  cbn [select]. unfold isFromToday.
  by rewrite (formatDatePath_Day (now' k) (now k)), !IH.
Qed.

(** X11. A second run over the same listing, every reading of the clock falling
    on the same UTC day as in the first run, leaves the directory as the
    first run left it. *)
Theorem processLogs_idempotent (print_literal : jsstring → jsstring)
    (now now' : nat → Z) (files : list RemoteObject) (dir : directory) :
  (∀ k, Day (now' k) = Day (now k)) →
  (processLogs print_literal now' files (processLogs print_literal now files dir).1).1
  = (processLogs print_literal now files dir).1.
Proof.
  intros Hday. pose proof (select_clock now now' 1 files Hday) as Hsel.
  destruct (decide (select now 1 files = [])) as [Hnil | Hne].
  - unfold processLogs. by rewrite Hsel, Hnil.
  - apply map_eq. intros p. destruct (decide (p = TODAY_FILE)) as [-> | Hp].
    + rewrite !processLogs_contents by (by rewrite ?Hsel). by rewrite Hsel.
    + by rewrite processLogs_other.
Qed.

Lemma processLogs_idempotent_witness :
  (processLogs (λ l, l) (λ _, noon + 1000)
     [two_lines (str "logs/2024/03/07/b.json") (Date_UTC 2024 2 7 9 30)]
     (processLogs (λ l, l) (λ _, noon)
        [two_lines (str "logs/2024/03/07/b.json") (Date_UTC 2024 2 7 9 30)]
        {[ TODAY_FILE := dq "{'old':0}" ]}).1).1
  = (processLogs (λ l, l) (λ _, noon)
       [two_lines (str "logs/2024/03/07/b.json") (Date_UTC 2024 2 7 9 30)]
       {[ TODAY_FILE := dq "{'old':0}" ]}).1.
Proof. apply processLogs_idempotent. intros k. reflexivity. Defined.

Lemma select_matching now today files k :
  (∀ k, Day (now k) = Day today) →
  select now k files
  = as_today_file <$> filter (λ o, matches (formatDatePath today) o = true) files.
Proof.
  intros Hday. revert k. induction files as [| f files IH]; intros k; [done |].
  rewrite filter_cons. cbn [select]. unfold isFromToday.
  rewrite (formatDatePath_Day (now k) today) by done.
  destruct (endsWith (obj_name f) (str ".json")) eqn:He; cbn [negb].
  - destruct (includes (obj_name f) (formatDatePath today)) eqn:Hi; cbn [negb].
    + rewrite decide_True by (unfold matches; by rewrite He, Hi).
      rewrite fmap_cons. f_equal. apply IH.
    + rewrite decide_False by (unfold matches; by rewrite He, Hi). apply IH.
  - rewrite decide_False by (unfold matches; by rewrite He). apply IH.
Qed.

(** X12. While the UTC day does not change and the matching objects have
    distinct creation instants, the run does not depend on the order of the
    listing. *)
Theorem processLogs_listing_order (print_literal : jsstring → jsstring) (now : nat → Z)
    (today : Z) (files files' : list RemoteObject) (dir : directory) :
  (∀ k, Day (now k) = Day today) →
  files ≡ₚ files' →
  NoDup (timeCreated <$> filter (λ o, matches (formatDatePath today) o = true) files) →
  processLogs print_literal now files dir = processLogs print_literal now files' dir.
Proof.
  intros Hday Hp Hnd. apply processLogs_by_sorted.
  rewrite !(select_matching now today) by done.
  apply sorted_unique.
  - by rewrite Hp.
  - by rewrite <- list_fmap_compose.
Qed.

Lemma processLogs_listing_order_witness :
  processLogs (λ l, l) (λ _, noon)
    [two_lines (str "logs/2024/03/07/b.json") (Date_UTC 2024 2 7 9 30);
     single_doc (str "logs/2024/03/07/a.json") (Date_UTC 2024 2 7 9 0)] ∅
  = processLogs (λ l, l) (λ _, noon)
      [single_doc (str "logs/2024/03/07/a.json") (Date_UTC 2024 2 7 9 0);
       two_lines (str "logs/2024/03/07/b.json") (Date_UTC 2024 2 7 9 30)] ∅.
Proof.
  apply (processLogs_listing_order (λ l, l) (λ _, noon) noon).
  - intros k. reflexivity.
  - apply Permutation_swap.
  - vm_compute. apply NoDup_cons. split; [| apply NoDup_singleton].
    intros Hin%list_elem_of_singleton. discriminate.
Defined.

End AggregateRun.

(** ** One value per line *)

Module LineFacts.
Import TextSpec Aggregate AggregateSpec.
Import NamesFacts.

Lemma no_line_feed_app s t : no_line_feed s → no_line_feed t → no_line_feed (s ++ t).
Proof. unfold no_line_feed. intros ? ? [?|?]%elem_of_app; done. Qed.

Lemma hex_digit_no_LF d : hex_digit d ≠ LF.
Proof. unfold hex_digit, LF. destruct (d <? 10)%N; lia. Qed.

Lemma unicode_escape_no_LF c : no_line_feed (unicode_escape c).
Proof.
  unfold no_line_feed, unicode_escape. intros Hin.
  repeat (apply elem_of_cons in Hin as [Hin | Hin];
          [first [discriminate | by eapply hex_digit_no_LF] |]).
  by apply elem_of_nil in Hin.
Qed.

Lemma quote_unit_no_LF c : no_line_feed (quote_unit c).
Proof.
  unfold quote_unit.
  repeat match goal with
         | |- context [if ?b then _ else _] => destruct b eqn:?
         end;
    try apply unicode_escape_no_LF;
    try (unfold no_line_feed; vm_compute; intros Hin;
         repeat (apply elem_of_cons in Hin as [Hin | Hin]; [discriminate |]);
         by apply elem_of_nil in Hin).
  unfold no_line_feed. intros Hin%list_elem_of_singleton. unfold LF in Hin. subst c.
  discriminate.
Qed.

Lemma quote_units_no_LF s : no_line_feed (quote_units s).
Proof.
  induction s as [s IH] using (induction_ltof1 _ (@length N)). unfold ltof in IH.
  destruct s as [| c t]; [by intros ?%elem_of_nil |].
  cbn [quote_units]. destruct (is_high_surrogate c) eqn:Hc.
  - destruct t as [| d t']; [apply quote_unit_no_LF |].
    destruct (is_low_surrogate d) eqn:Hd.
    + unfold no_line_feed. intros [Hin | [Hin | Hin]%elem_of_cons]%elem_of_cons.
      * subst c. discriminate.
      * subst d. discriminate.
      * revert Hin. apply IH. simpl. lia.
    + apply no_line_feed_app; [apply quote_unit_no_LF | apply IH; simpl; lia].
  - apply no_line_feed_app; [apply quote_unit_no_LF | apply IH; simpl; lia].
Qed.

Lemma quote_no_LF s : no_line_feed (quote s).
Proof.
  unfold quote. apply no_line_feed_app; [| apply no_line_feed_app].
  - by intros ?%list_elem_of_singleton.
  - apply quote_units_no_LF.
  - by intros ?%list_elem_of_singleton.
Qed.

Lemma join_comma_no_LF parts :
  Forall no_line_feed parts → no_line_feed (join_comma parts).
Proof.
  induction 1 as [| p parts Hp Hparts IH]; [by intros ?%elem_of_nil |].
  cbn [join_comma]. destruct parts as [| q parts]; [done |].
  apply no_line_feed_app; [done |]. apply no_line_feed_app; [| done].
  by intros ?%list_elem_of_singleton.
Qed.

Lemma Number_toString_no_LF z : no_line_feed (Number_toString z).
Proof.
  intros Hin. apply list_elem_of_In in Hin.
  pose proof (Number_toString_chars z) as H. rewrite forallb_forall in H.
  by apply H in Hin.
Qed.

Section Stringify.

Variable print_literal : jsstring → jsstring.
Hypothesis print_literal_no_LF : ∀ lexeme, no_line_feed (print_literal lexeme).

(** A value prints on one line. *)
Lemma stringify_no_LF : ∀ v, no_line_feed (stringify print_literal v).
Proof.
  fix IH 1. intros [| [|] | [z | l] | s | elements | properties]; cbn [stringify number_text].
  - by vm_compute; intros Hin;
      repeat (apply elem_of_cons in Hin as [Hin | Hin]; [discriminate |]);
      apply elem_of_nil in Hin.
  - by vm_compute; intros Hin;
      repeat (apply elem_of_cons in Hin as [Hin | Hin]; [discriminate |]);
      apply elem_of_nil in Hin.
  - by vm_compute; intros Hin;
      repeat (apply elem_of_cons in Hin as [Hin | Hin]; [discriminate |]);
      apply elem_of_nil in Hin.
  - apply Number_toString_no_LF.
  - apply print_literal_no_LF.
  - apply quote_no_LF.
  - apply no_line_feed_app; [by intros ?%list_elem_of_singleton |].
    apply no_line_feed_app; [| by intros ?%list_elem_of_singleton].
    apply join_comma_no_LF.
    induction elements as [| e elements IHe]; [constructor |].
    constructor; [apply IH | apply IHe].
  - apply no_line_feed_app; [by intros ?%list_elem_of_singleton |].
    apply no_line_feed_app; [| by intros ?%list_elem_of_singleton].
    apply join_comma_no_LF.
    induction properties as [| [k e] properties IHp]; [constructor |].
    constructor; [| apply IHp].
    cbn [fst snd]. apply no_line_feed_app; [apply quote_no_LF |].
    apply no_line_feed_app; [by intros ?%list_elem_of_singleton | apply IH].
Qed.

End Stringify.

Lemma split_lines_line s rest :
  no_line_feed s → split_lines (s ++ LF :: rest) = s :: split_lines rest.
Proof.
  unfold no_line_feed. induction s as [| c s IH]; intros Hs.
  - simpl. done.
  - apply not_elem_of_cons in Hs as [Hc Hs]. cbn [app split_lines].
    replace (c =? LF)%N with false by (symmetry; apply N.eqb_neq; congruence).
    by rewrite IH.
Qed.

Lemma split_lines_chunks (lines : list jsstring) :
  Forall no_line_feed lines →
  split_lines (concat ((λ s, s ++ [LF]) <$> lines)) = lines ++ [[]].
Proof.
  induction 1 as [| s lines Hs Hl IH]; [done |].
  rewrite fmap_cons. cbn [concat]. rewrite <- app_assoc. cbn [app].
  rewrite split_lines_line by done. by rewrite IH.
Qed.

End LineFacts.

(** ** The combined file *)

Module CombinedFile.
Import TextSpec Aggregate AggregateSpec CombinedSpec.
Import SortFacts Aggregation LineFacts.

Lemma lines_of_values print_literal fd :
  lines_of print_literal fd
  = (λ v, stringify print_literal v ++ [LF]) <$> values_of fd.
Proof.
  unfold lines_of, values_of.
  destruct (download (file fd)) as [rawText |]; [| done].
  destruct (trim rawText); [done |].
  destruct (parseJsonContent rawText); done.
Qed.

Lemma concat_lines_of print_literal fds :
  concat (lines_of print_literal <$> fds)
  = (λ v, stringify print_literal v ++ [LF]) <$> concat (values_of <$> fds).
Proof.
  induction fds as [| fd fds IH]; [done |].
  rewrite !fmap_cons. cbn [concat]. rewrite IH, lines_of_values, !fmap_app. done.
Qed.

Section Run.

Variable print_literal : jsstring → jsstring.
Variable now : nat → Z.

Lemma processLogs_values files dir :
  select now 1 files ≠ [] →
  (processLogs print_literal now files dir).1 !! TODAY_FILE
  = Some (lines_text print_literal
            (concat (values_of <$> stable_sort_by created (select now 1 files)))).
Proof.
  intros Hne. rewrite processLogs_contents by done.
  unfold lines_text. by rewrite concat_lines_of.
Qed.

(** X13. When something is selected, the combined file is rewritten from
    scratch: whatever it held, it holds afterwards one line for each value
    of the selected objects, these taken by ascending creation instant, and
    nothing else. *)
Theorem today_file_rewritten (files : list RemoteObject) (dir : directory) :
  select now 1 files ≠ [] →
  (processLogs print_literal now files dir).1 !! TODAY_FILE
  = Some (lines_text print_literal
            (concat (values_of <$> stable_sort_by created (select now 1 files)))).
Proof. apply processLogs_values. Qed.

(** X14. When objects are selected and none of them gives a value (the download
    fails, the text is blank or nothing in it parses), the combined file is
    left empty, whatever it held. *)
Theorem today_file_emptied (files : list RemoteObject) (dir : directory) :
  select now 1 files ≠ [] →
  (∀ fd, fd ∈ select now 1 files → values_of fd = []) →
  (processLogs print_literal now files dir).1 !! TODAY_FILE = Some [].
Proof.
  intros Hne Hall. rewrite processLogs_values by done. f_equal.
  assert (Hs : ∀ fd, fd ∈ stable_sort_by created (select now 1 files) →
                     values_of fd = []).
  { intros fd Hfd. apply Hall. by rewrite stable_sort_by_Permutation in Hfd. }
  assert (Hnil : concat (values_of <$> stable_sort_by created (select now 1 files)) = []).
  { induction (stable_sort_by created (select now 1 files)) as [| fd l IH]; [done |].
    rewrite fmap_cons. cbn [concat]. rewrite Hs by left. cbn [app].
    apply IH. intros; apply Hs. by right. }
  by rewrite Hnil.
Qed.

(** X15. The combined file holds one value per line: cut at the line feeds, it
    gives the values of the selected objects as [JSON.stringify] prints
    them, in order, and an empty last line. *)
Theorem today_file_one_value_per_line (files : list RemoteObject) (dir : directory) :
  (∀ lexeme, no_line_feed (print_literal lexeme)) →
  select now 1 files ≠ [] →
  ∃ content,
    (processLogs print_literal now files dir).1 !! TODAY_FILE = Some content
    ∧ split_lines content
      = (stringify print_literal
           <$> concat (values_of <$> stable_sort_by created (select now 1 files)))
        ++ [[]].
Proof.
  intros Hprint Hne. eexists. split; [by apply processLogs_values |].
  unfold lines_text. rewrite (list_fmap_compose (stringify print_literal) (λ s, s ++ [LF])).
  apply split_lines_chunks.
  apply Forall_fmap, Forall_forall. intros v _. by apply stringify_no_LF.
Qed.

End Run.

Lemma today_file_rewritten_witness :
  (processLogs (λ l, l) (λ _, noon)
     [two_lines (str "logs/2024/03/07/b.json") (Date_UTC 2024 2 7 9 30)]
     {[ TODAY_FILE := dq "{'old':0}" ]}).1 !! TODAY_FILE
  = Some (dq "{'y':2}" ++ [LF] ++ dq "{'y':3}" ++ [LF]).
Proof.
  apply (today_file_rewritten (λ l, l) (λ _, noon)
           [two_lines (str "logs/2024/03/07/b.json") (Date_UTC 2024 2 7 9 30)]).
  by vm_compute.
Defined.

Lemma today_file_emptied_witness :
  (processLogs (λ l, l) (λ _, noon)
     [ {| obj_name := str "logs/2024/03/07/a.json";
          timeCreated := Date_UTC 2024 2 7 9 0;
          download := Some (str "not json") |};
       {| obj_name := str "logs/2024/03/07/b.json";
          timeCreated := Date_UTC 2024 2 7 9 30;
          download := None |} ]
     {[ TODAY_FILE := dq "{'old':0}" ]}).1 !! TODAY_FILE
  = Some [].
Proof.
  apply today_file_emptied.
  - by vm_compute.
  - intros fd Hin. vm_compute in Hin.
    repeat (apply elem_of_cons in Hin as [-> | Hin]; [by vm_compute |]).
    by apply elem_of_nil in Hin.
Defined.

Lemma today_file_one_value_per_line_witness :
  ∃ content,
    (processLogs (λ _, str "0") (λ _, noon)
       [two_lines (str "logs/2024/03/07/b.json") (Date_UTC 2024 2 7 9 30)] ∅).1
      !! TODAY_FILE = Some content
    ∧ split_lines content = [dq "{'y':2}"; dq "{'y':3}"; []].
Proof.
  apply (today_file_one_value_per_line (λ _, str "0") (λ _, noon)
           [two_lines (str "logs/2024/03/07/b.json") (Date_UTC 2024 2 7 9 30)] ∅).
  - intros _. unfold no_line_feed. vm_compute.
    intros Hin%list_elem_of_singleton. discriminate.
  - by vm_compute.
Defined.

End CombinedFile.

(** ** More on the watermark resolver *)

Module ResolverFacts.
Import Index ResolverSpec SyncSpec.
Import Resolver Pattern Sync NamesFacts.

Section WithTimeZone.

Variable tz : TimeZone.

(** X16. Entries whose name does not end with ".json", or in which the pattern
    matches nowhere, do not count: the watermark is the same without
    them. *)
Theorem resolver_ignores_other_entries (files : list jsstring) :
  getLatestProcessedFile tz
    (filter (λ f, endsWith f (str ".json") = true ∧ is_Some (regex_match f)) files)
  = getLatestProcessedFile tz files.
Proof.
  assert (Hom : omap (entry_of tz)
                  (filter (λ f, endsWith f (str ".json") = true ∧ is_Some (regex_match f))
                     files)
                = omap (entry_of tz) files).
  { induction files as [| f files IH]; [done |].
    rewrite filter_cons.
    destruct (decide (endsWith f (str ".json") = true ∧ is_Some (regex_match f)))
      as [_ | Hno].
    - cbn [omap list_omap]. by rewrite IH.
    - rewrite IH. cbn [omap list_omap].
      assert (Hnone : entry_of tz f = None); [| by rewrite Hnone].
      unfold entry_of. destruct (endsWith f (str ".json")) eqn:He; [| done].
      destruct (regex_match f) as [m |] eqn:Hm; [| done].
      exfalso. apply Hno. split; [done | eauto]. }
  unfold getLatestProcessedFile. by rewrite !scan_entries, Hom.
Qed.

(** X17. The watermark does not move back when the directory gains entries. *)
Theorem resolver_monotone (files files' : list jsstring) (w : Watermark) :
  files ⊆ files' →
  getLatestProcessedFile tz files = Some w →
  ∃ w', getLatestProcessedFile tz files' = Some w'
        ∧ lex_le (date w, sequence w) (date w', sequence w').
Proof.
  intros Hsub Hw.
  pose proof (resolver_greatest tz files) as H. rewrite Hw in H. destruct H as [Hin _].
  apply list_elem_of_omap in Hin as (f & Hf & He).
  assert (Hin' : (date w, sequence w) ∈ omap (entry_of tz) files').
  { apply list_elem_of_omap. exists f. split; [by apply Hsub | done]. }
  pose proof (resolver_greatest tz files') as H'.
  destruct (getLatestProcessedFile tz files') as [w' |].
  - exists w'. split; [done |]. by apply H'.
  - rewrite H' in Hin'. by apply elem_of_nil in Hin'.
Qed.

(** X18. The watermark depends on the entries of the directory, not on the
    order in which [fs.readdirSync] lists them. *)
Theorem resolver_listing_order (files files' : list jsstring) :
  (∀ f, f ∈ files ↔ f ∈ files') →
  getLatestProcessedFile tz files = getLatestProcessedFile tz files'.
Proof.
  intros Heq.
  assert (Hom : ∀ e, e ∈ omap (entry_of tz) files ↔ e ∈ omap (entry_of tz) files').
  { intros e. rewrite !list_elem_of_omap.
    split; intros (f & Hf & He); exists f; (split; [by apply Heq | done]). }
  pose proof (resolver_greatest tz files) as H1.
  pose proof (resolver_greatest tz files') as H2.
  destruct (getLatestProcessedFile tz files) as [[d1 s1] |],
           (getLatestProcessedFile tz files') as [[d2 s2] |]; simpl in *.
  - destruct H1 as [Hin1 Hub1], H2 as [Hin2 Hub2].
    assert (Hw : (d1, s1) = (d2, s2)).
    { apply lex_le_antisym; [by apply Hub2, Hom | by apply Hub1, Hom]. }
    by inversion Hw.
  - destruct H1 as [Hin1 _]. apply Hom in Hin1. rewrite H2 in Hin1.
    by apply elem_of_nil in Hin1.
  - destruct H2 as [Hin2 _]. apply Hom in Hin2. rewrite H1 in Hin2.
    by apply elem_of_nil in Hin2.
  - done.
Qed.

End WithTimeZone.

Lemma resolver_monotone_witness :
  ∃ w', getLatestProcessedFile utc_zone
          [str "07-03-2024-S0.json"; str "06-03-2024-S4.json"] = Some w'
        ∧ lex_le (Date_UTC 2024 2 6 0 0, Fin 4) (date w', sequence w').
Proof.
  apply (resolver_monotone utc_zone [str "06-03-2024-S4.json"]
           [str "07-03-2024-S0.json"; str "06-03-2024-S4.json"]
           {| date := Date_UTC 2024 2 6 0 0; sequence := Fin 4 |}).
  - intros f Hf%list_elem_of_singleton. subst. right. left.
  - reflexivity.
Defined.

Lemma resolver_listing_order_witness :
  getLatestProcessedFile utc_zone [str "07-03-2024-S0.json"; str "06-03-2024-S4.json"]
  = getLatestProcessedFile utc_zone [str "06-03-2024-S4.json"; str "07-03-2024-S0.json"].
Proof.
  apply (resolver_listing_order utc_zone). intros f. rewrite !elem_of_cons. tauto.
Defined.

End ResolverFacts.

(** ** The two scripts side by side *)

Module TwoScripts.
Import Index SyncSpec.
Import Sync NamesFacts.

Lemma sequence_file_has_S dateStr i : 83%N ∈ sequence_file dateStr i.
Proof.
  unfold sequence_file. apply elem_of_app. right.
  change (str "-S") with [45%N; 83%N]. right. left.
Qed.

(** X19. The two scripts write different files: the sync never writes the
    combined file of the aggregation, and the aggregation writes no other
    file. *)
Theorem scripts_write_different_files (tz : TimeZone) (print_literal : jsstring → jsstring)
    (now : nat → Z) (files : list RemoteObject) (dir : directory) :
  (Aggregate.TODAY_FILE ∉ written_paths (downloadAndSaveJSON tz files dir).2)
  ∧ (downloadAndSaveJSON tz files dir).1 !! Aggregate.TODAY_FILE
    = dir !! Aggregate.TODAY_FILE
  ∧ ∀ p, p ≠ Aggregate.TODAY_FILE →
         (Aggregate.processLogs print_literal now files dir).1 !! p = dir !! p.
Proof.
  assert (Hno : Aggregate.TODAY_FILE ∉ written_paths (downloadAndSaveJSON tz files dir).2).
  { unfold downloadAndSaveJSON. rewrite process_groups_trace. cbn [snd app].
    intros (g & _ & Hp)%written_paths_concat.
    apply written_from_NoDup in Hp as (j & _ & Hp).
    pose proof (sequence_file_has_S g.1 j) as HS. rewrite <- Hp in HS.
    vm_compute in HS.
    repeat (apply elem_of_cons in HS as [HS | HS]; [discriminate |]).
    by apply elem_of_nil in HS. }
  split; [done |]. split.
  - assert (Hdir : (downloadAndSaveJSON tz files dir).1
                   = apply_writes (downloadAndSaveJSON tz files dir).2 dir).
    { unfold downloadAndSaveJSON. by rewrite process_groups_dir, process_groups_trace. }
    rewrite Hdir. by apply apply_writes_frame.
  - intros p Hp. by apply Aggregation.processLogs_other.
Qed.

End TwoScripts.


(** ** The order of the downloads of the sync *)

Module DownloadOrder.
Import TextSpec Index ResolverSpec SyncSpec GroupSpec AggregateSpec DateSpec.
Import PathFragment Pattern NumberFacts Sync DateFacts NamesFacts SortFacts StableSort.

(** A number prints in one way only. *)
Lemma Number_toString_neg (z : Z) :
  z < 0 → Number_toString z = 45%N :: Number_toString (- z).
Proof.
  intros Hz. unfold Number_toString.
  replace (z <? 0) with true by (symmetry; apply Z.ltb_lt; lia).
  replace (- z <? 0) with false by (symmetry; apply Z.ltb_ge; lia).
  by rewrite Z.abs_opp.
Qed.

Lemma Number_toString_head (z : Z) :
  0 ≤ z → ∃ c t, Number_toString z = c :: t ∧ is_digit c = true.
Proof.
  intros Hz. destruct (Number_toString_digits z Hz) as [Hne Hall].
  destruct (Number_toString z) as [| c t]; [done |].
  exists c, t. split; [done |]. unfold all_digits in Hall. simpl in Hall.
  by apply andb_true_iff in Hall as [? _].
Qed.

Lemma Number_toString_inj_Z (y y' : Z) :
  Number_toString y = Number_toString y' → y = y'.
Proof.
  intros H.
  destruct (Z.lt_ge_cases y 0) as [Hy | Hy], (Z.lt_ge_cases y' 0) as [Hy' | Hy'].
  - rewrite (Number_toString_neg y), (Number_toString_neg y') in H by done.
    injection H as H.
    apply (f_equal decimal_value) in H. rewrite !Number_toString_value in H by lia. lia.
  - rewrite (Number_toString_neg y) in H by done.
    destruct (Number_toString_head y' Hy') as (c & t & Heq & Hc). rewrite Heq in H.
    inversion H; subst c. discriminate.
  - rewrite (Number_toString_neg y') in H by done.
    destruct (Number_toString_head y Hy) as (c & t & Heq & Hc). rewrite Heq in H.
    inversion H; subst c. discriminate.
  - apply (f_equal decimal_value) in H. rewrite !Number_toString_value in H by lia. lia.
Qed.

Lemma two_digits_inj (n n' : Z) :
  0 ≤ n < 100 → 0 ≤ n' < 100 → two_digits n = two_digits n' → n = n'.
Proof.
  intros Hn Hn' H. apply (f_equal parseInt) in H.
  by rewrite (proj2 (proj2 (two_digits_well_formed n Hn))),
    (proj2 (proj2 (two_digits_well_formed n' Hn'))) in H.
Qed.

Lemma civil_from_days_inj (z z' : Z) : civil_from_days z = civil_from_days z' → z = z'.
Proof.
  intros H. rewrite <- (days_from_civil_from_days z), <- (days_from_civil_from_days z').
  by rewrite H.
Qed.

Section WithTimeZone.

Variable tz : TimeZone.

(** Two instants have the same formatted date exactly when they fall on the
    same local day. *)
Lemma formatDate_day (t t' : Z) :
  formatDate tz t = formatDate tz t' ↔ local_day tz t = local_day tz t'.
Proof.
  split.
  - intros H.
    destruct (formatDate_shape tz t) as (E & Hm & Hd).
    destruct (formatDate_shape tz t') as (E' & Hm' & Hd').
    rewrite E, E' in H. unfold two_digits in H. simpl in H.
    injection H as H1 H2 H3 H4 H5.
    assert (Hdd : getDate tz t = getDate tz t').
    { apply two_digits_inj; [lia | lia |]. unfold two_digits. by rewrite H1, H2. }
    assert (Hmm : getMonth tz t + 1 = getMonth tz t' + 1).
    { apply two_digits_inj; [lia | lia |]. unfold two_digits. by rewrite H3, H4. }
    apply Number_toString_inj_Z in H5.
    unfold getFullYear, getMonth, getDate, YearFromTime, MonthFromTime, DateFromTime in *.
    apply civil_from_days_inj. unfold local_day.
    destruct (civil_from_days (Day (LocalTime tz t))) as [[y m] d],
             (civil_from_days (Day (LocalTime tz t'))) as [[y' m'] d'].
    simpl in *. f_equal; [f_equal |]; lia.
  - unfold local_day. intros H. unfold formatDate, getDate, getMonth, getFullYear,
      DateFromTime, MonthFromTime, YearFromTime. by rewrite H.
Qed.

Lemma group_push_last key x (G : list (jsstring * list FileWithDate)) :
  (∀ G1 g G2, G = G1 ++ g :: G2 → g.1 = key → G2 = []) →
  concat (group_push key x G).*2 = concat G.*2 ++ [x].
Proof.
  induction G as [| [k xs] G IH]; intros Hlast; [done |].
  cbn [group_push]. destruct (decide (k = key)) as [Hk | Hk].
  - rewrite (Hlast [] (k, xs) G eq_refl Hk). simpl. by rewrite !app_nil_r.
  - rewrite !fmap_cons. cbn [concat snd]. rewrite IH; [by rewrite app_assoc |].
    intros G1 g G2 -> Hg. by apply (Hlast ((k, xs) :: G1) g G2).
Qed.

Lemma group_by_date_snoc l x :
  group_by_date tz (l ++ [x])
  = group_push (formatDate tz (created x)) x (group_by_date tz l).
Proof. unfold group_by_date. by rewrite foldl_snoc. Qed.

(** Where the local days never go back along the list, the groups, one
    after the other, are the list. *)
Lemma group_by_date_in_order l :
  StronglySorted (λ a b, local_day tz (created a) ≤ local_day tz (created b)) l →
  concat (group_by_date tz l).*2 = l.
Proof.
  induction l as [| x l IH] using rev_ind; intros Hs; [done |].
  apply StronglySorted_app in Hs as (Hlx & Hl & _).
  specialize (IH Hl). rewrite group_by_date_snoc.
  rewrite group_push_last; [by rewrite IH |].
  intros G1 g G2 HG Hg. destruct G2 as [| g' G2]; [done | exfalso].
  assert (Hin : g ∈ group_by_date tz l) by (rewrite HG; set_solver).
  assert (Hin' : g' ∈ group_by_date tz l) by (rewrite HG; set_solver).
  apply group_by_date_elem in Hin as (_ & Hall & Hne).
  apply group_by_date_elem in Hin' as (_ & Hall' & Hne').
  destruct g.2 as [| y ys] eqn:Hy; [done |].
  destruct g'.2 as [| z zs] eqn:Hz; [done |].
  apply Forall_cons in Hall as [Hky _]. apply Forall_cons in Hall' as [Hkz _].
  pose proof (group_by_date_NoDup tz l) as Hnd.
  rewrite HG, fmap_app, !fmap_cons in Hnd.
  apply NoDup_app in Hnd as (_ & _ & Hnd). apply NoDup_cons in Hnd as [Hnot _].
  apply Hnot. replace g.1 with g'.1; [left |].
  rewrite <- Hkz, <- Hky. apply formatDate_day.
  assert (Hyz : local_day tz (created y) ≤ local_day tz (created z)).
  { rewrite <- IH, HG in Hl. rewrite fmap_app, !fmap_cons, concat_app in Hl.
    cbn [concat] in Hl. apply StronglySorted_app_1_r in Hl.
    apply (StronglySorted_app_1_elem_of _ _ _ y z) in Hl; [done | |].
    - rewrite Hy. left.
    - apply elem_of_app. left. rewrite Hz. left. }
  assert (Hzx : local_day tz (created z) ≤ local_day tz (created x)).
  { apply (Hlx z x); [| left]. rewrite <- IH, HG.
    rewrite fmap_app, !fmap_cons, concat_app. cbn [concat].
    apply elem_of_app. right. apply elem_of_app. right. apply elem_of_app. left.
    rewrite Hz. left. }
  assert (Hyx : local_day tz (created y) = local_day tz (created x)).
  { apply formatDate_day. by rewrite Hky. }
  lia.
Qed.

Lemma ascending_days l :
  (∀ a b, a ∈ l → b ∈ l → created a ≤ created b →
          LocalTime tz (created a) ≤ LocalTime tz (created b)) →
  ascending l →
  StronglySorted (λ a b, local_day tz (created a) ≤ local_day tz (created b)) l.
Proof.
  unfold ascending. intros Hmono Hs. induction Hs as [| x l Hs IH Hx]; [constructor |].
  constructor.
  - apply IH. intros a b Ha Hb. apply Hmono; by right.
  - rewrite Forall_forall in Hx. apply Forall_forall. intros y Hy.
    unfold local_day, Day. apply Z.div_le_mono; [done |].
    apply Hmono; [left | by right | by apply Hx].
Qed.

(** X20. Where local time does not go back from one listed object to a later
    one (no backward change of the offset of the time zone between their
    creation instants), the sync downloads the kept objects in ascending
    order of creation, objects of the same instant in the order of the
    listing: the date groups come one after the other in time. *)
Theorem sync_download_order (files : list RemoteObject) (dir : directory) :
  (∀ o o', o ∈ files → o' ∈ files → timeCreated o ≤ timeCreated o' →
           LocalTime tz (timeCreated o) ≤ LocalTime tz (timeCreated o')) →
  SyncSpec.downloaded (downloadAndSaveJSON tz files dir).2
  = file <$> sorted_of tz files dir
  ∧ concat (groups_of tz files dir).*2 = sorted_of tz files dir
  ∧ StronglySorted (λ a b, timeCreated a ≤ timeCreated b)
      (SyncSpec.downloaded (downloadAndSaveJSON tz files dir).2).
Proof.
  intros Hmono.
  assert (Hfrom : ∀ fd, fd ∈ sorted_of tz files dir →
                        created fd = timeCreated (file fd) ∧ file fd ∈ files).
  { intros fd Hfd. unfold sorted_of in Hfd.
    rewrite sort_by_created_Permutation in Hfd. unfold collect in Hfd.
    apply list_elem_of_fmap in Hfd as (o & -> & Ho).
    apply list_elem_of_filter in Ho as [_ Ho]. done. }
  assert (Hc : concat (groups_of tz files dir).*2 = sorted_of tz files dir).
  { unfold groups_of. fold (sorted_of tz files dir).
    apply group_by_date_in_order, ascending_days;
      [| apply sort_by_created_ascending].
    intros a b Ha Hb Hab.
    destruct (Hfrom a Ha) as [Ea Hfa], (Hfrom b Hb) as [Eb Hfb].
    rewrite Ea, Eb in *. by apply Hmono. }
  rewrite downloaded_run, Hc. split; [done |]. split; [done |].
  assert (Hcr : Forall (λ fd, created fd = timeCreated (file fd)) (sorted_of tz files dir)).
  { apply Forall_forall. intros fd Hfd. by apply Hfrom. }
  pose proof (sort_by_created_ascending
                (collect (getLatestProcessedFile tz (readdirSync dir)) files)) as Hs.
  fold (sorted_of tz files dir) in Hs. unfold ascending in Hs.
  clear Hfrom Hc. revert Hcr Hs. generalize (sorted_of tz files dir). intros l Hcr Hs.
  induction Hs as [| fd l Hs IH Hfd]; [constructor |].
  apply Forall_cons in Hcr as [Heq Hrest].
  rewrite fmap_cons. constructor; [by apply IH |].
  rewrite Forall_fmap. rewrite Forall_forall in Hfd, Hrest. apply Forall_forall.
  intros x Hx. simpl. rewrite <- Heq, <- (Hrest x Hx). by apply Hfd.
Qed.

End WithTimeZone.

Lemma sync_download_order_witness :
  SyncSpec.downloaded (downloadAndSaveJSON utc_zone (reverse midnight_then_morning) ∅).2
  = file <$> sorted_of utc_zone (reverse midnight_then_morning) ∅.
Proof.
  apply (sync_download_order utc_zone (reverse midnight_then_morning) ∅).
  intros o o' _ _ Ht. unfold LocalTime. simpl. lia.
Defined.

End DownloadOrder.


(** ** Reading back what [JSON.stringify] prints *)

(** *** Strings *)

Module StringReadBack.
Import ReadBackSpec.

Lemma hex_value_digit (d : N) : (d < 16)%N → hex_value (hex_digit d) = Some d.
Proof.
  intros Hd. unfold hex_value, hex_digit, is_digit.
  destruct (d <? 10)%N eqn:H10.
  - apply N.ltb_lt in H10.
    replace ((48 <=? 48 + d) && (48 + d <=? 57))%N with true
      by (symmetry; apply andb_true_iff; split; apply N.leb_le; lia).
    f_equal. lia.
  - apply N.ltb_ge in H10.
    replace ((48 <=? 87 + d) && (87 + d <=? 57))%N with false
      by (symmetry; apply andb_false_iff; right; apply N.leb_gt; lia).
    replace ((97 <=? 87 + d) && (87 + d <=? 102))%N with true
      by (symmetry; apply andb_true_iff; split; apply N.leb_le; lia).
    f_equal. lia.
Qed.

(** An escape [\uXXXX] is read back as the code unit it is written for. *)
Lemma parse_string_unicode_escape (c : N) (t acc : jsstring) :
  (c < 65536)%N →
  parse_string (unicode_escape c ++ t) acc = parse_string t (c :: acc).
Proof.
  intros Hc. unfold unicode_escape. cbn [app parse_string].
  change (92 =? 34)%N with false. change (92 =? 92)%N with true.
  change (117 =? 117)%N with true. cbv iota.
  rewrite !hex_value_digit by (apply N.mod_upper_bound; lia).
  f_equal. f_equal.
  replace (c / 256)%N with (c / 16 / 16)%N by (by rewrite N.Div0.div_div).
  replace (c / 4096)%N with (c / 16 / 16 / 16)%N by (by rewrite !N.Div0.div_div).
  pose proof (N.div_mod c 16 ltac:(lia)) as H0.
  pose proof (N.mod_upper_bound c 16 ltac:(lia)) as B0.
  pose proof (N.div_mod (c / 16) 16 ltac:(lia)) as H1.
  pose proof (N.mod_upper_bound (c / 16) 16 ltac:(lia)) as B1.
  pose proof (N.div_mod (c / 16 / 16) 16 ltac:(lia)) as H2.
  pose proof (N.mod_upper_bound (c / 16 / 16) 16 ltac:(lia)) as B2.
  pose proof (N.div_mod (c / 16 / 16 / 16) 16 ltac:(lia)) as H3.
  pose proof (N.mod_upper_bound (c / 16 / 16 / 16) 16 ltac:(lia)) as B3.
  generalize dependent (c / 16 / 16 / 16 / 16)%N. intros q4.
  generalize dependent ((c / 16 / 16 / 16) mod 16)%N. intros m3.
  generalize dependent (c / 16 / 16 / 16)%N. intros q3.
  generalize dependent ((c / 16 / 16) mod 16)%N. intros m2.
  generalize dependent (c / 16 / 16)%N. intros q2.
  generalize dependent ((c / 16) mod 16)%N. intros m1.
  generalize dependent (c / 16)%N. intros q1.
  generalize dependent (c mod 16)%N. intros m0.
  intros. lia.
Qed.

Lemma parse_string_raw (c : N) (t acc : jsstring) :
  (c =? 34)%N = false → (c =? 92)%N = false → (c <? 32)%N = false →
  parse_string (c :: t) acc = parse_string t (c :: acc).
Proof. intros H1 H2 H3. cbn [parse_string]. by rewrite H1, H2, H3. Qed.

(** What [quote_unit] writes for a code unit is read back as that unit. *)
Lemma parse_string_quote_unit (c : N) (t acc : jsstring) :
  parse_string (quote_unit c ++ t) acc = parse_string t (c :: acc).
Proof.
  unfold quote_unit.
  destruct (c =? 8)%N eqn:H8; [apply N.eqb_eq in H8; by subst |].
  destruct (c =? 9)%N eqn:H9; [apply N.eqb_eq in H9; by subst |].
  destruct (c =? 10)%N eqn:H10; [apply N.eqb_eq in H10; by subst |].
  destruct (c =? 12)%N eqn:H12; [apply N.eqb_eq in H12; by subst |].
  destruct (c =? 13)%N eqn:H13; [apply N.eqb_eq in H13; by subst |].
  destruct (c =? 34)%N eqn:H34; [apply N.eqb_eq in H34; by subst |].
  destruct (c =? 92)%N eqn:H92; [apply N.eqb_eq in H92; by subst |].
  destruct ((c <? 32)%N || is_high_surrogate c || is_low_surrogate c) eqn:Hesc.
  - apply parse_string_unicode_escape.
    apply orb_true_iff in Hesc as [Hesc | Hesc];
      [apply orb_true_iff in Hesc as [Hesc | Hesc] |].
    + apply N.ltb_lt in Hesc. lia.
    + unfold is_high_surrogate in Hesc. apply andb_true_iff in Hesc as [_ Hesc].
      apply N.leb_le in Hesc. lia.
    + unfold is_low_surrogate in Hesc. apply andb_true_iff in Hesc as [_ Hesc].
      apply N.leb_le in Hesc. lia.
  - apply orb_false_iff in Hesc as [Hesc _]. apply orb_false_iff in Hesc as [Hesc _].
    by apply parse_string_raw.
Qed.

Lemma surrogate_raw (c : N) :
  is_high_surrogate c || is_low_surrogate c = true →
  (c =? 34)%N = false ∧ (c =? 92)%N = false ∧ (c <? 32)%N = false.
Proof.
  unfold is_high_surrogate, is_low_surrogate.
  intros [H | H]%orb_true_iff; apply andb_true_iff in H as [H _]; apply N.leb_le in H;
    (split; [apply N.eqb_neq; lia |]); (split; [apply N.eqb_neq; lia |]);
    apply N.ltb_ge; lia.
Qed.

(** The characters that [JSON.stringify] writes for a string are read back
    as that string. *)
Lemma parse_string_quote_units (s t acc : jsstring) :
  parse_string (quote_units s ++ 34%N :: t) acc = Some (reverse acc ++ s, t).
Proof.
  revert acc. induction s as [s IH] using (induction_ltof1 _ (@length N)).
  unfold ltof in IH. intros acc.
  destruct s as [| c s]; [by rewrite app_nil_r |].
  assert (Hone : parse_string (quote_unit c ++ quote_units s ++ 34%N :: t) acc
                 = Some (reverse acc ++ c :: s, t)).
  { rewrite parse_string_quote_unit, IH by (simpl; lia).
    by rewrite reverse_cons, <- app_assoc. }
  cbn [quote_units]. destruct (is_high_surrogate c) eqn:Hc.
  - destruct s as [| d s'].
    + exact Hone.
    + destruct (is_low_surrogate d) eqn:Hd.
      * destruct (surrogate_raw c) as (? & ? & ?); [by rewrite Hc |].
        destruct (surrogate_raw d) as (? & ? & ?); [by rewrite Hd, orb_true_r |].
        cbn [app]. rewrite !parse_string_raw, IH by (done || simpl; lia).
        by rewrite !reverse_cons, <- !app_assoc.
      * by rewrite <- app_assoc.
  - by rewrite <- app_assoc.
Qed.

Lemma parse_string_quote (s rest : jsstring) :
  parse_string (quote_units s ++ [34%N] ++ rest) [] = Some (s, rest).
Proof. apply parse_string_quote_units. Qed.

End StringReadBack.


(** *** Numbers *)

Module NumberReadBack.
Import ReadBackSpec ResolverSpec.
Import NumberFacts DateFacts Pattern.

(** The decimal form of a positive integer starts with a digit other than
    zero. *)
Lemma digits_fuel_head (fuel : nat) (n : Z) (acc : jsstring) :
  1 ≤ n < 2 ^ Z.of_nat fuel →
  ∃ c t, digits_fuel fuel n acc = c :: t ∧ (c =? 48)%N = false.
Proof.
  revert n acc. induction fuel as [| fuel IH]; intros n acc Hn.
  - simpl in Hn. lia.
  - cbn [digits_fuel]. destruct (n <? 10) eqn:Hlt.
    + apply Z.ltb_lt in Hlt. eexists _, _. split; [done |].
      rewrite Z.mod_small by lia. apply N.eqb_neq. unfold digit_char. lia.
    + apply Z.ltb_ge in Hlt. apply IH.
      rewrite Nat2Z.inj_succ, Z.pow_succ_r in Hn by lia.
      split.
      * apply Z.div_le_lower_bound; lia.
      * apply Z.div_lt_upper_bound; lia.
Qed.

Lemma log2_fuel (n : Z) : 0 ≤ n → n < 2 ^ Z.of_nat (S (Z.to_nat (Z.log2 n))).
Proof.
  intros Hn. rewrite Nat2Z.inj_succ, Z2Nat.id by apply Z.log2_nonneg.
  destruct (Z.eq_dec n 0) as [-> | Hne]; [done |].
  apply Z.log2_spec. lia.
Qed.

Lemma Number_toString_positive (n : Z) :
  0 < n →
  ∃ c t, Number_toString n = c :: t ∧ (c =? 48)%N = false ∧ (c =? 45)%N = false
         ∧ is_digit c = true.
Proof.
  intros Hn.
  destruct (Number_toString_digits n ltac:(lia)) as [_ Hall].
  unfold Number_toString in *.
  replace (n <? 0) with false in * by (symmetry; apply Z.ltb_ge; lia).
  cbv zeta in *. rewrite Z.abs_eq in * by lia.
  destruct (digits_fuel_head (S (Z.to_nat (Z.log2 n))) n []) as (c & t & Heq & Hc).
  { split; [lia | apply log2_fuel; lia]. }
  rewrite Heq in *. exists c, t. split; [done |]. split; [done |].
  unfold all_digits in Hall. simpl in Hall. apply andb_true_iff in Hall as [Hd _].
  split; [| done]. unfold is_digit in Hd. apply andb_true_iff in Hd as [Hd _].
  apply N.leb_le in Hd. apply N.eqb_neq. lia.
Qed.

Lemma delimited_rest (rest : jsstring) :
  delimited rest = true →
  (∀ c t, rest = c :: t → is_digit c = false)
  ∧ parse_fraction rest = Some ([], rest)
  ∧ parse_exponent rest = Some ([], rest).
Proof.
  destruct rest as [| c t]; [done |]. cbn [delimited].
  intros H. apply negb_true_iff in H.
  apply orb_false_iff in H as [H H69]. apply orb_false_iff in H as [H H101].
  apply orb_false_iff in H as [Hd H46].
  split; [by intros ? ? [= <- _] |].
  cbn [parse_fraction parse_exponent]. by rewrite H46, H101, H69.
Qed.

(** The digits of a natural number below 2^53, followed by something that
    is not part of a number, are read back as that number. *)
Lemma parse_number_unsigned (n : Z) (rest : jsstring) :
  0 ≤ n < 2 ^ 53 → delimited rest = true →
  parse_number (Number_toString n ++ rest) = Some (Int n, rest)
  ∧ parse_number (45%N :: Number_toString n ++ rest) = Some (Int (- n), rest).
Proof.
  intros Hn Hrest. destruct (delimited_rest rest Hrest) as (Hd & Hf & He).
  assert (Hint : parse_int_part (Number_toString n ++ rest)
                 = Some (Number_toString n, rest)).
  { destruct (Z.eq_dec n 0) as [-> | Hne]; [done |].
    destruct (Number_toString_positive n ltac:(lia)) as (c & t & Heq & H48 & _ & Hc).
    destruct (Number_toString_digits n ltac:(lia)) as [_ Hall].
    unfold parse_int_part. rewrite Heq at 1. cbn [app]. rewrite H48, Hc.
    f_equal. by apply span_digits_app. }
  assert (Hlt : (n <? 2 ^ 53) = true) by (apply Z.ltb_lt; lia).
  split.
  - unfold parse_number.
    assert (Hs : match Number_toString n ++ rest with
                 | c :: t => if (c =? 45)%N then ([c], t) else ([], Number_toString n ++ rest)
                 | [] => ([], Number_toString n ++ rest)
                 end = ([], Number_toString n ++ rest)).
    { destruct (Z.eq_dec n 0) as [-> | Hne]; [done |].
      destruct (Number_toString_positive n ltac:(lia)) as (c & t & Heq & _ & H45 & _).
      rewrite Heq. cbn [app]. by rewrite H45. }
    rewrite Hs, Hint. cbn [mbind option_bind]. rewrite Hf. cbn [mbind option_bind].
    rewrite He. cbn [mbind option_bind].
    rewrite Number_toString_value by lia. by rewrite Hlt.
  - unfold parse_number. change (45 =? 45)%N with true. cbv iota.
    rewrite Hint. cbn [mbind option_bind]. rewrite Hf. cbn [mbind option_bind].
    rewrite He. cbn [mbind option_bind].
    rewrite Number_toString_value by lia. by rewrite Hlt.
Qed.

Lemma parse_number_Number_toString (z : Z) (rest : jsstring) :
  Z.abs z < 2 ^ 53 → delimited rest = true →
  parse_number (Number_toString z ++ rest) = Some (Int z, rest).
Proof.
  intros Hz Hrest. destruct (Z.lt_ge_cases z 0) as [Hneg | Hpos].
  - assert (Heq : Number_toString z = 45%N :: Number_toString (- z)).
    { unfold Number_toString.
      replace (z <? 0) with true by (symmetry; apply Z.ltb_lt; lia).
      replace (- z <? 0) with false by (symmetry; apply Z.ltb_ge; lia).
      by rewrite Z.abs_opp. }
    rewrite Heq. cbn [app].
    destruct (parse_number_unsigned (- z) rest ltac:(lia) Hrest) as [_ H].
    rewrite H. by rewrite Z.opp_involutive.
  - by apply parse_number_unsigned; [lia |].
Qed.

End NumberReadBack.


(** *** The budget of the parser *)

Module ParserFuel.
Import JsonFacts.

(** A result reached within a budget is reached within any larger one. *)
Lemma parse_fuel_step fuel :
  (∀ s r, parse_value fuel s = r → r ≠ OutOfFuel → parse_value (S fuel) s = r)
  ∧ (∀ s acc r, parse_elements fuel s acc = r → r ≠ OutOfFuel →
       parse_elements (S fuel) s acc = r)
  ∧ (∀ s acc r, parse_members fuel s acc = r → r ≠ OutOfFuel →
       parse_members (S fuel) s acc = r).
Proof.
  induction fuel as [| fuel (IHv & IHe & IHm)].
  { repeat split; intros; simpl in *; by subst. }
  split; [| split].
  - intros s r H Hr.
    change (parse_value (S (S fuel)) s) with
      (match skip_ws s with
       | [] => SyntaxError
       | c :: t =>
           if (c =? 123)%N then
             match skip_ws t with
             | c' :: t' =>
                 if (c' =? 125)%N then Ok (JObject []) t'
                 else parse_members (S fuel) (c' :: t') []
             | [] => SyntaxError
             end
           else if (c =? 91)%N then
             match skip_ws t with
             | c' :: t' =>
                 if (c' =? 93)%N then Ok (JArray []) t'
                 else parse_elements (S fuel) (c' :: t') []
             | [] => SyntaxError
             end
           else if (c =? 34)%N then
             of_option (p ← parse_string t []; Some (JString p.1, p.2))
           else if is_digit c || (c =? 45)%N then
             of_option (p ← parse_number (c :: t); Some (JNumber p.1, p.2))
           else of_option (parse_literal (c :: t))
       end).
    cbn [parse_value] in H.
    destruct (skip_ws s) as [| c t]; [done |].
    destruct (c =? 123)%N.
    { destruct (skip_ws t) as [| c' t']; [done |].
      destruct (c' =? 125)%N; [done |]. by apply IHm. }
    destruct (c =? 91)%N; [| done].
    destruct (skip_ws t) as [| c' t']; [done |].
    destruct (c' =? 93)%N; [done |]. by apply IHe.
  - intros s acc r H Hr.
    change (parse_elements (S (S fuel)) s acc) with
      (match parse_value (S fuel) s with
       | Ok v rest =>
           match skip_ws rest with
           | c :: t =>
               if (c =? 44)%N then parse_elements (S fuel) t (acc ++ [v])
               else if (c =? 93)%N then Ok (JArray (acc ++ [v])) t
               else SyntaxError
           | [] => SyntaxError
           end
       | SyntaxError => SyntaxError
       | OutOfFuel => OutOfFuel
       end).
    cbn [parse_elements] in H.
    destruct (parse_value fuel s) as [v rest | |] eqn:Hv.
    + rewrite (IHv s _ Hv) by done.
      destruct (skip_ws rest) as [| c t]; [done |].
      destruct (c =? 44)%N; [by apply IHe | done].
    + by rewrite (IHv s _ Hv).
    + by subst.
  - intros s acc r H Hr.
    change (parse_members (S (S fuel)) s acc) with
      (match skip_ws s with
       | c :: t =>
           if (c =? 34)%N then
             match parse_string t [] with
             | Some (k, rest) =>
                 match skip_ws rest with
                 | c' :: t' =>
                     if (c' =? 58)%N then
                       match parse_value (S fuel) t' with
                       | Ok v rest' =>
                           match skip_ws rest' with
                           | c'' :: t'' =>
                               if (c'' =? 44)%N then
                                 parse_members (S fuel) t'' (define_property acc k v)
                               else if (c'' =? 125)%N then
                                 Ok (JObject (define_property acc k v)) t''
                               else SyntaxError
                           | [] => SyntaxError
                           end
                       | SyntaxError => SyntaxError
                       | OutOfFuel => OutOfFuel
                       end
                     else SyntaxError
                 | [] => SyntaxError
                 end
             | None => SyntaxError
             end
           else SyntaxError
       | [] => SyntaxError
       end).
    cbn [parse_members] in H.
    destruct (skip_ws s) as [| c t]; [done |].
    destruct (c =? 34)%N; [| done].
    destruct (parse_string t []) as [[k rest] |]; [| done].
    destruct (skip_ws rest) as [| c' t']; [done |].
    destruct (c' =? 58)%N; [| done].
    destruct (parse_value fuel t') as [v rest' | |] eqn:Hv.
    + rewrite (IHv t' _ Hv) by done.
      destruct (skip_ws rest') as [| c'' t'']; [done |].
      destruct (c'' =? 44)%N; [by apply IHm | done].
    + by rewrite (IHv t' _ Hv).
    + by subst.
Qed.

Lemma parse_value_fuel_le fuel fuel' s v rest :
  parse_value fuel s = Ok v rest → (fuel ≤ fuel')%nat → parse_value fuel' s = Ok v rest.
Proof.
  intros H Hle. induction Hle as [| fuel' Hle IH]; [done |].
  by apply parse_fuel_step.
Qed.

Lemma parse_elements_fuel_le fuel fuel' s acc v rest :
  parse_elements fuel s acc = Ok v rest → (fuel ≤ fuel')%nat →
  parse_elements fuel' s acc = Ok v rest.
Proof.
  intros H Hle. induction Hle as [| fuel' Hle IH]; [done |].
  by apply parse_fuel_step.
Qed.

Lemma parse_members_fuel_le fuel fuel' s acc v rest :
  parse_members fuel s acc = Ok v rest → (fuel ≤ fuel')%nat →
  parse_members fuel' s acc = Ok v rest.
Proof.
  intros H Hle. induction Hle as [| fuel' Hle IH]; [done |].
  by apply parse_fuel_step.
Qed.

(** What some budget reads, the budget of [JSON_parse] reads. *)
Lemma parse_value_JSON_fuel fuel text v rest :
  parse_value fuel text = Ok v rest →
  parse_value (2 * length text + 1) text = Ok v rest.
Proof.
  intros H.
  destruct (Nat.le_ge_cases fuel (2 * length text + 1)) as [Hle | Hge].
  - by apply (parse_value_fuel_le fuel).
  - pose proof (JSON_parse_fuel text) as Hne.
    destruct (parse_value (2 * length text + 1) text) as [v' rest' | |] eqn:Hp.
    + rewrite (parse_value_fuel_le _ _ _ _ _ Hp Hge) in H. by inversion H.
    + assert (parse_value fuel text = SyntaxError); [| congruence].
      clear H. induction Hge as [| m Hge IH]; [done |].
      by apply parse_fuel_step.
    + done.
Qed.

Lemma JSON_parse_of_fuel fuel text v :
  parse_value fuel text = Ok v [] → JSON_parse text = Returns v.
Proof.
  intros H. unfold JSON_parse. by rewrite (parse_value_JSON_fuel _ _ _ _ H).
Qed.

End ParserFuel.


(** *** The order of the keys of an object *)

Module KeyOrder.
Import ReadBackSpec ResolverSpec.
Import NumberFacts.

Lemma digits_bound (s : jsstring) :
  all_digits s → 0 ≤ decimal_value s < 10 ^ Z.of_nat (length s).
Proof.
  unfold all_digits. induction s as [| c s IH]; [done |].
  intros [Hc Hs]%andb_true_iff. specialize (IH Hs).
  rewrite decimal_value_cons.
  replace (Z.of_nat (length (c :: s))) with (Z.succ (Z.of_nat (length s)))
    by (simpl; lia).
  rewrite Z.pow_succ_r by lia.
  unfold is_digit in Hc. apply andb_true_iff in Hc as [H1 H2].
  apply N.leb_le in H1, H2. nia.
Qed.

Lemma digits_inj (s s' : jsstring) :
  all_digits s → all_digits s' → length s = length s' →
  decimal_value s = decimal_value s' → s = s'.
Proof.
  unfold all_digits. revert s'.
  induction s as [| c s IH]; intros [| c' s'] Hs Hs' Hlen Hv; try done.
  simpl in Hs, Hs', Hlen.
  apply andb_true_iff in Hs as [Hc Hs]. apply andb_true_iff in Hs' as [Hc' Hs'].
  rewrite !decimal_value_cons in Hv.
  pose proof (digits_bound s Hs) as B. pose proof (digits_bound s' Hs') as B'.
  assert (Hl : length s = length s') by lia. rewrite <- Hl in *.
  unfold is_digit in Hc, Hc'.
  apply andb_true_iff in Hc as [H1 H2]. apply andb_true_iff in Hc' as [H1' H2'].
  apply N.leb_le in H1, H2, H1', H2'.
  assert (Hcc : Z.of_N c = Z.of_N c') by nia.
  assert (c = c') by lia. subst c'.
  f_equal. apply IH; try done. lia.
Qed.

Lemma leading_digit_bound (c : N) (s : jsstring) :
  all_digits (c :: s) → (c =? 48)%N = false →
  10 ^ Z.of_nat (length s) ≤ decimal_value (c :: s).
Proof.
  unfold all_digits. simpl. intros [Hc Hs]%andb_true_iff H48.
  pose proof (digits_bound s Hs) as B. rewrite decimal_value_cons.
  unfold is_digit in Hc. apply andb_true_iff in Hc as [H1 H2].
  apply N.leb_le in H1, H2. apply N.eqb_neq in H48. nia.
Qed.

Lemma array_index_spec (k : jsstring) (n : Z) :
  array_index k = Some n →
  all_digits k ∧ decimal_value k = n
  ∧ (k = [48%N] ∨ ∃ c t, k = c :: t ∧ (c =? 48)%N = false).
Proof.
  intros H. unfold array_index in H. destruct k as [| c t]; [done |].
  destruct (forallb is_digit (c :: t)) eqn:Hd; [| done]. cbn [andb] in H.
  destruct (c =? 48)%N eqn:H48; cbn [andb orb negb] in H.
  - destruct (bool_decide (t = [])) eqn:Ht; [| done].
    apply bool_decide_eq_true in Ht. subst t.
    apply N.eqb_eq in H48. subst c. cbn in H.
    split; [done |]. split; [by inversion H | by left].
  - destruct ((length (c :: t) <=? 10)%nat && (decimal_value (c :: t) <=? 4294967294));
      [| done].
    split; [done |]. split; [by inversion H |]. right. by exists c, t.
Qed.

Lemma array_index_nonneg (k : jsstring) (n : Z) : array_index k = Some n → 0 ≤ n.
Proof.
  intros (Hd & <- & _)%array_index_spec. by apply digits_bound.
Qed.

(** An array index has one canonical spelling. *)
Lemma array_index_inj (k k' : jsstring) (n : Z) :
  array_index k = Some n → array_index k' = Some n → k = k'.
Proof.
  pose proof array_index_spec as Hcases.
  intros H H'.
  destruct (Hcases k n H) as (Hd & Hv & Hk).
  destruct (Hcases k' n H') as (Hd' & Hv' & Hk').
  destruct Hk as [-> | (c & t & -> & H48)], Hk' as [-> | (c' & t' & -> & H48')].
  - done.
  - pose proof (leading_digit_bound c' t' Hd' H48') as B.
    change (decimal_value [48%N]) with 0 in Hv. subst n.
    assert (0 < 10 ^ Z.of_nat (length t')) by (apply Z.pow_pos_nonneg; lia). lia.
  - pose proof (leading_digit_bound c t Hd H48) as B.
    change (decimal_value [48%N]) with 0 in Hv'. subst n.
    assert (0 < 10 ^ Z.of_nat (length t)) by (apply Z.pow_pos_nonneg; lia). lia.
  - apply digits_inj; [done | done | | lia].
    pose proof (leading_digit_bound c t Hd H48) as B1.
    pose proof (leading_digit_bound c' t' Hd' H48') as B1'.
    pose proof (digits_bound _ Hd) as B2. pose proof (digits_bound _ Hd') as B2'.
    assert (Hlt : 10 ^ Z.of_nat (length t) < 10 ^ Z.of_nat (length (c' :: t'))) by lia.
    assert (Hlt' : 10 ^ Z.of_nat (length t') < 10 ^ Z.of_nat (length (c :: t))) by lia.
    apply Z.pow_lt_mono_r_iff in Hlt; [| lia | lia].
    apply Z.pow_lt_mono_r_iff in Hlt'; [| lia | lia].
    simpl in *. lia.
Qed.

Section Properties.

Context {V : Type}.
Implicit Types (props : list (jsstring * V)) (k : jsstring) (v : V).

Lemma has_key_elem k props : has_key k props = true ↔ k ∈ props.*1.
Proof.
  induction props as [| [k' v'] props IH]; simpl.
  - split; [done | by intros ?%elem_of_nil].
  - rewrite orb_true_iff, bool_decide_eq_true, IH, elem_of_cons.
    split; (intros [H | H]; [left | right]); done.
Qed.

Lemma replace_value_keys k v props : (replace_value k v props).*1 = props.*1.
Proof.
  induction props as [| [k' v'] props IH]; [done |].
  cbn [replace_value]. destruct (bool_decide (k' = k)); [done |].
  by rewrite !fmap_cons, IH.
Qed.

Lemma insert_index_keys n k v props :
  (insert_index n k v props).*1 ≡ₚ k :: props.*1.
Proof.
  induction props as [| [k' v'] props IH]; [done |].
  cbn [insert_index]. destruct (array_index k') as [n' |]; [| done].
  destruct (n' <? n); [| done]. rewrite !fmap_cons, IH. apply Permutation_swap.
Qed.

Lemma names_after lo (ks : list jsstring) :
  forallb (λ k', bool_decide (array_index k' = None)) ks = true →
  indices_then_names lo ks = true.
Proof.
  destruct ks as [| k ks]; [done |]. simpl.
  intros [Hk Hks]%andb_true_iff. apply bool_decide_eq_true in Hk. by rewrite Hk.
Qed.

Lemma insert_index_order lo n k v props :
  array_index k = Some n → lo < n → k ∉ props.*1 →
  indices_then_names lo props.*1 = true →
  indices_then_names lo (insert_index n k v props).*1 = true.
Proof.
  intros Hk. revert lo. induction props as [| [k' v'] props IH]; intros lo Hlo Hnot Hord.
  - simpl. rewrite Hk. apply andb_true_iff. split; [by apply Z.ltb_lt | done].
  - apply not_elem_of_cons in Hnot as [Hne Hnot]. simpl in Hne.
    cbn [insert_index]. cbn [fmap list_fmap fst indices_then_names] in Hord.
    destruct (array_index k') as [n' |] eqn:Hk'.
    + apply andb_true_iff in Hord as [Hlo' Hord].
      destruct (n' <? n) eqn:Hlt.
      * apply Z.ltb_lt in Hlt. cbn [fmap list_fmap fst indices_then_names].
        rewrite Hk', Hlo'. cbn [andb]. by apply IH.
      * apply Z.ltb_ge in Hlt. cbn [fmap list_fmap fst indices_then_names].
        rewrite Hk, Hk'.
        assert (n ≠ n').
        { intros ->. apply Hne. by eapply array_index_inj. }
        apply andb_true_iff. split; [by apply Z.ltb_lt |].
        apply andb_true_iff. split; [apply Z.ltb_lt; lia | done].
    + cbn [fmap list_fmap fst indices_then_names]. rewrite Hk, Hk'.
      apply andb_true_iff. split; [by apply Z.ltb_lt | done].
Qed.

Lemma append_name_order lo k (ks : list jsstring) :
  array_index k = None →
  indices_then_names lo ks = true → indices_then_names lo (ks ++ [k]) = true.
Proof.
  intros Hk. revert lo. induction ks as [| k' ks IH]; intros lo Hord.
  - simpl. by rewrite Hk.
  - cbn [app indices_then_names] in *. destruct (array_index k') as [n' |].
    + apply andb_true_iff in Hord as [Hlo Hord]. rewrite Hlo. by apply IH.
    + rewrite forallb_app, Hord. simpl. by rewrite Hk.
Qed.

(** [define_property] keeps the properties in enumeration order. *)
Lemma define_property_order props k v :
  enumeration_order props.*1 = true →
  enumeration_order (define_property props k v).*1 = true.
Proof.
  unfold enumeration_order, define_property.
  intros [Hnd Hord]%andb_true_iff. apply bool_decide_eq_true in Hnd.
  destruct (has_key k props) eqn:Hhas.
  - rewrite replace_value_keys, Hord. by rewrite bool_decide_eq_true_2.
  - assert (Hnot : k ∉ props.*1).
    { intros Hin. apply has_key_elem in Hin. congruence. }
    destruct (array_index k) as [n |] eqn:Hk.
    + apply andb_true_iff. split.
      * apply bool_decide_eq_true. rewrite insert_index_keys. by constructor.
      * apply insert_index_order; try done.
        apply array_index_nonneg in Hk. lia.
    + rewrite fmap_app. apply andb_true_iff. split.
      * apply bool_decide_eq_true. apply NoDup_app. split; [done |].
        split; [| apply NoDup_singleton].
        intros x Hx ->%list_elem_of_singleton. done.
      * by apply append_name_order.
Qed.

Lemma indices_before lo (ks : list jsstring) k more n :
  indices_then_names lo (ks ++ k :: more) = true → array_index k = Some n →
  lo < n ∧ ∀ k', k' ∈ ks → ∃ n', array_index k' = Some n' ∧ n' < n.
Proof.
  intros Hord Hk. revert lo Hord. induction ks as [| k0 ks IH]; intros lo Hord.
  - cbn [app indices_then_names] in Hord. rewrite Hk in Hord.
    apply andb_true_iff in Hord as [Hlo _]. apply Z.ltb_lt in Hlo.
    split; [done | by intros ? ?%elem_of_nil].
  - cbn [app indices_then_names] in Hord.
    destruct (array_index k0) as [n0 |] eqn:Hk0.
    + apply andb_true_iff in Hord as [Hlo Hord]. apply Z.ltb_lt in Hlo.
      destruct (IH _ Hord) as [Hn0 Hall]. split; [lia |].
      intros k' [-> | Hin]%elem_of_cons; [by exists n0 | by apply Hall].
    + rewrite forallb_app in Hord. apply andb_true_iff in Hord as [_ Hord].
      cbn [forallb] in Hord. apply andb_true_iff in Hord as [Hnone _].
      apply bool_decide_eq_true in Hnone. congruence.
Qed.

Lemma insert_index_append n k v props :
  (∀ k', k' ∈ props.*1 → ∃ n', array_index k' = Some n' ∧ n' < n) →
  insert_index n k v props = props ++ [(k, v)].
Proof.
  induction props as [| [k' v'] props IH]; intros Hall; [done |].
  cbn [insert_index]. destruct (Hall k') as (n' & Hk' & Hlt); [left |].
  rewrite Hk'. replace (n' <? n) with true by (symmetry; by apply Z.ltb_lt).
  cbn [app]. f_equal. apply IH. intros k0 Hk0. apply Hall. by right.
Qed.

(** Properties in enumeration order, created one after the other, come out
    as they are. *)
Lemma define_properties_fixed (acc rest : list (jsstring * V)) :
  enumeration_order (acc ++ rest).*1 = true →
  foldl (λ a p, define_property a p.1 p.2) acc rest = acc ++ rest.
Proof.
  revert acc. induction rest as [| [k v] rest IH]; intros acc Hord.
  - by rewrite app_nil_r.
  - cbn [foldl fst snd].
    assert (Hdef : define_property acc k v = acc ++ [(k, v)]).
    { unfold enumeration_order in Hord.
      apply andb_true_iff in Hord as [Hnd Hord]. apply bool_decide_eq_true in Hnd.
      rewrite fmap_app, fmap_cons in Hnd, Hord. cbn [fst] in Hnd, Hord.
      unfold define_property.
      assert (Hhas : has_key k acc = false).
      { destruct (has_key k acc) eqn:Hhas; [| done].
        apply has_key_elem in Hhas. apply NoDup_app in Hnd as (_ & Hnd & _).
        exfalso. apply (Hnd k Hhas). left. }
      rewrite Hhas. destruct (array_index k) as [n |] eqn:Hk; [| done].
      apply insert_index_append. by eapply indices_before. }
    rewrite Hdef, IH; rewrite <- app_assoc; done.
Qed.

End Properties.

End KeyOrder.


(** *** Values *)

Module ValueReadBack.
Import ReadBackSpec ResolverSpec.
Import NumberFacts StringReadBack NumberReadBack ParserFuel KeyOrder.

Lemma skip_ws_head (c : N) (t : jsstring) :
  is_json_white c = false → skip_ws (c :: t) = c :: t.
Proof. intros H. simpl. by rewrite H. Qed.

Lemma starts_value_not (c : N) :
  starts_value c = true →
  is_json_white c = false ∧ is_white c = false
  ∧ (c =? 93)%N = false ∧ (c =? 125)%N = false.
Proof.
  unfold starts_value. intros H.
  apply orb_true_iff in H as [H | H].
  - unfold is_digit in H. apply andb_true_iff in H as [H1 H2].
    apply N.leb_le in H1, H2. unfold is_json_white, is_white.
    repeat split;
      repeat first [ apply orb_false_iff; split
                   | apply andb_false_iff; first [ left; apply N.leb_gt; lia
                                                  | right; apply N.leb_gt; lia ]
                   | apply N.eqb_neq; lia ].
  - repeat (apply orb_true_iff in H as [H | H]);
      apply N.eqb_eq in H; subst; done.
Qed.

Lemma ends_value_not (c : N) : ends_value c = true → is_white c = false.
Proof.
  unfold ends_value. intros H.
  apply orb_true_iff in H as [H | H].
  - unfold is_digit in H. apply andb_true_iff in H as [H1 H2].
    apply N.leb_le in H1, H2. unfold is_white.
    repeat first [ apply orb_false_iff; split
                 | apply andb_false_iff; first [ left; apply N.leb_gt; lia
                                                | right; apply N.leb_gt; lia ]
                 | apply N.eqb_neq; lia ].
  - repeat (apply orb_true_iff in H as [H | H]);
      apply N.eqb_eq in H; subst; done.
Qed.

Lemma Number_toString_first (z : Z) :
  ∃ c t, Number_toString z = c :: t ∧ (is_digit c || (c =? 45)%N) = true.
Proof.
  destruct (Z.lt_trichotomy z 0) as [Hz | [-> | Hz]].
  - unfold Number_toString.
    replace (z <? 0) with true by (symmetry; apply Z.ltb_lt; lia).
    eexists _, _. split; [done |]. by rewrite orb_true_r.
  - by exists 48%N, [].
  - destruct (Number_toString_positive z Hz) as (c & t & Heq & _ & _ & Hc).
    exists c, t. by rewrite Hc.
Qed.

Section Stringify.

Variable print_literal : jsstring → jsstring.

(** How a printed value starts. *)
Lemma stringify_first (v : value) :
  integral v = true →
  ∃ c t, stringify print_literal v = c :: t ∧ starts_value c = true.
Proof.
  destruct v as [| [|] | [z | l] | s | elements | properties]; intros Hv;
    try discriminate;
    try (eexists _, _; split; [reflexivity | reflexivity]).
  destruct (Number_toString_first z) as (c & t & Heq & Hc).
  exists c, t. split; [done |]. unfold starts_value.
  apply orb_true_iff in Hc as [-> | Hc]; [done |].
  rewrite Hc. by rewrite orb_true_r.
Qed.

Lemma read_back_elements (es acc : list value) (rest : jsstring) :
  es ≠ [] → Forall (reads_back print_literal) es →
  ∃ fuel,
    parse_elements fuel (join_comma (map (stringify print_literal) es) ++ 93%N :: rest) acc
    = Ok (JArray (acc ++ es)) rest.
Proof.
  revert acc. induction es as [| e es IH]; [done |]. intros acc _ Hall.
  apply Forall_cons in Hall as [He Hall]. destruct es as [| e2 es].
  - destruct (He (93%N :: rest)) as [f Hf]; [done |].
    exists (S f). cbn [map join_comma parse_elements]. by rewrite Hf.
  - destruct (IH (acc ++ [e])) as [f2 Hf2]; [done | done |].
    destruct (He (44%N :: join_comma (map (stringify print_literal) (e2 :: es))
                  ++ 93%N :: rest)) as [f1 Hf1]; [done |].
    exists (S (f1 `max` f2)).
    change (join_comma (map (stringify print_literal) (e :: e2 :: es)))
      with (stringify print_literal e ++ [44%N]
            ++ join_comma (map (stringify print_literal) (e2 :: es))).
    rewrite <- !app_assoc. cbn [app parse_elements].
    rewrite (parse_value_fuel_le _ (f1 `max` f2) _ _ _ Hf1) by lia.
    cbn [skip_ws]. change (is_json_white 44) with false. cbv iota.
    change (44 =? 44)%N with true. cbv iota.
    rewrite (parse_elements_fuel_le _ (f1 `max` f2) _ _ _ _ Hf2) by lia.
    by rewrite <- app_assoc.
Qed.

Lemma read_back_members (ps acc : list (jsstring * value)) (rest : jsstring) :
  ps ≠ [] → Forall (λ p, reads_back print_literal p.2) ps →
  ∃ fuel,
    parse_members fuel
      (join_comma (map (λ p, quote p.1 ++ [58%N] ++ stringify print_literal p.2) ps)
       ++ 125%N :: rest) acc
    = Ok (JObject (foldl (λ a p, define_property a p.1 p.2) acc ps)) rest.
Proof.
  revert acc. induction ps as [| [k v] ps IH]; [done |]. intros acc _ Hall.
  apply Forall_cons in Hall as [Hv Hall]. cbn [snd] in Hv. destruct ps as [| p2 ps].
  - destruct (Hv (125%N :: rest)) as [f Hf]; [done |].
    exists (S f). cbn [map join_comma fst snd]. unfold quote.
    rewrite <- !app_assoc. cbn [app parse_members skip_ws].
    change (is_json_white 34) with false. cbv iota.
    change (34 =? 34)%N with true. cbv iota.
    rewrite (parse_string_quote_units k _ []). cbn [reverse app skip_ws].
    change (is_json_white 58) with false. cbv iota.
    change (58 =? 58)%N with true. cbv iota.
    by rewrite Hf.
  - destruct (IH (define_property acc k v)) as [f2 Hf2]; [done | done |].
    destruct (Hv (44%N :: join_comma (map (λ p, quote p.1 ++ [58%N]
                                               ++ stringify print_literal p.2) (p2 :: ps))
                  ++ 125%N :: rest)) as [f1 Hf1]; [done |].
    exists (S (f1 `max` f2)).
    change (join_comma (map (λ p, quote p.1 ++ [58%N] ++ stringify print_literal p.2)
                          ((k, v) :: p2 :: ps)))
      with ((quote k ++ [58%N] ++ stringify print_literal v) ++ [44%N]
            ++ join_comma (map (λ p, quote p.1 ++ [58%N] ++ stringify print_literal p.2)
                             (p2 :: ps))).
    unfold quote at 1.
    rewrite <- !app_assoc. cbn [app parse_members skip_ws].
    change (is_json_white 34) with false. cbv iota.
    change (34 =? 34)%N with true. cbv iota.
    rewrite (parse_string_quote_units k _ []). cbn [app skip_ws].
    change (reverse [] ++ k) with k.
    change (is_json_white 58) with false. cbv iota.
    change (58 =? 58)%N with true. cbv iota.
    apply (parse_value_fuel_le _ (f1 `max` f2)) in Hf1; [| lia].
    apply (parse_members_fuel_le _ (f1 `max` f2)) in Hf2; [| lia].
    cbn [app] in Hf1, Hf2. rewrite Hf1.
    cbn [skip_ws]. change (is_json_white 44) with false. cbv iota.
    change (44 =? 44)%N with true. cbv iota.
    by rewrite Hf2.
Qed.

Lemma number_first_other (c : N) :
  (is_digit c || (c =? 45)%N) = true →
  is_json_white c = false ∧ (c =? 123)%N = false ∧ (c =? 91)%N = false
  ∧ (c =? 34)%N = false.
Proof.
  intros [H | H]%orb_true_iff.
  - unfold is_digit in H. apply andb_true_iff in H as [H1 H2].
    apply N.leb_le in H1, H2. unfold is_json_white.
    repeat split;
      repeat first [ apply orb_false_iff; split | apply N.eqb_neq; lia ].
  - apply N.eqb_eq in H. by subst.
Qed.

(** A value as [JSON.parse] builds it, without numbers kept as written, is
    read back from what [JSON.stringify] prints for it. *)
Lemma read_back_value : ∀ v, canonical v = true → integral v = true →
  reads_back print_literal v.
Proof.
  fix IH 1. intros v Hc Hi rest Hrest.
  destruct v as [| [|] | [z | l] | s | elements | properties].
  - clear IH. by exists 1%nat.
  - clear IH. by exists 1%nat.
  - clear IH. by exists 1%nat.
  - clear IH. exists 1%nat. cbn [stringify number_text canonical] in *.
    apply Z.ltb_lt in Hc.
    destruct (Number_toString_first z) as (c & t & Heq & Hfirst).
    destruct (number_first_other c Hfirst) as (Hw & H123 & H91 & H34).
    pose proof (parse_number_Number_toString z rest Hc Hrest) as Hp.
    rewrite Heq in *. cbn [app parse_value skip_ws] in *.
    rewrite Hw, H123, H91, H34, Hfirst, Hp. done.
  - done.
  - clear IH. exists 1%nat. cbn [stringify]. unfold quote.
    rewrite <- !app_assoc. cbn [app parse_value skip_ws].
    change (is_json_white 34) with false. cbv iota.
    change (34 =? 123)%N with false. change (34 =? 91)%N with false.
    change (34 =? 34)%N with true. cbv iota.
    by rewrite (parse_string_quote_units s _ []).
  - assert (Hall : Forall (reads_back print_literal) elements).
    { cbn [canonical integral] in Hc, Hi. clear rest Hrest.
      induction elements as [| e elements IHe]; [constructor |].
      cbn [forallb] in Hc, Hi.
      apply andb_true_iff in Hc as [? ?]. apply andb_true_iff in Hi as [? ?].
      constructor; [by apply IH | by apply IHe]. }
    assert (Hfirst : ∀ e, e ∈ elements → ∃ c t,
              stringify print_literal e = c :: t ∧ starts_value c = true).
    { intros e He. apply stringify_first. cbn [integral] in Hi.
      rewrite forallb_forall in Hi. apply Hi. by apply list_elem_of_In. }
    clear IH Hc Hi. cbn [stringify]. rewrite <- !app_assoc. cbn [app].
    destruct elements as [| e elements].
    + by exists 1%nat.
    + destruct (read_back_elements (e :: elements) [] rest) as [f Hf]; [done | done |].
      destruct (Hfirst e) as (c & t & Heq & Hs); [left |].
      destruct (starts_value_not c Hs) as (Hw & _ & H93 & _).
      assert (Htext : ∃ t', join_comma (map (stringify print_literal) (e :: elements))
                            ++ 93%N :: rest = c :: t').
      { cbn [map join_comma]. rewrite Heq.
        destruct (map (stringify print_literal) elements); eexists; reflexivity. }
      destruct Htext as [t' Htext].
      exists (S f). cbn [parse_value skip_ws].
      change (is_json_white 91) with false. cbv iota.
      change (91 =? 123)%N with false. change (91 =? 91)%N with true. cbv iota.
      rewrite Htext in Hf |- *. rewrite (skip_ws_head c) by done. rewrite H93.
      exact Hf.
  - assert (Hall : Forall (λ p, reads_back print_literal p.2) properties).
    { cbn [canonical integral] in Hc, Hi. clear rest Hrest.
      apply andb_true_iff in Hc as [_ Hc].
      induction properties as [| [k e] properties IHp]; [constructor |].
      cbn [forallb snd] in Hc, Hi.
      apply andb_true_iff in Hc as [? ?]. apply andb_true_iff in Hi as [? ?].
      constructor; [by apply IH | by apply IHp]. }
    assert (Hord : enumeration_order properties.*1 = true).
    { cbn [canonical] in Hc. by apply andb_true_iff in Hc as [? _]. }
    clear IH Hc Hi. cbn [stringify]. rewrite <- !app_assoc. cbn [app].
    destruct properties as [| [k e] properties].
    + by exists 1%nat.
    + destruct (read_back_members ((k, e) :: properties) [] rest) as [f Hf];
        [done | done |].
      rewrite (define_properties_fixed [] ((k, e) :: properties)) in Hf by done.
      assert (Htext : ∃ t',
                join_comma (map (λ p, quote p.1 ++ [58%N] ++ stringify print_literal p.2)
                              ((k, e) :: properties))
                ++ 125%N :: rest = 34%N :: t').
      { cbn [map join_comma fst]. unfold quote.
        destruct (map _ properties); eexists; reflexivity. }
      destruct Htext as [t' Htext].
      exists (S f). cbn [parse_value skip_ws].
      change (is_json_white 123) with false. cbv iota.
      change (123 =? 123)%N with true. cbv iota.
      cbn [app] in Htext, Hf. rewrite Htext in Hf |- *.
      rewrite (skip_ws_head 34) by done.
      change (34 =? 125)%N with false. cbv iota. exact Hf.
Qed.

(** [JSON.parse(JSON.stringify(v))] is [v]. *)
Lemma JSON_parse_stringify (v : value) :
  canonical v = true → integral v = true →
  JSON_parse (stringify print_literal v) = Returns v.
Proof.
  intros Hc Hi. destruct (read_back_value v Hc Hi [] eq_refl) as [fuel H].
  rewrite app_nil_r in H. by eapply JSON_parse_of_fuel.
Qed.

End Stringify.

End ValueReadBack.


(** *** The form of what the parser builds *)

Module ParsedForm.
Import ReadBackSpec ResolverSpec Aggregate AggregateSpec CombinedSpec.
Import NumberFacts Pattern JsonFacts KeyOrder Normalizer.

Lemma parse_int_part_digits s int rest :
  parse_int_part s = Some (int, rest) → all_digits int.
Proof.
  unfold parse_int_part. destruct s as [| c t]; [done |].
  destruct (c =? 48)%N eqn:H48.
  - apply N.eqb_eq in H48. subst c. by intros [= <- _].
  - destruct (is_digit c); [| done]. intros H.
    assert (H' : span_digits (c :: t) = (int, rest)) by congruence.
    by apply span_digits_inv in H' as [_ ?].
Qed.

(** A number that is read as an integer is below 2^53 in magnitude. *)
Lemma parse_number_canonical s n rest :
  parse_number s = Some (n, rest) → canonical (JNumber n) = true.
Proof.
  unfold parse_number. intros H.
  destruct (match s with
            | c :: t => if (c =? 45)%N then ([c], t) else ([], s)
            | [] => ([], s)
            end) as [sign s1].
  destruct (parse_int_part s1) as [[int s2] |] eqn:Hint; [| done].
  cbn [mbind option_bind] in H.
  destruct (parse_fraction s2) as [[frac s3] |]; [| done]. cbn [mbind option_bind] in H.
  destruct (parse_exponent s3) as [[exp s4] |]; [| done]. cbn [mbind option_bind] in H.
  injection H as <- _.
  pose proof (digits_bound int (parse_int_part_digits _ _ _ Hint)) as [Hpos _].
  destruct frac; [| done]. destruct exp; [| done].
  destruct (decimal_value int <? 2 ^ 53) eqn:Hlt; [| done].
  apply Z.ltb_lt in Hlt. cbn [canonical]. apply Z.ltb_lt.
  destruct sign; lia.
Qed.

Section Values.

Implicit Types (props : list (jsstring * value)) (k : jsstring) (v : value).

Lemma define_property_canonical props k v :
  forallb (λ p, canonical p.2) props = true → canonical v = true →
  forallb (λ p, canonical p.2) (define_property props k v) = true.
Proof.
  intros Hprops Hv. unfold define_property.
  destruct (has_key k props).
  - induction props as [| [k' v'] props IH]; [done |].
    cbn [forallb snd] in Hprops. apply andb_true_iff in Hprops as [H1 H2].
    cbn [replace_value]. destruct (bool_decide (k' = k)); cbn [forallb snd].
    + by rewrite Hv, H2.
    + by rewrite H1, IH.
  - destruct (array_index k) as [n |].
    + induction props as [| [k' v'] props IH]; [cbn; by rewrite Hv |].
      cbn [forallb snd] in Hprops. apply andb_true_iff in Hprops as [H1 H2].
      cbn [insert_index].
      destruct (array_index k') as [n' |]; [destruct (n' <? n) |]; cbn [forallb snd];
        rewrite ?Hv, ?H1, ?H2, ?IH; done.
    + rewrite forallb_app, Hprops. cbn. by rewrite Hv.
Qed.

(** What the parser builds is in the form of [canonical]. *)
Lemma parse_canonical fuel :
  (∀ s v rest, parse_value fuel s = Ok v rest → canonical v = true)
  ∧ (∀ s acc v rest,
       parse_elements fuel s acc = Ok v rest →
       forallb canonical acc = true → canonical v = true)
  ∧ (∀ s acc v rest,
       parse_members fuel s acc = Ok v rest →
       enumeration_order acc.*1 = true → forallb (λ p, canonical p.2) acc = true →
       canonical v = true).
Proof.
  induction fuel as [| fuel (IHv & IHe & IHm)]; [by repeat split |].
  split; [| split].
  - intros s v rest H. cbn [parse_value] in H.
    destruct (skip_ws s) as [| c t]; [done |].
    destruct (c =? 123)%N.
    { destruct (skip_ws t) as [| c' t']; [done |].
      destruct (c' =? 125)%N; [by injection H as <- _ |].
      by eapply IHm. }
    destruct (c =? 91)%N.
    { destruct (skip_ws t) as [| c' t']; [done |].
      destruct (c' =? 93)%N; [by injection H as <- _ |].
      by eapply IHe. }
    destruct (c =? 34)%N.
    { destruct (parse_string t []) as [[k r] |]; [| done].
      by injection H as <- _. }
    destruct (is_digit c || (c =? 45)%N).
    { destruct (parse_number (c :: t)) as [[n r] |] eqn:Hn; [| done].
      injection H as <- _. by eapply parse_number_canonical. }
    unfold parse_literal in H.
    repeat match type of H with
           | context [if ?b then _ else _] => destruct b
           end; try done; by injection H as <- _.
  - intros s acc v rest H Hacc. cbn [parse_elements] in H.
    destruct (parse_value fuel s) as [e r | |] eqn:He; [| done | done].
    apply IHv in He.
    assert (Hacc' : forallb canonical (acc ++ [e]) = true).
    { rewrite forallb_app, Hacc. cbn. by rewrite He. }
    destruct (skip_ws r) as [| c t]; [done |].
    destruct (c =? 44)%N; [by eapply IHe |].
    destruct (c =? 93)%N; [| done]. by injection H as <- _.
  - intros s acc v rest H Hord Hacc. cbn [parse_members] in H.
    destruct (skip_ws s) as [| c t]; [done |].
    destruct (c =? 34)%N; [| done].
    destruct (parse_string t []) as [[k r] |]; [| done].
    destruct (skip_ws r) as [| c' t']; [done |].
    destruct (c' =? 58)%N; [| done].
    destruct (parse_value fuel t') as [e r' | |] eqn:He; [| done | done].
    apply IHv in He.
    pose proof (define_property_order acc k e Hord) as Hord'.
    pose proof (define_property_canonical acc k e Hacc He) as Hacc'.
    destruct (skip_ws r') as [| c'' t'']; [done |].
    destruct (c'' =? 44)%N; [by eapply IHm |].
    destruct (c'' =? 125)%N; [| done]. injection H as <- _.
    cbn [canonical]. by rewrite Hord', Hacc'.
Qed.

Lemma JSON_parse_canonical text v : JSON_parse text = Returns v → canonical v = true.
Proof.
  unfold JSON_parse. intros H.
  destruct (parse_value (2 * length text + 1) text) as [v' rest | |] eqn:Hp; try done.
  destruct (skip_ws rest); [| done]. injection H as <-.
  by eapply (proj1 (parse_canonical _)).
Qed.

Lemma line_values_canonical lines : forallb canonical (line_values lines) = true.
Proof.
  induction lines as [| line lines IH]; [done |].
  rewrite line_values_cons. destruct (trim line) as [| c t]; [done |].
  destruct (JSON_parse (c :: t)) as [v |] eqn:Hv; [| done].
  cbn [forallb]. by rewrite (JSON_parse_canonical _ _ Hv), IH.
Qed.

(** The values that [parseJsonContent] returns are in the form of
    [canonical]. *)
Lemma parseJsonContent_canonical content values :
  parseJsonContent content = Returns values → forallb canonical values = true.
Proof.
  unfold parseJsonContent. destruct (trim content) as [| c t]; [by intros [= <-] |].
  destruct (JSON_parse (c :: t)) as [parsed |] eqn:Hp; cbn [bind try_catch].
  - apply JSON_parse_canonical in Hp. intros [= <-].
    destruct parsed; try (cbn [forallb]; by rewrite Hp). exact Hp.
  - rewrite parse_lines_values. intros [= <-]. apply line_values_canonical.
Qed.

Lemma values_of_canonical fd : forallb canonical (values_of fd) = true.
Proof.
  unfold values_of. destruct (download (file fd)) as [rawText |]; [| done].
  destruct (trim rawText); [done |].
  destruct (parseJsonContent rawText) as [values |] eqn:Hp; [| done].
  by eapply parseJsonContent_canonical.
Qed.

End Values.

End ParsedForm.


(** *** The lines of the combined file *)

Module ReadBack.
Import TextSpec ReadBackSpec ResolverSpec Aggregate AggregateSpec CombinedSpec.
Import NumberFacts DateFacts TrimFacts LineFacts JsonFacts Normalizer Aggregation.
Import StringReadBack NumberReadBack ParserFuel KeyOrder ValueReadBack ParsedForm
  CombinedFile.

Lemma snoc_digit (ds : jsstring) :
  ds ≠ [] → all_digits ds → ∃ t c, ds = t ++ [c] ∧ is_digit c = true.
Proof.
  intros Hne Hall. destruct ds as [| c ds] using rev_ind; [done |].
  exists ds, c. split; [done |]. unfold all_digits in Hall.
  rewrite forallb_app in Hall. apply andb_true_iff in Hall as [_ Hall].
  simpl in Hall. by apply andb_true_iff in Hall as [? _].
Qed.

Lemma Number_toString_last (z : Z) :
  ∃ t c, Number_toString z = t ++ [c] ∧ is_digit c = true.
Proof.
  destruct (Z.lt_ge_cases z 0) as [Hz | Hz].
  - destruct (Number_toString_digits (- z) ltac:(lia)) as [Hne Hall].
    destruct (snoc_digit _ Hne Hall) as (t & c & Heq & Hc).
    exists (45%N :: t), c. split; [| done].
    unfold Number_toString in *.
    replace (z <? 0) with true by (symmetry; apply Z.ltb_lt; lia).
    replace (- z <? 0) with false in Heq by (symmetry; apply Z.ltb_ge; lia).
    rewrite Z.abs_opp in Heq. cbv zeta in *. by rewrite Heq.
  - destruct (Number_toString_digits z Hz) as [Hne Hall].
    by apply snoc_digit.
Qed.

Section Stringify.

Variable print_literal : jsstring → jsstring.

(** How a printed value ends. *)
Lemma stringify_last (v : value) :
  integral v = true →
  ∃ t c, stringify print_literal v = t ++ [c] ∧ ends_value c = true.
Proof.
  destruct v as [| [|] | [z | l] | s | elements | properties]; intros Hv;
    try discriminate.
  - by exists (str "nul"), 108%N.
  - by exists (str "tru"), 101%N.
  - by exists (str "fals"), 101%N.
  - destruct (Number_toString_last z) as (t & c & Heq & Hc).
    exists t, c. split; [done |]. unfold ends_value. by rewrite Hc.
  - cbn [stringify]. unfold quote. exists ([34%N] ++ quote_units s), 34%N.
    split; [by rewrite <- app_assoc | done].
  - cbn [stringify]. eexists (_ ++ _), 93%N. split; [by rewrite <- app_assoc | done].
  - cbn [stringify]. eexists (_ ++ _), 125%N. split; [by rewrite <- app_assoc | done].
Qed.

(** The numbers kept as written apart, a value prints in one way. *)
Lemma stringify_integral (print_literal' : jsstring → jsstring) :
  ∀ v, integral v = true → stringify print_literal v = stringify print_literal' v.
Proof.
  fix IH 1. intros [| [|] | [z | l] | s | elements | properties] Hv; try done.
  - assert (Hm : map (stringify print_literal) elements
                 = map (stringify print_literal') elements).
    { cbn [integral] in Hv. induction elements as [| e elements IHe]; [done |].
      cbn [forallb] in Hv. apply andb_true_iff in Hv as [? ?].
      cbn [map]. f_equal; [by apply IH | by apply IHe]. }
    cbn [stringify]. by rewrite Hm.
  - assert (Hm : map (λ p, quote p.1 ++ [58%N] ++ stringify print_literal p.2) properties
                 = map (λ p, quote p.1 ++ [58%N] ++ stringify print_literal' p.2)
                     properties).
    { cbn [integral] in Hv. induction properties as [| [k e] properties IHp]; [done |].
      cbn [forallb snd] in Hv. apply andb_true_iff in Hv as [? ?].
      cbn [map fst snd]. f_equal; [| by apply IHp]. do 2 f_equal. by apply IH. }
    cbn [stringify]. by rewrite Hm.
Qed.

Lemma stringify_integral_no_LF (v : value) :
  integral v = true → no_line_feed (stringify print_literal v).
Proof.
  intros Hv. rewrite (stringify_integral (λ _, []) v Hv).
  apply stringify_no_LF. intros _. by intros ?%elem_of_nil.
Qed.

Lemma trim_printed (v : value) :
  integral v = true →
  trim (stringify print_literal v) = stringify print_literal v
  ∧ stringify print_literal v ≠ [].
Proof.
  intros Hv.
  destruct (stringify_first print_literal v Hv) as (c & t & Heq & Hc).
  destruct (stringify_last v Hv) as (t' & c' & Heq' & Hc').
  apply starts_value_not in Hc as (_ & Hc & _). apply ends_value_not in Hc'.
  split; [| by rewrite Heq]. unfold trim.
  rewrite Heq at 1. rewrite trimStart_fixed, <- Heq by done.
  rewrite Heq' at 1. by rewrite trimEnd_fixed.
Qed.

(** Every printed value, as a line, is read back as that value. *)
Lemma line_values_printed (vs : list value) :
  forallb canonical vs = true → forallb integral vs = true →
  line_values (stringify print_literal <$> vs) = vs.
Proof.
  induction vs as [| v vs IH]; [done |]. cbn [forallb].
  intros [Hc Hcs]%andb_true_iff [Hi His]%andb_true_iff.
  rewrite fmap_cons, line_values_cons.
  destruct (trim_printed v Hi) as [-> Hne].
  destruct (stringify print_literal v) as [| c t] eqn:Heq; [done |].
  rewrite <- Heq, JSON_parse_stringify by done. by rewrite IH.
Qed.

Lemma split_lines_single (s : jsstring) : no_line_feed s → split_lines s = [s].
Proof.
  unfold no_line_feed. induction s as [| c s IH]; [done |]. intros Hs.
  apply not_elem_of_cons in Hs as [Hc Hs]. cbn [split_lines].
  replace (c =? LF)%N with false by (symmetry; apply N.eqb_neq; congruence).
  by rewrite IH.
Qed.

Lemma split_join_lines (lines : list jsstring) :
  lines ≠ [] → Forall no_line_feed lines → split_lines (join_lines lines) = lines.
Proof.
  intros Hne Hall. induction Hall as [| s lines Hs Hall IH]; [done |].
  destruct lines as [| s' lines].
  - by apply split_lines_single.
  - change (join_lines (s :: s' :: lines)) with (s ++ LF :: join_lines (s' :: lines)).
    rewrite split_lines_line by done. by rewrite IH.
Qed.

Lemma concat_join_lines (lines : list jsstring) :
  lines ≠ [] → concat ((λ s, s ++ [LF]) <$> lines) = join_lines lines ++ [LF].
Proof.
  intros Hne. induction lines as [| s lines IH]; [done |].
  destruct lines as [| s' lines].
  - cbn. by rewrite app_nil_r.
  - rewrite fmap_cons. cbn [concat]. rewrite IH by done.
    change (join_lines (s :: s' :: lines)) with (s ++ LF :: join_lines (s' :: lines)).
    by rewrite <- !app_assoc.
Qed.

Lemma join_lines_first (c : N) (t : jsstring) (lines : list jsstring) :
  ∃ t', join_lines ((c :: t) :: lines) = c :: t'.
Proof. destruct lines; eexists; reflexivity. Qed.

Lemma join_lines_last (Q : N → Prop) (lines : list jsstring) :
  lines ≠ [] → Forall (λ s, ∃ t c, s = t ++ [c] ∧ Q c) lines →
  ∃ t c, join_lines lines = t ++ [c] ∧ Q c.
Proof.
  intros Hne Hall. induction Hall as [| s lines Hs Hall IH]; [done |].
  destruct lines as [| s' lines]; [done |].
  destruct IH as (t & c & Heq & Hc); [done |].
  exists (s ++ LF :: t), c. split; [| done].
  change (join_lines (s :: s' :: lines)) with (s ++ LF :: join_lines (s' :: lines)).
  by rewrite Heq, <- app_assoc.
Qed.

Lemma joined_first (v : value) (vs : list value) :
  integral v = true →
  ∃ c t, join_lines (stringify print_literal <$> v :: vs) = c :: t
         ∧ is_white c = false ∧ is_json_white c = false.
Proof.
  intros Hv. destruct (stringify_first print_literal v Hv) as (c & t & Heq & Hc).
  apply starts_value_not in Hc as (Hj & Hw & _).
  rewrite fmap_cons, Heq. destruct (join_lines_first c t (stringify print_literal <$> vs))
    as [t' ->]. by exists c, t'.
Qed.

Lemma trim_joined (vs : list value) :
  vs ≠ [] → forallb integral vs = true →
  trim (join_lines (stringify print_literal <$> vs) ++ [LF])
  = join_lines (stringify print_literal <$> vs).
Proof.
  intros Hne Hall. destruct vs as [| v vs]; [done |].
  destruct (joined_first v vs) as (c & t & Heq & Hc & _).
  { cbn [forallb] in Hall. by apply andb_true_iff in Hall as [? _]. }
  destruct (join_lines_last (λ c, is_white c = false)
              (stringify print_literal <$> v :: vs)) as (t' & c' & Heq' & Hc').
  { done. }
  { apply Forall_fmap, Forall_forall. intros x Hx. simpl.
    rewrite forallb_forall in Hall.
    destruct (stringify_last x) as (t' & c' & ? & Hc'); [by apply Hall, list_elem_of_In |].
    exists t', c'. split; [done | by apply ends_value_not]. }
  unfold trim. rewrite Heq at 1. cbn [app]. rewrite trimStart_fixed by done.
  rewrite app_comm_cons, <- Heq, trimEnd_blank by done.
  rewrite Heq' at 1. by rewrite trimEnd_fixed.
Qed.

(** Two printed values on two lines are not one JSON text. *)
Lemma JSON_parse_joined (v v' : value) (vs : list value) :
  canonical v = true → integral v = true → integral v' = true →
  JSON_parse (join_lines (stringify print_literal <$> v :: v' :: vs)) = Throws.
Proof.
  intros Hc Hi Hi'.
  destruct (joined_first v' vs Hi') as (c & t & Heq & _ & Hw).
  rewrite !fmap_cons.
  change (join_lines (stringify print_literal v :: stringify print_literal v'
                      :: (stringify print_literal <$> vs)))
    with (stringify print_literal v
          ++ LF :: join_lines (stringify print_literal <$> v' :: vs)).
  destruct (read_back_value print_literal v Hc Hi
              (LF :: join_lines (stringify print_literal <$> v' :: vs)) eq_refl)
    as [fuel Hp].
  apply parse_value_JSON_fuel in Hp. unfold JSON_parse. rewrite Hp.
  cbn [skip_ws]. change (is_json_white LF) with true. cbv iota.
  rewrite Heq, skip_ws_head by done. done.
Qed.

(** X21. [parseJsonContent] reads back the lines that the aggregation writes for
    a list of values: the values themselves, except that a single array
    comes back as its elements. *)
Theorem lines_read_back (vs : list value) :
  forallb canonical vs = true → forallb integral vs = true →
  parseJsonContent (lines_text print_literal vs) = Returns (unwrapped vs).
Proof.
  intros Hc Hi. destruct vs as [| v vs]; [done |].
  unfold lines_text.
  rewrite (list_fmap_compose (stringify print_literal) (λ s, s ++ [LF])).
  rewrite concat_join_lines by done.
  unfold parseJsonContent. rewrite trim_joined by done. cbv zeta.
  destruct (joined_first v vs) as (c & t & Heq & _).
  { cbn [forallb] in Hi. by apply andb_true_iff in Hi as [? _]. }
  rewrite Heq. rewrite <- Heq.
  cbn [forallb] in Hc, Hi.
  apply andb_true_iff in Hc as [Hcv Hcs]. apply andb_true_iff in Hi as [Hiv His].
  destruct vs as [| v' vs].
  - cbn [fmap list_fmap join_lines]. rewrite JSON_parse_stringify by done.
    cbn [bind try_catch unwrapped]. by destruct v.
  - cbn [forallb] in His. apply andb_true_iff in His as [Hiv' His].
    rewrite JSON_parse_joined by done. cbn [bind try_catch].
    rewrite parse_lines_values, split_join_lines.
    + rewrite line_values_printed.
      * by destruct v.
      * cbn [forallb] in *. by rewrite Hcv, Hcs.
      * cbn [forallb]. by rewrite Hiv, Hiv', His.
    + done.
    + apply Forall_fmap, Forall_forall. intros x Hx. simpl.
      apply stringify_integral_no_LF.
      assert (Hall : forallb integral (v :: v' :: vs) = true)
        by (cbn [forallb]; by rewrite Hiv, Hiv', His).
      rewrite forallb_forall in Hall. by apply Hall, list_elem_of_In.
Qed.

(** X22. What a run leaves in the combined file is read back by
    [parseJsonContent] as the values the run took from the selected objects,
    a single array apart, provided none of their numbers is kept as
    written. *)
Theorem today_file_read_back (now : nat → Z) (files : list RemoteObject)
    (dir : directory) :
  select now 1 files ≠ [] →
  forallb integral (concat (values_of <$> stable_sort_by created (select now 1 files)))
  = true →
  ∃ content,
    (processLogs print_literal now files dir).1 !! TODAY_FILE = Some content
    ∧ parseJsonContent content
      = Returns (unwrapped
                   (concat (values_of <$> stable_sort_by created (select now 1 files)))).
Proof.
  intros Hne Hi. eexists. split; [by apply processLogs_values |].
  apply lines_read_back; [| done].
  induction (stable_sort_by created (select now 1 files)) as [| fd l IH]; [done |].
  rewrite fmap_cons in *. cbn [concat] in *. rewrite forallb_app in *.
  apply andb_true_iff in Hi as [_ Hi]. by rewrite values_of_canonical, IH.
Qed.

End Stringify.

Lemma lines_read_back_witness :
  parseJsonContent (dq "{'y':2}" ++ [LF] ++ dq "{'y':3}" ++ [LF])
  = Returns [single "y" 2; single "y" 3].
Proof.
  apply (lines_read_back (λ l, l) [single "y" 2; single "y" 3]); by vm_compute.
Defined.

Lemma today_file_read_back_witness :
  ∃ content,
    (processLogs (λ l, l) (λ _, noon)
       [two_lines (str "logs/2024/03/07/b.json") (Date_UTC 2024 2 7 9 30)] ∅).1
      !! TODAY_FILE = Some content
    ∧ parseJsonContent content = Returns [single "y" 2; single "y" 3].
Proof.
  apply (today_file_read_back (λ l, l) (λ _, noon)
           [two_lines (str "logs/2024/03/07/b.json") (Date_UTC 2024 2 7 9 30)] ∅);
    by vm_compute.
Defined.

End ReadBack.


(** ** What the sync uses of the local directory *)

Module WatermarkUse.
Import Index ResolverSpec SyncSpec GroupSpec.
Import Sync.

Lemma collect_date (lastProcessed lastProcessed' : option Watermark)
    (files : list RemoteObject) :
  date <$> lastProcessed = date <$> lastProcessed' →
  collect lastProcessed files = collect lastProcessed' files.
Proof.
  intros Hd. unfold collect, keep.
  destruct lastProcessed as [w |], lastProcessed' as [w' |]; try done.
  injection Hd as Hd. by rewrite Hd.
Qed.

(** X23. Of the local directory, a run of the sync uses the date of the
    watermark and nothing else: the sequence number of the watermark and the
    contents of the files have no influence on what is downloaded and what
    is written to which name. *)
Theorem sync_uses_watermark_date (tz : TimeZone) (files : list RemoteObject)
    (dir dir' : directory) :
  date <$> getLatestProcessedFile tz (readdirSync dir)
  = date <$> getLatestProcessedFile tz (readdirSync dir') →
  (downloadAndSaveJSON tz files dir).2 = (downloadAndSaveJSON tz files dir').2.
Proof.
  intros Hd. unfold downloadAndSaveJSON. rewrite !process_groups_trace.
  by rewrite (collect_date _ _ files Hd).
Qed.

Lemma sync_uses_watermark_date_witness :
  (downloadAndSaveJSON utc_zone midnight_then_morning
     {[ str "07-03-2024-S0.json" := str "old" ]}).2
  = (downloadAndSaveJSON utc_zone midnight_then_morning
       {[ str "07-03-2024-S41.json" := str "other"; str "notes.txt" := str "n" ]}).2.
Proof. apply sync_uses_watermark_date. by vm_compute. Defined.

End WatermarkUse.


(** ** The day of the watermark *)

Module WatermarkDay.
Import Index ResolverSpec SyncSpec GroupSpec DateSpec ScenarioSpec.
Import Sync NamesFacts DownloadOrder.

(** C1, at the scenario of the specification. The watermark read from the
    two files of 6 March is the midnight that begins that day, so the two
    objects created at ten and at eleven on 6 March are later than it: the
    run downloads them again and writes their files again, before it takes
    the object of 7 March. *)
Lemma sync_redownloads_watermark_day :
  getLatestProcessedFile utc_zone (readdirSync scenario_directory)
  = Some {| date := Date_UTC 2024 2 6 0 0; sequence := Fin 1 |}
  ∧ (downloadAndSaveJSON utc_zone scenario_bucket scenario_directory).2
    = [Download scenario_first; WriteFile (str "06-03-2024-S0.json") (dq "{'a':1}");
       Download scenario_second; WriteFile (str "06-03-2024-S1.json") (dq "{'b':1}");
       Download scenario_third; WriteFile (str "07-03-2024-S0.json") (dq "{'c':1}")].
Proof. split; by vm_compute. Qed.

Section WithTimeZone.

Variable tz : TimeZone.

(** What a run writes, it writes under the date of an object created after
    the watermark. *)
Lemma written_after_watermark files dir w p :
  getLatestProcessedFile tz (readdirSync dir) = Some w →
  p ∈ written_paths (downloadAndSaveJSON tz files dir).2 →
  ∃ o i, o ∈ files ∧ date w < timeCreated o
         ∧ p = sequence_file (formatDate tz (timeCreated o)) i.
Proof.
  intros Hw Hp. unfold downloadAndSaveJSON in Hp. rewrite process_groups_trace in Hp.
  cbn [snd app] in Hp. apply written_paths_concat in Hp as (g & Hg & Hp).
  apply written_from_NoDup in Hp as (i & _ & ->).
  apply group_by_date_elem in Hg as (Hsub & Hall & Hne).
  destruct g.2 as [| fd fds] eqn:Hg2; [done |].
  apply Forall_cons in Hall as [Hkey _].
  assert (Hfd : fd ∈ sort_by_created
                  (collect (getLatestProcessedFile tz (readdirSync dir)) files)).
  { eapply elem_of_sublist; [| exact Hsub]. left. }
  rewrite sort_by_created_Permutation, Hw in Hfd. unfold collect in Hfd.
  apply list_elem_of_fmap in Hfd as (o & -> & Ho).
  apply list_elem_of_filter in Ho as [Hk Ho].
  unfold keep in Hk. apply andb_true_iff in Hk as [_ Hk].
  apply negb_true_iff, Z.leb_gt in Hk.
  exists o, i. cbn [created] in Hkey. by rewrite Hkey.
Qed.

(** X26. Where no listed object later than the watermark falls on a local
    day before the day of the watermark, a run leaves the sequence files of
    the earlier days as they are. *)
Theorem sync_keeps_earlier_days (files : list RemoteObject) (dir : directory)
    (w : Watermark) (t : Z) (i : nat) :
  getLatestProcessedFile tz (readdirSync dir) = Some w →
  (∀ o, o ∈ files → date w < timeCreated o →
        local_day tz (date w) ≤ local_day tz (timeCreated o)) →
  local_day tz t < local_day tz (date w) →
  (downloadAndSaveJSON tz files dir).1 !! sequence_file (formatDate tz t) i
  = dir !! sequence_file (formatDate tz t) i.
Proof.
  intros Hw Hzone Ht.
  assert (Hdir : (downloadAndSaveJSON tz files dir).1
                 = apply_writes (downloadAndSaveJSON tz files dir).2 dir).
  { unfold downloadAndSaveJSON. by rewrite process_groups_dir, process_groups_trace. }
  rewrite Hdir. apply apply_writes_frame. intros Hp.
  destruct (written_after_watermark files dir w _ Hw Hp) as (o & j & Ho & Hlater & Heq).
  apply sequence_file_inj in Heq as [Heq _]; [| apply formatDate_chars ..].
  apply formatDate_day in Heq. specialize (Hzone o Ho Hlater). lia.
Qed.

End WithTimeZone.

Lemma sync_keeps_earlier_days_witness :
  (downloadAndSaveJSON utc_zone scenario_bucket
     (<[ str "05-03-2024-S0.json" := str "kept" ]> scenario_directory)).1
    !! str "05-03-2024-S0.json"
  = Some (str "kept").
Proof.
  change (str "05-03-2024-S0.json")
    with (sequence_file (formatDate utc_zone (Date_UTC 2024 2 5 15 0)) 0).
  rewrite (sync_keeps_earlier_days utc_zone scenario_bucket _
             {| date := Date_UTC 2024 2 6 0 0; sequence := Fin 1 |}).
  - by vm_compute.
  - by vm_compute.
  - intros o _ Hlater. unfold local_day, LocalTime, Day. cbn [tza_utc utc_zone date] in *.
    apply Z.div_le_mono; [done | lia].
  - by vm_compute.
Defined.

End WatermarkDay.
